(** * task-tracker: the storage layer and the task manager

    A shallow embedding of [storage.py] (class [TaskStorage]) and
    [task_manager.py] (class [TaskManager]).

    - Python [str] is a list of code points ([str]); [int] is [Z].
    - What [json.dump]/[json.load] exchange with the file is a JSON [value];
      the encoder and the decoder of Python's [json] module are written out
      for the settings the program uses ([indent=2], [ensure_ascii] on,
      strict decoding), on values without floats.
    - The data file is a list of bytes read and written through UTF-8.
    - Exceptions and the mutable manager are a state-and-exception monad:
      a raised exception keeps the mutations made before it, as in Python. *)

From Stdlib Require Import List ZArith NArith Lia Bool String Ascii.
From Stdlib Require Strings.Byte.
From Stdlib Require Import Permutation Sorted.
From Stdlib Require DecimalFacts DecimalN.
Import ListNotations.

Set Implicit Arguments.
Set Warnings "-register-all".

(* ================================================================== *)
(** ** Text *)

Definition char := N.
Definition str := list char.

(** A Python string literal. *)
Definition py (s : string) : str := map N_of_ascii (list_ascii_of_string s).

Fixpoint str_eqb (a b : str) : bool :=
  match a, b with
  | [], [] => true
  | x :: a', y :: b' => N.eqb x y && str_eqb a' b'
  | _, _ => false
  end.

(** [str.lower] on the letters A-Z.  On other code points Python's [lower]
    may change the character, but the only one that lowers to an ASCII letter
    is U+212A (to k), so whether [lower s] is one of high/medium/low, the only
    use the program makes of it, is decided by the ASCII letters. *)
Definition lower_char (c : char) : char :=
  if (N.leb 65 c && N.leb c 90)%bool then (c + 32)%N else c.

Definition lower (s : str) : str := map lower_char s.

(** Python dicts with [str] keys, in insertion order. *)
Definition dict (V : Type) := list (str * V).

Fixpoint dict_get {V} (k : str) (d : dict V) : option V :=
  match d with
  | [] => None
  | (k', v) :: d' => if str_eqb k k' then Some v else dict_get k d'
  end.

Definition dict_mem {V} (k : str) (d : dict V) : bool :=
  match dict_get k d with Some _ => true | None => false end.

(** [d[k] = v]: an existing key keeps its position. *)
Fixpoint dict_set {V} (k : str) (v : V) (d : dict V) : dict V :=
  match d with
  | [] => [(k, v)]
  | (k', v') :: d' =>
      if str_eqb k k' then (k', v) :: d' else (k', v') :: dict_set k v d'
  end.

(* ================================================================== *)
(** ** Outcomes *)

Inductive exn := JSONDecodeError | OSError | UnicodeDecodeError.

(** [Beyond]: the run leaves the modelled fragment of Python (a float token,
    a document that is not a list of task dicts, nesting deeper than
    [max_nesting]).  A state paired with [Beyond] says nothing. *)
Inductive outcome (A : Type) :=
| Ret (a : A)
| Raise (e : exn)
| Beyond.

Arguments Ret {A} a.
Arguments Raise {A} e.
Arguments Beyond {A}.

(* ================================================================== *)
(** ** JSON values *)

Inductive value :=
| VNone
| VBool (b : bool)
| VInt (z : Z)
| VStr (s : str)
| VList (l : list value)
| VDict (d : list (str * value)).

(** Lists and dicts inside one another: a scalar nests 0 deep, [[]] 1. *)
Fixpoint depth (v : value) : nat :=
  match v with
  | VList l => S (list_max (map depth l))
  | VDict d => S (list_max (map (fun kv => depth (snd kv)) d))
  | _ => 0
  end.

(** Encoder and decoder recurse into every list and dict, and the
    interpreter stops a recursion at its limit with RecursionError
    ([sys.getrecursionlimit()], 1000 frames unless changed, of which the
    callers hold some).  The model follows values and texts nested up to
    [max_nesting] deep, which every call path of this program leaves room
    for; what nests deeper is [Beyond]. *)
Definition max_nesting : nat := 100.

(** *** json.encoder, [ensure_ascii=True], [indent=2] *)

Definition hexdigit (d : N) : char :=
  if N.ltb d 10 then (48 + d)%N else (87 + d)%N.

(** ['{0:04x}'.format(n)] for [n < 0x10000]. *)
Definition hex4 (n : N) : str :=
  [hexdigit (N.modulo (N.div n 4096) 16); hexdigit (N.modulo (N.div n 256) 16);
   hexdigit (N.modulo (N.div n 16) 16); hexdigit (N.modulo n 16)].

Definition BACKSLASH : char := 92%N.
Definition QUOTE : char := 34%N.

Definition uescape (n : N) : str := BACKSLASH :: 117%N :: hex4 n.

(** [replace] of [py_encode_basestring_ascii]: the regular expression
    ESCAPE_ASCII matches backslash, quote and everything outside space..~ *)
Definition escape_char (c : char) : str :=
  if N.eqb c BACKSLASH then [BACKSLASH; BACKSLASH]
  else if N.eqb c QUOTE then [BACKSLASH; QUOTE]
  else if (N.leb 32 c && N.leb c 126)%bool then [c]
  else if N.eqb c 8 then [BACKSLASH; 98%N]
  else if N.eqb c 12 then [BACKSLASH; 102%N]
  else if N.eqb c 10 then [BACKSLASH; 110%N]
  else if N.eqb c 13 then [BACKSLASH; 114%N]
  else if N.eqb c 9 then [BACKSLASH; 116%N]
  else if N.ltb c 65536 then uescape c
  else
    let n := (c - 65536)%N in
    let s1 := N.lor 55296 (N.land (N.shiftr n 10) 1023) in
    let s2 := N.lor 56320 (N.land n 1023) in
    uescape s1 ++ uescape s2.

Definition encode_basestring_ascii (s : str) : str :=
  QUOTE :: flat_map escape_char s ++ [QUOTE].

Definition digit_char (d : N) : char := (48 + d)%N.

Fixpoint uint_chars (u : Decimal.uint) : str :=
  match u with
  | Decimal.Nil => []
  | Decimal.D0 u' => digit_char 0 :: uint_chars u'
  | Decimal.D1 u' => digit_char 1 :: uint_chars u'
  | Decimal.D2 u' => digit_char 2 :: uint_chars u'
  | Decimal.D3 u' => digit_char 3 :: uint_chars u'
  | Decimal.D4 u' => digit_char 4 :: uint_chars u'
  | Decimal.D5 u' => digit_char 5 :: uint_chars u'
  | Decimal.D6 u' => digit_char 6 :: uint_chars u'
  | Decimal.D7 u' => digit_char 7 :: uint_chars u'
  | Decimal.D8 u' => digit_char 8 :: uint_chars u'
  | Decimal.D9 u' => digit_char 9 :: uint_chars u'
  end.

(** [int.__repr__] *)
Definition repr_int (z : Z) : str :=
  match z with
  | Zneg p => 45%N :: uint_chars (N.to_uint (Npos p))
  | _ => uint_chars (N.to_uint (Z.to_N z))
  end.

Definition newline_indent (level : nat) : str :=
  10%N :: repeat 32%N (2 * level).

Fixpoint join (sep : str) (parts : list str) : str :=
  match parts with
  | [] => []
  | [p] => p
  | p :: ps => p ++ sep ++ join sep ps
  end.

(** The chunks of [_iterencode] at nesting depth [level], joined; the item
    separator is [","] followed by the newline and indent, the key separator
    [": "].  The recursion limit is applied by [json_dump]. *)
Fixpoint iterencode (level : nat) (v : value) : str :=
  match v with
  | VNone => py "null"
  | VBool true => py "true"
  | VBool false => py "false"
  | VInt z => repr_int z
  | VStr s => encode_basestring_ascii s
  | VList [] => py "[]"
  | VList l =>
      91%N :: newline_indent (S level)
        ++ join (44%N :: newline_indent (S level))
                (map (iterencode (S level)) l)
        ++ newline_indent level ++ [93%N]
  | VDict [] => py "{}"
  | VDict d =>
      123%N :: newline_indent (S level)
        ++ join (44%N :: newline_indent (S level))
                (map (fun kv => encode_basestring_ascii (fst kv) ++ py ": "
                                  ++ iterencode (S level) (snd kv)) d)
        ++ newline_indent level ++ [125%N]
  end.

Definition json_dumps (v : value) : str := iterencode 0 v.

(** [json.dump(v, f, indent=2)]: the text written to [f], for a value the
    generators can descend into. *)
Definition nests_within (v : value) : bool := Nat.leb (depth v) max_nesting.

Definition json_dump (v : value) : outcome str :=
  if nests_within v then Ret (json_dumps v) else Beyond.

(** *** json.decoder, strict *)

Definition is_ws (c : char) : bool :=
  N.eqb c 32 || N.eqb c 9 || N.eqb c 10 || N.eqb c 13.

(** The match of the regular expression WHITESPACE, dropped. *)
Fixpoint skip_ws (s : str) : str :=
  match s with
  | c :: r => if is_ws c then skip_ws r else s
  | [] => []
  end.

Definition is_digit (c : char) : bool := N.leb 48 c && N.leb c 57.

Definition hexval (c : char) : option N :=
  if is_digit c then Some (c - 48)%N
  else if (N.leb 97 c && N.leb c 102)%bool then Some (c - 87)%N
  else if (N.leb 65 c && N.leb c 70)%bool then Some (c - 55)%N
  else None.

Definition decode_uXXXX (h1 h2 h3 h4 : char) : option N :=
  match hexval h1, hexval h2, hexval h3, hexval h4 with
  | Some a, Some b, Some c, Some d => Some (a * 4096 + b * 256 + c * 16 + d)%N
  | _, _, _, _ => None
  end.

(** The table BACKSLASH of the decoder. *)
Definition unescape (e : char) : option char :=
  if N.eqb e QUOTE then Some QUOTE
  else if N.eqb e BACKSLASH then Some BACKSLASH
  else if N.eqb e 47 then Some 47%N
  else if N.eqb e 98 then Some 8%N
  else if N.eqb e 102 then Some 12%N
  else if N.eqb e 110 then Some 10%N
  else if N.eqb e 114 then Some 13%N
  else if N.eqb e 116 then Some 9%N
  else None.

Definition is_high_surrogate (u : N) : bool := N.leb 55296 u && N.leb u 56319.
Definition is_low_surrogate (u : N) : bool := N.leb 56320 u && N.leb u 57343.

Definition join_surrogates (u u2 : N) : N :=
  (65536 + N.lor (N.shiftl (u - 55296) 10) (u2 - 56320))%N.

Definition cons_char (c : char) (r : outcome (str * str)) : outcome (str * str) :=
  match r with
  | Ret (s, rest) => Ret (c :: s, rest)
  | other => other
  end.

(** [scanstring], entered after the opening quote: the string and the text
    after its closing quote. *)
Fixpoint scanstring (s : str) : outcome (str * str) :=
  match s with
  | [] => Raise JSONDecodeError
  | c :: r =>
      if N.eqb c QUOTE then Ret ([], r)
      else if N.eqb c BACKSLASH then
        match r with
        | [] => Raise JSONDecodeError
        | e :: r1 =>
            if N.eqb e 117 then
              match r1 with
              | h1 :: h2 :: h3 :: h4 :: r2 =>
                  match decode_uXXXX h1 h2 h3 h4 with
                  | None => Raise JSONDecodeError
                  | Some uni =>
                      match r2 with
                      | b :: u :: g1 :: g2 :: g3 :: g4 :: r3 =>
                          if is_high_surrogate uni && N.eqb b BACKSLASH
                             && N.eqb u 117
                          then
                            match decode_uXXXX g1 g2 g3 g4 with
                            | None => Raise JSONDecodeError
                            | Some uni2 =>
                                if is_low_surrogate uni2
                                then cons_char (join_surrogates uni uni2)
                                               (scanstring r3)
                                else cons_char uni (scanstring r2)
                            end
                          else cons_char uni (scanstring r2)
                      | _ => cons_char uni (scanstring r2)
                      end
                  end
              | _ => Raise JSONDecodeError
              end
            else
              match unescape e with
              | Some c' => cons_char c' (scanstring r1)
              | None => Raise JSONDecodeError
              end
        end
      else if N.ltb c 32 then Raise JSONDecodeError
      else cons_char c (scanstring r)
  end.

Definition push_digit (c : char) (u : Decimal.uint) : Decimal.uint :=
  match (c - 48)%N with
  | 0%N => Decimal.D0 u
  | 1%N => Decimal.D1 u
  | 2%N => Decimal.D2 u
  | 3%N => Decimal.D3 u
  | 4%N => Decimal.D4 u
  | 5%N => Decimal.D5 u
  | 6%N => Decimal.D6 u
  | 7%N => Decimal.D7 u
  | 8%N => Decimal.D8 u
  | _ => Decimal.D9 u
  end.

(** The longest run of digits. *)
Fixpoint read_digits (s : str) : Decimal.uint * str :=
  match s with
  | c :: r =>
      if is_digit c
      then let (u, rest) := read_digits r in (push_digit c u, rest)
      else (Decimal.Nil, s)
  | [] => (Decimal.Nil, [])
  end.

(** The integer part of NUMBER_RE, an optional minus then 0 or a run of
    digits that does not start with 0: sign, digits, rest. *)
Definition match_integer (s : str) : option (bool * Decimal.uint * str) :=
  let (neg, s1) :=
    match s with
    | c :: r => if N.eqb c 45 then (true, r) else (false, s)
    | [] => (false, s)
    end in
  match s1 with
  | c :: r =>
      if N.eqb c 48 then Some (neg, Decimal.D0 Decimal.Nil, r)
      else if is_digit c then
        let (u, rest) := read_digits s1 in Some (neg, u, rest)
      else None
  | [] => None
  end.

(** Does the fraction or the exponent of NUMBER_RE match here: a float
    token. *)
Definition float_tail (s : str) : bool :=
  match s with
  | c :: d :: r =>
      if N.eqb c 46 then is_digit d
      else if N.eqb c 101 || N.eqb c 69 then
        if N.eqb d 43 || N.eqb d 45
        then match r with d' :: _ => is_digit d' | [] => false end
        else is_digit d
      else false
  | _ => false
  end.

Fixpoint strip_prefix (p s : str) : option str :=
  match p, s with
  | [], _ => Some s
  | x :: p', y :: s' => if N.eqb x y then strip_prefix p' s' else None
  | _ :: _, [] => None
  end.

Definition scan_number (s : str) : outcome (value * str) :=
  match match_integer s with
  | Some (neg, u, rest) =>
      if float_tail rest then Beyond
      else
        let n := Z.of_N (N.of_uint u) in
        Ret (VInt (if neg then Z.opp n else n), rest)
  | None =>
      match strip_prefix (py "NaN") s, strip_prefix (py "Infinity") s,
            strip_prefix (py "-Infinity") s with
      | None, None, None => Raise JSONDecodeError
      | _, _, _ => Beyond
      end
  end.

(** [scan_once], [JSONArray] and [JSONObject].  [room] is the nesting the
    recursion limit still allows: entering a list or a dict takes one level.
    [fuel] makes the recursion structural; [json_loads] gives one more than
    twice the length of the text, which is never used up
    ([scan_once_enough_fuel] below).
    [JSONArray] is entered at an item, [JSONObject] after the opening quote of
    a key, each with the items read so far. *)
Fixpoint scan_once (fuel room : nat) (s : str) {struct fuel}
  : outcome (value * str) :=
  match fuel with
  | O => Beyond
  | S f =>
      match s with
      | [] => Raise JSONDecodeError
      | c :: r =>
          if N.eqb c QUOTE then
            match scanstring r with
            | Ret (x, rest) => Ret (VStr x, rest)
            | Raise e => Raise e
            | Beyond => Beyond
            end
          else if N.eqb c 123 then
            match room with
            | O => Beyond
            | S room' =>
                match skip_ws r with
                | c' :: r' =>
                    if N.eqb c' 125 then Ret (VDict [], r')
                    else if N.eqb c' QUOTE then JSONObject f room' r' []
                    else Raise JSONDecodeError
                | [] => Raise JSONDecodeError
                end
            end
          else if N.eqb c 91 then
            match room with
            | O => Beyond
            | S room' =>
                match skip_ws r with
                | c' :: r' =>
                    if N.eqb c' 93 then Ret (VList [], r')
                    else JSONArray f room' (c' :: r') []
                | [] => Raise JSONDecodeError
                end
            end
          else
            match strip_prefix (py "null") s, strip_prefix (py "true") s,
                  strip_prefix (py "false") s with
            | Some rest, _, _ => Ret (VNone, rest)
            | None, Some rest, _ => Ret (VBool true, rest)
            | None, None, Some rest => Ret (VBool false, rest)
            | None, None, None => scan_number s
            end
      end
  end

with JSONArray (fuel room : nat) (s : str) (acc : list value) {struct fuel}
  : outcome (value * str) :=
  match fuel with
  | O => Beyond
  | S f =>
      match scan_once f room s with
      | Ret (v, rest) =>
          match skip_ws rest with
          | c :: r =>
              if N.eqb c 93 then Ret (VList (rev (v :: acc)), r)
              else if N.eqb c 44 then JSONArray f room (skip_ws r) (v :: acc)
              else Raise JSONDecodeError
          | [] => Raise JSONDecodeError
          end
      | other => other
      end
  end

with JSONObject (fuel room : nat) (s : str) (acc : dict value) {struct fuel}
  : outcome (value * str) :=
  match fuel with
  | O => Beyond
  | S f =>
      match scanstring s with
      | Ret (key, rest) =>
          match skip_ws rest with
          | c :: r =>
              if N.eqb c 58 then
                match scan_once f room (skip_ws r) with
                | Ret (v, rest') =>
                    let acc' := dict_set key v acc in
                    match skip_ws rest' with
                    | c' :: r' =>
                        if N.eqb c' 125 then Ret (VDict acc', r')
                        else if N.eqb c' 44 then
                          match skip_ws r' with
                          | q :: r'' =>
                              if N.eqb q QUOTE then JSONObject f room r'' acc'
                              else Raise JSONDecodeError
                          | [] => Raise JSONDecodeError
                          end
                        else Raise JSONDecodeError
                    | [] => Raise JSONDecodeError
                    end
                | other => other
                end
              else Raise JSONDecodeError
          | [] => Raise JSONDecodeError
          end
      | Raise e => Raise e
      | Beyond => Beyond
      end
  end.

(** [JSONDecoder.decode]: one value between whitespace, nothing after it. *)
Definition json_loads (s : str) : outcome value :=
  match scan_once (S (2 * List.length s)) max_nesting (skip_ws s) with
  | Ret (v, rest) =>
      match skip_ws rest with
      | [] => Ret v
      | _ :: _ => Raise JSONDecodeError
      end
  | Raise e => Raise e
  | Beyond => Beyond
  end.

(* ================================================================== *)
(** ** UTF-8, the encoding of the data file *)

Definition is_cont (b : N) : bool := N.leb 128 b && N.leb b 191.

(** The range of the second byte after the lead byte [b0] of a three-byte
    and of a four-byte sequence: no overlong form, no surrogate, nothing
    above U+10FFFF. *)
Definition second3 (b0 b1 : N) : bool :=
  if N.eqb b0 224 then N.leb 160 b1 && N.leb b1 191
  else if N.eqb b0 237 then N.leb 128 b1 && N.leb b1 159
  else is_cont b1.

Definition second4 (b0 b1 : N) : bool :=
  if N.eqb b0 240 then N.leb 144 b1 && N.leb b1 191
  else if N.eqb b0 244 then N.leb 128 b1 && N.leb b1 143
  else is_cont b1.

Definition cons_opt {A} (x : A) (r : option (list A)) : option (list A) :=
  match r with Some l => Some (x :: l) | None => None end.

(** The strict decoder: [None] is UnicodeDecodeError. *)
Fixpoint decode_units (l : list N) : option str :=
  match l with
  | [] => Some []
  | b0 :: r =>
      if N.ltb b0 128 then cons_opt b0 (decode_units r)
      else if N.leb 194 b0 && N.leb b0 223 then
        match r with
        | b1 :: r1 =>
            if is_cont b1
            then cons_opt ((b0 - 192) * 64 + (b1 - 128))%N (decode_units r1)
            else None
        | _ => None
        end
      else if N.leb 224 b0 && N.leb b0 239 then
        match r with
        | b1 :: b2 :: r2 =>
            if second3 b0 b1 && is_cont b2
            then cons_opt ((b0 - 224) * 4096 + (b1 - 128) * 64 + (b2 - 128))%N
                          (decode_units r2)
            else None
        | _ => None
        end
      else if N.leb 240 b0 && N.leb b0 244 then
        match r with
        | b1 :: b2 :: b3 :: r3 =>
            if second4 b0 b1 && is_cont b2 && is_cont b3
            then cons_opt ((b0 - 240) * 262144 + (b1 - 128) * 4096
                           + (b2 - 128) * 64 + (b3 - 128))%N
                          (decode_units r3)
            else None
        | _ => None
        end
      else None
  end.

Definition utf8_decode (bs : list Byte.byte) : option str :=
  decode_units (map Byte.to_N bs).

(** The encoder: [None] is UnicodeEncodeError (a surrogate). *)
Definition utf8_units (c : char) : option (list N) :=
  if N.ltb c 128 then Some [c]
  else if N.ltb c 2048 then Some [192 + c / 64; 128 + c mod 64]%N
  else if N.ltb c 65536 then
    if N.leb 55296 c && N.leb c 57343 then None
    else Some [224 + c / 4096; 128 + (c / 64) mod 64; 128 + c mod 64]%N
  else if N.ltb c 1114112 then
    Some [240 + c / 262144; 128 + (c / 4096) mod 64;
          128 + (c / 64) mod 64; 128 + c mod 64]%N
  else None.

Fixpoint to_bytes (l : list N) : option (list Byte.byte) :=
  match l with
  | [] => Some []
  | n :: r =>
      match Byte.of_N n with
      | Some b => cons_opt b (to_bytes r)
      | None => None
      end
  end.

Fixpoint utf8_encode (s : str) : option (list Byte.byte) :=
  match s with
  | [] => Some []
  | c :: r =>
      match utf8_units c, utf8_encode r with
      | Some u, Some bs =>
          match to_bytes u with
          | Some b => Some (b ++ bs)
          | None => None
          end
      | _, _ => None
      end
  end.

(* ================================================================== *)
(** ** storage.py: class TaskStorage *)

(** What the storage object sees of the file system at [self.data_file]:
    the bytes of the file when it exists, whether it can be opened for
    reading and for writing, and the number of completed [save_tasks]. *)
Record TaskStorage := {
  data_file : option (list Byte.byte);
  readable : bool;
  writable : bool;
  writes : nat
}.

(** [load_tasks]: [json.load] on the file opened with [encoding='utf-8'];
    the [except] clause names JSONDecodeError and IOError (OSError). *)
Definition load_tasks (st : TaskStorage) : outcome value :=
  match data_file st with
  | None => Ret (VList [])
  | Some bs =>
      let body :=
        if readable st then
          match utf8_decode bs with
          | Some text => json_loads text
          | None => Raise UnicodeDecodeError
          end
        else Raise OSError in
      match body with
      | Raise JSONDecodeError => Ret (VList [])
      | Raise OSError => Ret (VList [])
      | other => other
      end
  end.

(** [save_tasks]: the file is opened with ['w'] and [json.dump] writes the
    whole document ([default=str] is for objects the encoder does not know;
    a [value] has none). *)
Definition save_tasks (tasks : value) (st : TaskStorage)
  : outcome unit * TaskStorage :=
  if writable st then
    match json_dump tasks with
    | Ret text =>
        match utf8_encode text with
        | Some bs =>
            (Ret tt, {| data_file := Some bs; readable := readable st;
                        writable := writable st; writes := S (writes st) |})
        | None => (Beyond, st)
        end
    | Raise e => (Raise e, st)
    | Beyond => (Beyond, st)
    end
  else (Raise OSError, st).

(* ================================================================== *)
(** ** Tasks *)

(** The dict that [add_task] builds, with its seven keys. *)
Record Task := {
  id : Z;
  title : str;
  description : str;
  priority : str;
  completed : bool;
  created_at : str;
  completed_at : option str
}.

Definition set_completion (c : bool) (at_ : option str) (t : Task) : Task :=
  {| id := id t; title := title t; description := description t;
     priority := priority t; completed := c; created_at := created_at t;
     completed_at := at_ |}.

Definition set_title (x : str) (t : Task) : Task :=
  {| id := id t; title := x; description := description t;
     priority := priority t; completed := completed t;
     created_at := created_at t; completed_at := completed_at t |}.

Definition set_description (x : str) (t : Task) : Task :=
  {| id := id t; title := title t; description := x;
     priority := priority t; completed := completed t;
     created_at := created_at t; completed_at := completed_at t |}.

Definition set_priority (x : str) (t : Task) : Task :=
  {| id := id t; title := title t; description := description t;
     priority := x; completed := completed t;
     created_at := created_at t; completed_at := completed_at t |}.

Definition opt_value (o : option str) : value :=
  match o with Some s => VStr s | None => VNone end.

(** A task as the JSON object it is, keys in the order of the dict display
    in [add_task]. *)
Definition task_value (t : Task) : value :=
  VDict [(py "id", VInt (id t)); (py "title", VStr (title t));
         (py "description", VStr (description t));
         (py "priority", VStr (priority t));
         (py "completed", VBool (completed t));
         (py "created_at", VStr (created_at t));
         (py "completed_at", opt_value (completed_at t))].

Definition tasks_value (ts : list Task) : value := VList (map task_value ts).

Definition value_opt (v : value) : option (option str) :=
  match v with
  | VNone => Some None
  | VStr s => Some (Some s)
  | _ => None
  end.

(** The task a JSON object is, when it has that shape. *)
Definition value_task (v : value) : option Task :=
  match v with
  | VDict [(k1, VInt i); (k2, VStr ti); (k3, VStr de); (k4, VStr pr);
           (k5, VBool co); (k6, VStr cr); (k7, ca)] =>
      if str_eqb k1 (py "id") && str_eqb k2 (py "title")
         && str_eqb k3 (py "description") && str_eqb k4 (py "priority")
         && str_eqb k5 (py "completed") && str_eqb k6 (py "created_at")
         && str_eqb k7 (py "completed_at")
      then
        match value_opt ca with
        | Some ca' =>
            Some {| id := i; title := ti; description := de; priority := pr;
                    completed := co; created_at := cr; completed_at := ca' |}
        | None => None
        end
      else None
  | _ => None
  end.

Fixpoint values_tasks (l : list value) : option (list Task) :=
  match l with
  | [] => Some []
  | v :: r =>
      match value_task v with
      | Some t => cons_opt t (values_tasks r)
      | None => None
      end
  end.

Definition value_tasks (v : value) : option (list Task) :=
  match v with
  | VList l => values_tasks l
  | _ => None
  end.

(** [max] of a non-empty sequence. *)
Definition py_max (x : Z) (xs : list Z) : Z := fold_left Z.max xs x.

(** [TaskStorage.get_next_id] *)
Definition get_next_id (tasks : list Task) : Z :=
  match tasks with
  | [] => 1%Z
  | t :: r => (py_max (id t) (map id r) + 1)%Z
  end.

(* ================================================================== *)
(** ** task_manager.py: class TaskManager *)

Record TaskManager := {
  storage : TaskStorage;
  _tasks : option (list Task)
}.

(** [TaskManager(storage)] *)
Definition new_manager (st : TaskStorage) : TaskManager :=
  {| storage := st; _tasks := None |}.

(** Methods: state passing with exceptions; the state at a [Raise] is the
    state the object is left in. *)
Definition M (A : Type) := TaskManager -> outcome A * TaskManager.

Definition ret {A} (a : A) : M A := fun m => (Ret a, m).

Definition bind {A B} (c : M A) (k : A -> M B) : M B :=
  fun m =>
    match c m with
    | (Ret a, m') => k a m'
    | (Raise e, m') => (Raise e, m')
    | (Beyond, m') => (Beyond, m')
    end.

Declare Scope method_scope.
Delimit Scope method_scope with method.
Notation "x <- c ;; k" := (bind c (fun x => k))
  (at level 61, c at next level, right associativity) : method_scope.
Notation "c ;;; k" := (bind c (fun _ => k))
  (at level 61, right associativity) : method_scope.
Open Scope method_scope.

Definition PRIORITIES : dict Z :=
  [(py "high", 3%Z); (py "medium", 2%Z); (py "low", 1%Z)].

Definition dict_get_default {V} (k : str) (d : dict V) (default : V) : V :=
  match dict_get k d with Some v => v | None => default end.

(** The property [tasks]: the first access loads. *)
Definition tasks : M (list Task) :=
  fun m =>
    match _tasks m with
    | Some ts => (Ret ts, m)
    | None =>
        match load_tasks (storage m) with
        | Ret v =>
            match value_tasks v with
            | Some ts => (Ret ts, {| storage := storage m; _tasks := Some ts |})
            | None => (Beyond, m)
            end
        | Raise e => (Raise e, m)
        | Beyond => (Beyond, m)
        end
    end.

(** The list object behind [self._tasks] is replaced or mutated. *)
Definition set_tasks (ts : list Task) : M unit :=
  fun m => (Ret tt, {| storage := storage m; _tasks := Some ts |}).

Definition cache_value (c : option (list Task)) : value :=
  match c with Some ts => tasks_value ts | None => VNone end.

Definition _save : M unit :=
  fun m =>
    let (r, st) := save_tasks (cache_value (_tasks m)) (storage m) in
    (r, {| storage := st; _tasks := _tasks m |}).

(** [now] is the reading of [datetime.now().isoformat()]. *)
Definition add_task (title' priority' description' now : str) : M Task :=
  let p := lower priority' in
  let p := if dict_mem p PRIORITIES then p else py "medium" in
  ts <- tasks ;;
  let task := {| id := get_next_id ts; title := title';
                 description := description'; priority := p;
                 completed := false; created_at := now;
                 completed_at := None |} in
  ts' <- tasks ;;
  set_tasks (ts' ++ [task]) ;;;
  _save ;;;
  ret task.

Definition get_task (task_id : Z) : M (option Task) :=
  ts <- tasks ;;
  ret (find (fun t => Z.eqb (id t) task_id) ts).

Definition tuple_leb (a b : Z * Z) : bool :=
  Z.ltb (fst a) (fst b) || (Z.eqb (fst a) (fst b) && Z.leb (snd a) (snd b)).

Fixpoint insert_by {A K} (key : A -> K) (leb : K -> K -> bool) (x : A)
  (l : list A) : list A :=
  match l with
  | [] => [x]
  | y :: r =>
      if leb (key x) (key y) then x :: l else y :: insert_by key leb x r
  end.

(** [list.sort(key=...)]: the stable sort, as insertion from the right. *)
Definition py_sort {A K} (key : A -> K) (leb : K -> K -> bool) (l : list A)
  : list A :=
  fold_right (insert_by key leb) [] l.

Definition sort_key (t : Task) : Z * Z :=
  (Z.opp (dict_get_default (priority t) PRIORITIES 2%Z), id t).

Definition list_tasks (status priority' : option str) : M (list Task) :=
  result <- tasks ;;
  let result :=
    match status with
    | Some s =>
        if str_eqb s (py "completed") then filter completed result
        else if str_eqb s (py "pending")
        then filter (fun t => negb (completed t)) result
        else result
    | None => result
    end in
  let result :=
    match priority' with
    | Some p =>
        if negb (str_eqb p []) && dict_mem (lower p) PRIORITIES
        then filter (fun t => str_eqb (priority t) (lower p)) result
        else result
    | None => result
    end in
  ret (py_sort sort_key tuple_leb result).

(** The task object [get_task] returned is the first one with that id in
    the list: mutating it mutates the list. *)
Fixpoint mutate (task_id : Z) (f : Task -> Task) (ts : list Task)
  : list Task :=
  match ts with
  | [] => []
  | t :: r =>
      if Z.eqb (id t) task_id then f t :: r else t :: mutate task_id f r
  end.

Definition mutate_task (task_id : Z) (f : Task -> Task) : M unit :=
  fun m =>
    (Ret tt, {| storage := storage m;
                _tasks := option_map (mutate task_id f) (_tasks m) |}).

Definition complete_task (task_id : Z) (now : str) : M (option Task) :=
  task <- get_task task_id ;;
  match task with
  | Some t =>
      mutate_task task_id (set_completion true (Some now)) ;;;
      _save ;;;
      ret (Some (set_completion true (Some now) t))
  | None => ret None
  end.

Definition uncomplete_task (task_id : Z) : M (option Task) :=
  task <- get_task task_id ;;
  match task with
  | Some t =>
      mutate_task task_id (set_completion false None) ;;;
      _save ;;;
      ret (Some (set_completion false None t))
  | None => ret None
  end.

(** [self.tasks.pop(i)] at the first index whose task has the id. *)
Fixpoint pop_first (task_id : Z) (ts : list Task) : option (list Task) :=
  match ts with
  | [] => None
  | t :: r =>
      if Z.eqb (id t) task_id then Some r
      else cons_opt t (pop_first task_id r)
  end.

Definition delete_task (task_id : Z) : M bool :=
  ts <- tasks ;;
  match pop_first task_id ts with
  | Some ts' => set_tasks ts' ;;; _save ;;; ret true
  | None => ret false
  end.

Definition apply_update (title' description' priority' : option str)
  (t : Task) : Task :=
  let t := match title' with Some x => set_title x t | None => t end in
  let t :=
    match description' with Some x => set_description x t | None => t end in
  match priority' with
  | Some p =>
      if dict_mem (lower p) PRIORITIES then set_priority (lower p) t else t
  | None => t
  end.

Definition update_task (task_id : Z) (title' description' priority' : option str)
  : M (option Task) :=
  task <- get_task task_id ;;
  match task with
  | None => ret None
  | Some t =>
      mutate_task task_id (apply_update title' description' priority') ;;;
      _save ;;;
      ret (Some (apply_update title' description' priority' t))
  end.

(** [sum(1 for t in ... if ...)] *)
Definition py_sum (l : list Z) : Z := fold_left Z.add l 0%Z.

Definition by_priority_step (by_priority : dict Z) (task : Task) : dict Z :=
  let p := priority task in
  if dict_mem p by_priority && negb (completed task)
  then dict_set p (dict_get_default p by_priority 0 + 1)%Z by_priority
  else by_priority.

Definition get_stats : M (dict Z) :=
  ts <- tasks ;;
  let total := Z.of_nat (List.length ts) in
  ts1 <- tasks ;;
  let completed' := py_sum (map (fun _ => 1%Z) (filter completed ts1)) in
  let pending := (total - completed')%Z in
  ts2 <- tasks ;;
  let by_priority :=
    fold_left by_priority_step ts2
      [(py "high", 0%Z); (py "medium", 0%Z); (py "low", 0%Z)] in
  ret [(py "total", total); (py "completed", completed');
       (py "pending", pending);
       (py "high_priority", dict_get_default (py "high") by_priority 0%Z);
       (py "medium_priority", dict_get_default (py "medium") by_priority 0%Z);
       (py "low_priority", dict_get_default (py "low") by_priority 0%Z)].

Definition clear_completed : M Z :=
  ts <- tasks ;;
  let original_count := Z.of_nat (List.length ts) in
  ts1 <- tasks ;;
  set_tasks (filter (fun t => negb (completed t)) ts1) ;;;
  ts2 <- tasks ;;
  let removed := (original_count - Z.of_nat (List.length ts2))%Z in
  (if Z.ltb 0 removed then _save else ret tt) ;;;
  ret removed.

(** *** Calls and runs *)

Inductive call :=
| AddTask (title' priority' description' now : str)
| GetTask (task_id : Z)
| ListTasks (status priority' : option str)
| CompleteTask (task_id : Z) (now : str)
| UncompleteTask (task_id : Z)
| DeleteTask (task_id : Z)
| UpdateTask (task_id : Z) (title' description' priority' : option str)
| GetStats
| ClearCompleted.

Inductive retval :=
| RTask (t : Task)
| ROpt (t : option Task)
| RList (l : list Task)
| RBool (b : bool)
| RStats (d : dict Z)
| RInt (z : Z).

Definition invoke (c : call) : M retval :=
  match c with
  | AddTask t p d now => x <- add_task t p d now ;; ret (RTask x)
  | GetTask i => x <- get_task i ;; ret (ROpt x)
  | ListTasks s p => x <- list_tasks s p ;; ret (RList x)
  | CompleteTask i now => x <- complete_task i now ;; ret (ROpt x)
  | UncompleteTask i => x <- uncomplete_task i ;; ret (ROpt x)
  | DeleteTask i => x <- delete_task i ;; ret (RBool x)
  | UpdateTask i t d p => x <- update_task i t d p ;; ret (ROpt x)
  | GetStats => x <- get_stats ;; ret (RStats x)
  | ClearCompleted => x <- clear_completed ;; ret (RInt x)
  end.

(** A script of calls on one manager; an exception ends it. *)
Fixpoint run (cs : list call) : M (list retval) :=
  match cs with
  | [] => ret []
  | c :: cs' => r <- invoke c ;; rs <- run cs' ;; ret (r :: rs)
  end.

(** The ids [add_task] handed out, in order. *)
Fixpoint assigned_ids (rs : list retval) : list Z :=
  match rs with
  | [] => []
  | RTask t :: rs' => id t :: assigned_ids rs'
  | _ :: rs' => assigned_ids rs'
  end.

(** The storage of a manager that starts from an empty collection: no file. *)
Definition empty_storage (r w : bool) : TaskStorage :=
  {| data_file := None; readable := r; writable := w; writes := 0 |}.

(** The states of a manager over an initially empty storage, whatever the
    calls and whether or not they raised. *)
Inductive reachable : TaskManager -> Prop :=
| reach_new : forall r w, reachable (new_manager (empty_storage r w))
| reach_call : forall m c, reachable m -> reachable (snd (invoke c m)).

(** The collection a manager holds. *)
Definition collection (m : TaskManager) : list Task :=
  match _tasks m with Some ts => ts | None => [] end.

(** What a call does to the collection. *)
Definition effect (c : call) (ts : list Task) : list Task :=
  match c with
  | AddTask t p d now =>
      let p' := if dict_mem (lower p) PRIORITIES then lower p else py "medium" in
      ts ++ [{| id := get_next_id ts; title := t; description := d;
                priority := p'; completed := false; created_at := now;
                completed_at := None |}]
  | CompleteTask i now => mutate i (set_completion true (Some now)) ts
  | UncompleteTask i => mutate i (set_completion false None) ts
  | DeleteTask i =>
      match pop_first i ts with Some ts' => ts' | None => ts end
  | UpdateTask i t d p => mutate i (apply_update t d p) ts
  | ClearCompleted => filter (fun t => negb (completed t)) ts
  | GetTask _ | ListTasks _ _ | GetStats => ts
  end.

(** A manager that has not loaded yet sits on a storage without a file. *)
Definition fresh_or_loaded (m : TaskManager) : Prop :=
  _tasks m = None -> data_file (storage m) = None.

Definition removes (c : call) : bool :=
  match c with
  | DeleteTask _ | ClearCompleted => true
  | _ => false
  end.

(** The data-model conditions on a task. *)
Definition consistent (t : Task) : Prop :=
  completed t = true <-> completed_at t <> None.

Definition valid_priority (t : Task) : Prop :=
  priority t = py "high" \/ priority t = py "medium" \/ priority t = py "low".

(** ASCII text and its bytes. *)
Definition is_ascii (s : str) : bool := forallb (fun c => N.ltb c 128) s.

Definition byte_of (c : char) : Byte.byte :=
  match Byte.of_N c with Some b => b | None => Byte.x00 end.

(** The storage after [save_tasks] has written the document of [v]. *)
Definition written (v : value) (st : TaskStorage) : TaskStorage :=
  {| data_file := Some (map byte_of (json_dumps v)); readable := readable st;
     writable := writable st; writes := S (writes st) |}.

(** *** Well-formed documents *)

(** A Unicode scalar value: a code point that is not a surrogate. *)
Definition scalar (c : char) : bool :=
  N.ltb c 55296 || (N.ltb 57343 c && N.ltb c 1114112).

Definition text_ok (s : str) : bool := forallb scalar s.

Fixpoint distinct (ks : list str) : bool :=
  match ks with
  | [] => true
  | k :: r => negb (existsb (str_eqb k) r) && distinct r
  end.

(** Strings are text and the keys of a dict are pairwise different. *)
Fixpoint well_formed (v : value) : bool :=
  match v with
  | VStr s => text_ok s
  | VList l => forallb well_formed l
  | VDict d =>
      distinct (map fst d)
      && forallb (fun kv => text_ok (fst kv) && well_formed (snd kv)) d
  | _ => true
  end.

(** Integers of at most 4300 decimal digits: what every CPython converts
    to and from text ([sys.set_int_max_str_digits], from 3.11 on, has this
    default). *)
Fixpoint ints_within (v : value) : bool :=
  match v with
  | VInt z => Nat.leb (List.length (uint_chars (N.to_uint (Z.abs_N z)))) 4300
  | VList l => forallb ints_within l
  | VDict d => forallb (fun kv => ints_within (snd kv)) d
  | _ => true
  end.

(** The longest run of decimal digits in a text, and a storage whose file
    holds no run of more than 4300: no integer token beyond that limit. *)
Fixpoint digit_runs (run longest : nat) (s : str) : nat :=
  match s with
  | [] => Nat.max run longest
  | c :: r =>
      if is_digit c then digit_runs (S run) longest r
      else digit_runs 0 (Nat.max run longest) r
  end.

Definition short_numbers (st : TaskStorage) : bool :=
  match data_file st with
  | Some bs =>
      match utf8_decode bs with
      | Some text => Nat.leb (digit_runs 0 0 text) 4300
      | None => true
      end
  | None => true
  end.

Definition task_ok (t : Task) : bool :=
  text_ok (title t) && text_ok (description t) && text_ok (priority t)
  && text_ok (created_at t)
  && match completed_at t with Some s => text_ok s | None => true end.

(** The recursion a value asks of the decoder. *)
Fixpoint fuel_of (v : value) : nat :=
  match v with
  | VList l => S (list_sum (map (fun x => S (fuel_of x)) l))
  | VDict d => S (list_sum (map (fun kv => S (fuel_of (snd kv))) d))
  | _ => 1
  end.

(** What follows a value in a document the encoder wrote: a comma, a
    newline, or the end. *)
Definition delimited (rest : str) : Prop :=
  match rest with
  | [] => True
  | c :: _ => c = 44%N \/ c = 10%N
  end.

Definition no_digit (rest : str) : Prop :=
  match rest with [] => True | c :: _ => is_digit c = false end.

(** The first character of an encoded value starts a JSON token. *)
Definition token_start (s : str) : Prop :=
  match s with
  | c :: _ => is_ws c = false /\ c <> 93%N /\ c <> 125%N
  | [] => False
  end.

Definition decodes (v : value) : Prop :=
  forall level fuel room rest,
    fuel_of v <= fuel -> depth v <= room -> delimited rest ->
    scan_once fuel room (iterencode level v ++ rest) = Ret (v, rest).

Definition object_item (level : nat) (kv : str * value) : str :=
  encode_basestring_ascii (fst kv) ++ py ": " ++ iterencode (S level) (snd kv).

(** *** listTasks in the words of the specification *)

(** high=3, medium=2, low=1; the sort key takes 2 for anything else. *)
Definition rank (t : Task) : Z := dict_get_default (priority t) PRIORITIES 2%Z.

Definition status_keeps (status : option str) (t : Task) : bool :=
  match status with
  | Some s =>
      if str_eqb s (py "completed") then completed t
      else if str_eqb s (py "pending") then negb (completed t)
      else true
  | None => true
  end.

Definition priority_keeps (p : option str) (t : Task) : bool :=
  match p with
  | Some p =>
      if dict_mem (lower p) PRIORITIES then str_eqb (priority t) (lower p)
      else true
  | None => true
  end.

(** Priority descending, then id ascending. *)
Definition listed_before (a b : Task) : Prop :=
  (rank b < rank a)%Z \/ (rank a = rank b /\ (id a <= id b)%Z).

Definition mk_task (i : Z) (p : string) (c : bool) : Task :=
  {| id := i; title := py "t"; description := []; priority := py p;
     completed := c; created_at := py "2024-01-01T00:00:00";
     completed_at := if c then Some (py "2024-01-02T00:00:00") else None |}.

Definition loaded (st : TaskStorage) (ts : list Task) : TaskManager :=
  {| storage := st; _tasks := Some ts |}.

(** *** getStats in the words of the specification *)

Definition count (f : Task -> bool) (ts : list Task) : Z :=
  Z.of_nat (List.length (filter f ts)).

(** Not completed and of priority [p]. *)
Definition pending_with (p : string) (t : Task) : bool :=
  negb (completed t) && str_eqb (priority t) (py p).

Definition stats_of (ts : list Task) : dict Z :=
  [(py "total", Z.of_nat (List.length ts));
   (py "completed", count completed ts);
   (py "pending", (Z.of_nat (List.length ts) - count completed ts)%Z);
   (py "high_priority", count (pending_with "high") ts);
   (py "medium_priority", count (pending_with "medium") ts);
   (py "low_priority", count (pending_with "low") ts)].

Definition pending (t : Task) : bool := negb (completed t).

(** An outcome that raises nothing but JSONDecodeError. *)
Definition only_json {A} (o : outcome A) : Prop :=
  match o with
  | Raise e => e = JSONDecodeError
  | _ => True
  end.

(* ================================================================== *)
(** ** main.py: one process per command *)

(** [get_manager]: a new manager on the storage at the default path. *)
Definition get_manager (st : TaskStorage) : TaskManager := new_manager st.

(** A command of the command line: a new manager, one call, and the
    process ends; what stays is the storage. *)
Definition command (c : call) (st : TaskStorage)
  : outcome retval * TaskStorage :=
  let (o, m) := invoke c (get_manager st) in (o, storage m).

(** Commands one after the other, until one raises. *)
Fixpoint commands (cs : list call) (st : TaskStorage)
  : outcome (list retval) * TaskStorage :=
  match cs with
  | [] => (Ret [], st)
  | c :: cs' =>
      match command c st with
      | (Ret r, st1) =>
          match commands cs' st1 with
          | (Ret rs, st2) => (Ret (r :: rs), st2)
          | (Raise e, st2) => (Raise e, st2)
          | (Beyond, st2) => (Beyond, st2)
          end
      | (Raise e, st1) => (Raise e, st1)
      | (Beyond, st1) => (Beyond, st1)
      end
  end.

(** [priority_color] of main.py. *)
Definition priority_color (p : str) : str :=
  dict_get_default p
    [(py "high", py "red"); (py "medium", py "yellow"); (py "low", py "green")]
    (py "white").

(** [list] of main.py: the status all is no filter. *)
Definition list_command (status : str) (priority' : option str)
  (st : TaskStorage) : outcome (list Task) * TaskStorage :=
  let status_filter :=
    if negb (str_eqb status (py "all")) then Some status else None in
  let (o, m) := list_tasks status_filter priority' (get_manager st) in
  (o, storage m).

(** *** Vocabulary of the further properties *)

(** The string arguments of a call are text. *)
Definition opt_text_ok (o : option str) : bool :=
  match o with Some s => text_ok s | None => true end.

Definition call_ok (c : call) : bool :=
  match c with
  | AddTask t p d now => text_ok t && text_ok d && text_ok now
  | CompleteTask _ now => text_ok now
  | UpdateTask _ t d _ => opt_text_ok t && opt_text_ok d
  | _ => true
  end.

Definition has_id (i : Z) (ts : list Task) : bool :=
  existsb (fun t => Z.eqb (id t) i) ts.

(** Does the call reach [_save] on this collection. *)
Definition saves (c : call) (ts : list Task) : bool :=
  match c with
  | AddTask _ _ _ _ => true
  | CompleteTask i _ | UncompleteTask i | DeleteTask i
  | UpdateTask i _ _ _ => has_id i ts
  | ClearCompleted => existsb completed ts
  | GetTask _ | ListTasks _ _ | GetStats => false
  end.

(** The bytes [save_tasks] writes for a collection. *)
Definition document (ts : list Task) : list Byte.byte :=
  map byte_of (json_dumps (tasks_value ts)).

(** A new manager on the storage loads this collection. *)
Definition reloads (st : TaskStorage) (ts : list Task) : Prop :=
  tasks (new_manager st) = (Ret ts, loaded st ts).

Definition is_add (c : call) : bool :=
  match c with AddTask _ _ _ _ => true | _ => false end.

(** [k; k+1; ...], [n] of them. *)
Fixpoint ids_from (k : Z) (n : nat) : list Z :=
  match n with
  | O => []
  | S n' => k :: ids_from (k + 1) n'
  end.

(** The file is absent and the collection empty, or the file is the
    document of the collection. *)
Definition holds (st : TaskStorage) (ts : list Task) : Prop :=
  (data_file st = None /\ ts = []) \/ data_file st = Some (document ts).

(* ================================================================== *)
(** * Proofs *)

(** ** Strings and dicts *)

Lemma str_eqb_eq (a b : str) : str_eqb a b = true <-> a = b.
Proof.
  revert b; induction a as [|x a IH]; intros [|y b]; simpl;
    try (split; [discriminate | discriminate]); try tauto.
  rewrite andb_true_iff, N.eqb_eq, IH.
  split; [intros [-> ->]; reflexivity | intros E; inversion E; auto].
Qed.

Lemma str_eqb_refl (a : str) : str_eqb a a = true.
Proof. apply str_eqb_eq; reflexivity. Qed.

Lemma str_eqb_neq (a b : str) : str_eqb a b = false <-> a <> b.
Proof.
  rewrite <- str_eqb_eq. destruct (str_eqb a b); split; congruence.
Qed.

(** Membership in PRIORITIES is being one of the three keys. *)
Lemma PRIORITIES_mem (p : str) :
  dict_mem p PRIORITIES = true <->
  p = py "high" \/ p = py "medium" \/ p = py "low".
Proof.
  unfold dict_mem, PRIORITIES; simpl dict_get.
  destruct (str_eqb p (py "high")) eqn:E1;
    [apply str_eqb_eq in E1; tauto | apply str_eqb_neq in E1].
  destruct (str_eqb p (py "medium")) eqn:E2;
    [apply str_eqb_eq in E2; tauto | apply str_eqb_neq in E2].
  destruct (str_eqb p (py "low")) eqn:E3;
    [apply str_eqb_eq in E3; tauto | apply str_eqb_neq in E3].
  split; [discriminate | tauto].
Qed.

(** ** The manager's monad on a loaded or fresh manager *)

Lemma tasks_collection (m : TaskManager) :
  fresh_or_loaded m ->
  tasks m = (Ret (collection m),
             {| storage := storage m; _tasks := Some (collection m) |}).
Proof.
  unfold fresh_or_loaded, tasks, collection, load_tasks.
  destruct m as [st [ts|]]; simpl; intros H; [reflexivity|].
  rewrite H by reflexivity. reflexivity.
Qed.

Lemma save_shape (m : TaskManager) :
  exists o st, _save m = (o, {| storage := st; _tasks := _tasks m |}).
Proof.
  unfold _save. destruct (save_tasks _ _) as [o st]. eauto.
Qed.

Ltac with_save :=
  match goal with
  | |- context [_save ?m] =>
      let o := fresh "o" in
      let st := fresh "st" in
      let E := fresh "E" in
      destruct (save_shape m) as (o & st & E); rewrite E; destruct o; cbn
  end.

Ltac methods :=
  unfold invoke, add_task, list_tasks, complete_task, uncomplete_task,
    delete_task, update_task, get_stats, clear_completed, get_task,
    mutate_task, set_tasks, bind, ret.

Lemma find_mutate (i : Z) (f : Task -> Task) (ts : list Task) :
  find (fun t => Z.eqb (id t) i) ts = None -> mutate i f ts = ts.
Proof.
  induction ts as [|t r IH]; simpl; [reflexivity|].
  destruct (Z.eqb (id t) i); [discriminate|].
  intros H; rewrite IH by assumption. reflexivity.
Qed.

Lemma find_pop_first (i : Z) (ts : list Task) :
  find (fun t => Z.eqb (id t) i) ts = None <-> pop_first i ts = None.
Proof.
  induction ts as [|t r IH]; simpl; [tauto|].
  destruct (Z.eqb (id t) i); [split; discriminate|].
  rewrite IH. destruct (pop_first i r); simpl; split; congruence.
Qed.

(** Every call acts on the collection as [effect] says, and leaves the
    manager loaded, whether it returns or raises. *)
Lemma invoke_effect (c : call) (m : TaskManager) :
  fresh_or_loaded m ->
  _tasks (snd (invoke c m)) = Some (effect c (collection m)).
Proof.
  intros F. pose proof (tasks_collection F) as T.
  destruct c; methods; rewrite T; cbn.
  - with_save; reflexivity.
  - reflexivity.
  - reflexivity.
  - destruct (find _ _) eqn:Ef; cbn.
    + with_save; reflexivity.
    + rewrite find_mutate by assumption. reflexivity.
  - destruct (find _ _) eqn:Ef; cbn.
    + with_save; reflexivity.
    + rewrite find_mutate by assumption. reflexivity.
  - destruct (pop_first _ _) eqn:Ep; cbn; [with_save|]; reflexivity.
  - destruct (find _ _) eqn:Ef; cbn.
    + with_save; reflexivity.
    + rewrite find_mutate by assumption. reflexivity.
  - reflexivity.
  - destruct (Z.ltb _ _); cbn; [with_save|]; reflexivity.
Qed.

Lemma reachable_fresh_or_loaded (m : TaskManager) :
  reachable m -> fresh_or_loaded m.
Proof.
  induction 1 as [r w | m c R IH]; [intros _; reflexivity|].
  unfold fresh_or_loaded. rewrite invoke_effect by exact IH. discriminate.
Qed.

(** An invariant of the collection that every call's effect keeps holds in
    every reachable state. *)
Lemma reachable_invariant (P : list Task -> Prop) :
  P [] ->
  (forall c ts, P ts -> P (effect c ts)) ->
  forall m, reachable m -> P (collection m).
Proof.
  intros P0 PS m R; induction R as [r w | m c R IH]; [exact P0|].
  unfold collection at 1.
  rewrite invoke_effect by (apply reachable_fresh_or_loaded; exact R).
  apply PS; exact IH.
Qed.

(** ** Lists of tasks *)

Lemma Forall_mutate (P : Task -> Prop) (i : Z) (f : Task -> Task) ts :
  (forall t, P t -> P (f t)) -> Forall P ts -> Forall P (mutate i f ts).
Proof.
  intros Hf; induction 1 as [|t r Ht Hr IH]; simpl; [constructor|].
  destruct (Z.eqb (id t) i); constructor; auto.
Qed.

Lemma pop_first_split (i : Z) ts ts' :
  pop_first i ts = Some ts' ->
  exists l1 t l2, ts = l1 ++ t :: l2 /\ ts' = l1 ++ l2 /\ id t = i
                  /\ find (fun x => Z.eqb (id x) i) l1 = None.
Proof.
  revert ts'; induction ts as [|t r IH]; simpl; intros ts'; [discriminate|].
  destruct (Z.eqb (id t) i) eqn:E.
  - intros [= <-]. exists [], t, r. apply Z.eqb_eq in E. auto.
  - destruct (pop_first i r) as [r'|]; simpl; [|discriminate].
    intros [= <-]. destruct (IH r' eq_refl) as (l1 & x & l2 & -> & -> & Hx & Hf).
    exists (t :: l1), x, l2. simpl. rewrite E. auto.
Qed.

Lemma Forall_pop_first (P : Task -> Prop) (i : Z) ts ts' :
  pop_first i ts = Some ts' -> Forall P ts -> Forall P ts'.
Proof.
  intros H F. destruct (pop_first_split _ _ H) as (l1 & t & l2 & -> & -> & _).
  apply Forall_app in F. destruct F as [F1 F2]. inversion F2; subst.
  apply Forall_app; auto.
Qed.

Lemma Forall_filter (P : Task -> Prop) (p : Task -> bool) ts :
  Forall P ts -> Forall P (filter p ts).
Proof.
  induction 1 as [|t r Ht Hr IH]; simpl; [constructor|].
  destruct (p t); [constructor|]; auto.
Qed.

(** A property of single tasks that the new task has and the mutations keep
    is kept by every call. *)
Lemma effect_Forall (P : Task -> Prop) :
  (forall i t d p now,
      P {| id := i; title := t; description := d;
           priority := if dict_mem (lower p) PRIORITIES
                       then lower p else py "medium";
           completed := false; created_at := now; completed_at := None |}) ->
  (forall now t, P t -> P (set_completion true (Some now) t)) ->
  (forall t, P t -> P (set_completion false None t)) ->
  (forall a b c t, P t -> P (apply_update a b c t)) ->
  forall c ts, Forall P ts -> Forall P (effect c ts).
Proof.
  intros Hadd Hc Hu Hup c ts F; destruct c; simpl; auto.
  - apply Forall_app; split; [exact F|]. constructor; [apply Hadd|constructor].
  - apply Forall_mutate; auto.
  - apply Forall_mutate; auto.
  - destruct (pop_first task_id ts) eqn:E; [|exact F].
    eapply Forall_pop_first; eauto.
  - apply Forall_mutate; auto.
  - apply Forall_filter; exact F.
Qed.

Lemma apply_update_fixed (a b c : option str) (t : Task) :
  id (apply_update a b c t) = id t
  /\ completed (apply_update a b c t) = completed t
  /\ completed_at (apply_update a b c t) = completed_at t
  /\ created_at (apply_update a b c t) = created_at t.
Proof.
  unfold apply_update.
  destruct a, b, c; simpl; try destruct (dict_mem _ _); simpl; auto.
Qed.

Lemma effect_consistent (c : call) ts :
  Forall consistent ts -> Forall consistent (effect c ts).
Proof.
  apply effect_Forall; unfold consistent; simpl.
  - intros i t d p now; split; [discriminate | intros H; contradiction H; reflexivity].
  - intros now t _; split; [discriminate | reflexivity].
  - intros t _; split; [discriminate | intros H; contradiction H; reflexivity].
  - intros a b c' t H.
    destruct (apply_update_fixed a b c' t) as (_ & -> & -> & _). exact H.
Qed.

Lemma apply_update_valid (a b c : option str) (t : Task) :
  valid_priority t -> valid_priority (apply_update a b c t).
Proof.
  unfold apply_update, valid_priority.
  destruct a, b, c; simpl; try destruct (dict_mem _ _) eqn:E; simpl; auto;
    intros _; apply PRIORITIES_mem; exact E.
Qed.

Lemma effect_valid_priority (c : call) ts :
  Forall valid_priority ts -> Forall valid_priority (effect c ts).
Proof.
  apply effect_Forall.
  - intros; unfold valid_priority; simpl.
    destruct (dict_mem _ _) eqn:E; [apply PRIORITIES_mem; exact E|auto].
  - auto.
  - auto.
  - intros; apply apply_update_valid; assumption.
Qed.

(** ** Identifiers *)

Lemma fold_max_ge (xs : list Z) (x : Z) :
  (x <= fold_left Z.max xs x)%Z
  /\ Forall (fun y => (y <= fold_left Z.max xs x)%Z) xs.
Proof.
  revert x; induction xs as [|y xs IH]; intros x; simpl.
  - split; [lia | constructor].
  - destruct (IH (Z.max x y)) as [H1 H2]. split; [lia|].
    constructor; [lia | exact H2].
Qed.

Lemma get_next_id_gt (ts : list Task) :
  Forall (fun t => (id t < get_next_id ts)%Z) ts.
Proof.
  destruct ts as [|t r]; [constructor|]. unfold get_next_id, py_max.
  destruct (fold_max_ge (map id r) (id t)) as [H1 H2].
  constructor; [lia|].
  rewrite Forall_map in H2. eapply Forall_impl; [|exact H2].
  simpl; intros; lia.
Qed.

Lemma get_next_id_ids (ts ts' : list Task) :
  map id ts = map id ts' -> get_next_id ts = get_next_id ts'.
Proof.
  destruct ts, ts'; simpl; try discriminate; [reflexivity|].
  intros [= -> ->]. reflexivity.
Qed.

Lemma get_next_id_snoc (ts : list Task) (t : Task) :
  id t = get_next_id ts -> get_next_id (ts ++ [t]) = (id t + 1)%Z.
Proof.
  intros E. destruct ts as [|x r]; simpl; [reflexivity|].
  unfold py_max. rewrite map_app, fold_left_app. simpl.
  simpl in E. unfold py_max in E. rewrite E. lia.
Qed.

Lemma map_id_mutate (i : Z) (f : Task -> Task) (ts : list Task) :
  (forall t, id (f t) = id t) -> map id (mutate i f ts) = map id ts.
Proof.
  intros Hf; induction ts as [|t r IH]; simpl; [reflexivity|].
  destruct (Z.eqb (id t) i); simpl; [rewrite Hf | rewrite IH]; reflexivity.
Qed.

Lemma In_map_filter {B} (g : Task -> B) (p : Task -> bool) ts y :
  In y (map g (filter p ts)) -> In y (map g ts).
Proof.
  induction ts as [|t r IH]; simpl; [tauto|].
  destruct (p t); simpl; tauto.
Qed.

Lemma NoDup_map_filter {B} (g : Task -> B) (p : Task -> bool) ts :
  NoDup (map g ts) -> NoDup (map g (filter p ts)).
Proof.
  induction ts as [|t r IH]; simpl; [auto|].
  intros N; inversion N; subst.
  destruct (p t); simpl; [constructor|]; auto.
  intros H; apply In_map_filter in H. contradiction.
Qed.

(** The ids in the collection stay pairwise distinct. *)
Lemma effect_NoDup (c : call) (ts : list Task) :
  NoDup (map id ts) -> NoDup (map id (effect c ts)).
Proof.
  intros N; destruct c; simpl; auto.
  - rewrite map_app; simpl.
    eapply Permutation_NoDup; [apply Permutation_cons_append|].
    constructor; [|exact N].
    intros H. apply in_map_iff in H. destruct H as (t & E & I).
    pose proof (get_next_id_gt ts) as G. rewrite Forall_forall in G.
    specialize (G t I). lia.
  - rewrite map_id_mutate; auto.
  - rewrite map_id_mutate; auto.
  - destruct (pop_first task_id ts) eqn:E; [|exact N].
    destruct (pop_first_split _ _ E) as (l1 & t & l2 & -> & -> & _).
    rewrite map_app in *. simpl in N. eapply NoDup_remove_1; exact N.
  - rewrite map_id_mutate; auto.
    intros t; apply apply_update_fixed.
  - apply NoDup_map_filter; exact N.
Qed.

(** A call that removes nothing never lowers the next id, and [add_task]
    raises it by one. *)
Lemma effect_next_id (c : call) (ts : list Task) :
  removes c = false ->
  get_next_id (effect c ts)
  = match c with
    | AddTask _ _ _ _ => (get_next_id ts + 1)%Z
    | _ => get_next_id ts
    end.
Proof.
  destruct c; simpl; intros R; try discriminate; try reflexivity.
  - rewrite get_next_id_snoc; reflexivity.
  - apply get_next_id_ids, map_id_mutate; auto.
  - apply get_next_id_ids, map_id_mutate; auto.
  - apply get_next_id_ids, map_id_mutate. intros t; apply apply_update_fixed.
Qed.

(** What a call returns, when it returns: [add_task] the task with the next
    id, the other calls no new task. *)
Lemma invoke_assigned (c : call) (m m' : TaskManager) (r : retval) :
  fresh_or_loaded m ->
  invoke c m = (Ret r, m') ->
  assigned_ids [r]
  = match c with
    | AddTask _ _ _ _ => [get_next_id (collection m)]
    | _ => []
    end.
Proof.
  intros F. pose proof (tasks_collection F) as T.
  destruct c; methods; rewrite T; cbn.
  - with_save; intros [= <- _]; reflexivity.
  - intros [= <- _]; reflexivity.
  - intros [= <- _]; reflexivity.
  - destruct (find _ _); cbn; [with_save|]; intros [= <- _]; reflexivity.
  - destruct (find _ _); cbn; [with_save|]; intros [= <- _]; reflexivity.
  - destruct (pop_first _ _); cbn; [with_save|]; intros [= <- _]; reflexivity.
  - destruct (find _ _); cbn; [with_save|]; intros [= <- _]; reflexivity.
  - intros [= <- _]; reflexivity.
  - destruct (Z.ltb _ _); cbn; [with_save|]; intros [= <- _]; reflexivity.
Qed.

Lemma run_cons (c : call) (cs : list call) (m m' : TaskManager) rs :
  run (c :: cs) m = (Ret rs, m') ->
  exists r rs' m1,
    invoke c m = (Ret r, m1) /\ run cs m1 = (Ret rs', m') /\ rs = r :: rs'.
Proof.
  simpl; unfold bind, ret.
  destruct (invoke c m) as [[r| |] m1]; try discriminate.
  destruct (run cs m1) as [[rs'| |] m2] eqn:E; try discriminate.
  intros [= <- <-]. exists r, rs', m1. auto.
Qed.

Lemma assigned_ids_cons (r : retval) (rs : list retval) :
  assigned_ids (r :: rs) = assigned_ids [r] ++ assigned_ids rs.
Proof. destruct r; reflexivity. Qed.

Lemma run_increasing (cs : list call) :
  forall m m' rs,
    fresh_or_loaded m ->
    forallb (fun c => negb (removes c)) cs = true ->
    run cs m = (Ret rs, m') ->
    StronglySorted Z.lt (assigned_ids rs)
    /\ Forall (fun i => (get_next_id (collection m) <= i)%Z) (assigned_ids rs).
Proof.
  induction cs as [|c cs IH]; intros m m' rs F NR H.
  - injection H as <- _. simpl. split; constructor.
  - apply run_cons in H. destruct H as (r & rs' & m1 & Hc & Hr & ->).
    simpl in NR. apply andb_true_iff in NR. destruct NR as [NRc NR].
    apply negb_true_iff in NRc.
    assert (E1 : _tasks m1 = Some (effect c (collection m))).
    { rewrite <- (invoke_effect c F), Hc. reflexivity. }
    assert (F1 : fresh_or_loaded m1).
    { unfold fresh_or_loaded. rewrite E1. discriminate. }
    destruct (IH m1 m' rs' F1 NR Hr) as [S1 B1].
    unfold collection in B1. rewrite E1 in B1.
    rewrite (effect_next_id c (collection m) NRc) in B1.
    rewrite assigned_ids_cons, (invoke_assigned c F Hc).
    destruct c; simpl; try (split; [exact S1 | exact B1]).
    split.
    + constructor; [exact S1|].
      eapply Forall_impl; [|exact B1]. simpl; intros; lia.
    + constructor; [lia|].
      eapply Forall_impl; [|exact B1]. simpl; intros; lia.
Qed.

(** ** The encoder writes ASCII *)

Section value_induction.
Variable P : value -> Prop.
Hypothesis HNone : P VNone.
Hypothesis HBool : forall b, P (VBool b).
Hypothesis HInt : forall z, P (VInt z).
Hypothesis HStr : forall s, P (VStr s).
Hypothesis HList : forall l, Forall P l -> P (VList l).
Hypothesis HDict : forall d, Forall (fun kv => P (snd kv)) d -> P (VDict d).

Fixpoint value_nested_ind (v : value) : P v :=
  match v with
  | VNone => HNone
  | VBool b => HBool b
  | VInt z => HInt z
  | VStr s => HStr s
  | VList l =>
      HList ((fix items (l : list value) : Forall P l :=
                match l with
                | [] => Forall_nil P
                | x :: r => Forall_cons x (value_nested_ind x) (items r)
                end) l)
  | VDict d =>
      HDict ((fix items (d : list (str * value))
                : Forall (fun kv => P (snd kv)) d :=
                match d with
                | [] => Forall_nil _
                | kv :: r =>
                    Forall_cons kv (value_nested_ind (snd kv)) (items r)
                end) d)
  end.
End value_induction.

Lemma is_ascii_app (a b : str) :
  is_ascii (a ++ b) = is_ascii a && is_ascii b.
Proof. apply forallb_app. Qed.

Lemma is_ascii_cons (c : char) (s : str) :
  is_ascii (c :: s) = N.ltb c 128 && is_ascii s.
Proof. reflexivity. Qed.

Lemma hexdigit_ascii (d : N) : (d < 16)%N -> N.ltb (hexdigit d) 128 = true.
Proof.
  intros H; unfold hexdigit. apply N.ltb_lt.
  destruct (N.ltb d 10) eqn:E; [apply N.ltb_lt in E|]; lia.
Qed.

Lemma mod16_lt (n : N) : (n mod 16 < 16)%N.
Proof. apply N.mod_lt; discriminate. Qed.

Lemma uescape_ascii (n : N) : is_ascii (uescape n) = true.
Proof.
  unfold uescape, hex4, is_ascii; simpl.
  rewrite !hexdigit_ascii by apply mod16_lt. reflexivity.
Qed.

Lemma escape_char_ascii (c : char) : is_ascii (escape_char c) = true.
Proof.
  unfold escape_char.
  repeat match goal with
         | |- context [if ?b then _ else _] => destruct b eqn:?
         end;
    try reflexivity; rewrite ?is_ascii_app, ?uescape_ascii; try reflexivity.
  apply andb_true_iff in Heqb1. destruct Heqb1 as [_ H].
  apply N.leb_le in H. simpl. rewrite andb_true_r. apply N.ltb_lt. lia.
Qed.

Lemma encode_basestring_ascii_ascii (s : str) :
  is_ascii (encode_basestring_ascii s) = true.
Proof.
  unfold encode_basestring_ascii. rewrite is_ascii_cons, is_ascii_app.
  simpl. rewrite andb_true_r.
  induction s as [|c s IH]; simpl; [reflexivity|].
  rewrite is_ascii_app, escape_char_ascii. exact IH.
Qed.

Lemma uint_chars_ascii (u : Decimal.uint) : is_ascii (uint_chars u) = true.
Proof. induction u; simpl; auto. Qed.

Lemma repr_int_ascii (z : Z) : is_ascii (repr_int z) = true.
Proof.
  destruct z; unfold repr_int; rewrite ?is_ascii_cons;
    rewrite uint_chars_ascii; reflexivity.
Qed.

Lemma newline_indent_ascii (level : nat) :
  is_ascii (newline_indent level) = true.
Proof.
  unfold newline_indent. generalize (2 * level) as n.
  induction n as [|n IH]; [reflexivity | exact IH].
Qed.

Lemma join_ascii (sep : str) (parts : list str) :
  is_ascii sep = true ->
  Forall (fun p => is_ascii p = true) parts ->
  is_ascii (join sep parts) = true.
Proof.
  intros Hs; induction 1 as [|p ps Hp Hps IH]; [reflexivity|].
  destruct ps as [|q ps]; [exact Hp|].
  change (is_ascii (p ++ sep ++ join sep (q :: ps)) = true).
  rewrite !is_ascii_app, Hp, Hs, IH. reflexivity.
Qed.

Lemma iterencode_ascii (v : value) :
  forall level, is_ascii (iterencode level v) = true.
Proof.
  induction v as [| [|] | z | s | l IH | d IH] using value_nested_ind;
    intros level; try reflexivity.
  - apply repr_int_ascii.
  - apply encode_basestring_ascii_ascii.
  - destruct l as [|x l]; [reflexivity|].
    cbn [iterencode]. rewrite is_ascii_cons, !is_ascii_app.
    rewrite !newline_indent_ascii, join_ascii; [reflexivity | |].
    + rewrite is_ascii_cons, newline_indent_ascii. reflexivity.
    + apply Forall_map. eapply Forall_impl; [|exact IH]. simpl; auto.
  - destruct d as [|x d]; [reflexivity|].
    cbn [iterencode]. rewrite is_ascii_cons, !is_ascii_app.
    rewrite !newline_indent_ascii, join_ascii; [reflexivity | |].
    + rewrite is_ascii_cons, newline_indent_ascii. reflexivity.
    + apply Forall_map. eapply Forall_impl; [|exact IH].
      intros kv H; cbv beta in *.
      rewrite !is_ascii_app, encode_basestring_ascii_ascii, H.
      reflexivity.
Qed.

Lemma byte_of_to_N (c : char) : (c < 256)%N -> Byte.to_N (byte_of c) = c.
Proof.
  intros H; unfold byte_of. destruct (Byte.of_N c) as [b|] eqn:E.
  - apply Byte.to_of_N; exact E.
  - apply Byte.of_N_None_iff in E. lia.
Qed.

Lemma utf8_encode_ascii (s : str) :
  is_ascii s = true -> utf8_encode s = Some (map byte_of s).
Proof.
  induction s as [|c s IH]; simpl; [reflexivity|].
  intros H; apply andb_true_iff in H. destruct H as [Hc Hs].
  unfold utf8_units. rewrite Hc, (IH Hs). simpl.
  unfold byte_of. destruct (Byte.of_N c) as [b|] eqn:E; [reflexivity|].
  apply Byte.of_N_None_iff in E. apply N.ltb_lt in Hc. lia.
Qed.

Lemma utf8_decode_ascii (s : str) :
  is_ascii s = true -> utf8_decode (map byte_of s) = Some s.
Proof.
  unfold utf8_decode. induction s as [|c s IH]; simpl; [reflexivity|].
  intros H; apply andb_true_iff in H. destruct H as [Hc Hs].
  assert (Hc' : (c < 128)%N) by (apply N.ltb_lt; exact Hc).
  rewrite byte_of_to_N by lia. rewrite Hc, (IH Hs). reflexivity.
Qed.

Lemma json_dump_within (v : value) :
  depth v <= max_nesting -> json_dump v = Ret (json_dumps v).
Proof.
  intros D. unfold json_dump, nests_within. apply Nat.leb_le in D.
  rewrite D. reflexivity.
Qed.

(** Writing a value within the nesting succeeds whenever the file can be
    opened for writing. *)
Lemma save_tasks_within (v : value) (st : TaskStorage) :
  depth v <= max_nesting ->
  writable st = true -> save_tasks v st = (Ret tt, written v st).
Proof.
  intros D W; unfold save_tasks, written. rewrite W, (@json_dump_within v D).
  rewrite utf8_encode_ascii by apply iterencode_ascii. reflexivity.
Qed.

Lemma list_max_map_le {A} (f : A -> nat) (n : nat) (l : list A) :
  (forall x, f x <= n) -> list_max (map f l) <= n.
Proof.
  intros H. apply list_max_le, Forall_map, Forall_forall. intros x _. apply H.
Qed.

(** A task is a dict of scalars, a collection a list of them. *)
Lemma depth_task_value (t : Task) : depth (task_value t) = 1.
Proof. destruct t as [i ti de pr co cr [ca|]]; reflexivity. Qed.

Lemma depth_tasks_value (ts : list Task) : depth (tasks_value ts) <= 2.
Proof.
  unfold tasks_value. cbn [depth]. rewrite map_map.
  apply le_n_S, list_max_map_le. intros t. rewrite depth_task_value. lia.
Qed.

Lemma depth_cache_value (c : option (list Task)) :
  depth (cache_value c) <= max_nesting.
Proof.
  destruct c as [ts|]; cbn [cache_value].
  - pose proof (depth_tasks_value ts). unfold max_nesting. lia.
  - unfold max_nesting. simpl. lia.
Qed.

(** Writing a collection succeeds whenever the file can be opened for
    writing. *)
Lemma save_tasks_writable (ts : list Task) (st : TaskStorage) :
  writable st = true ->
  save_tasks (tasks_value ts) st = (Ret tt, written (tasks_value ts) st).
Proof.
  apply save_tasks_within. pose proof (depth_tasks_value ts).
  unfold max_nesting. lia.
Qed.

Lemma save_tasks_not_writable (v : value) (st : TaskStorage) :
  writable st = false -> save_tasks v st = (Raise OSError, st).
Proof. intros W; unfold save_tasks. rewrite W. reflexivity. Qed.

Lemma _save_writable (m : TaskManager) :
  writable (storage m) = true ->
  _save m = (Ret tt, {| storage := written (cache_value (_tasks m)) (storage m);
                        _tasks := _tasks m |}).
Proof.
  intros W; unfold _save.
  rewrite (@save_tasks_within _ (storage m) (depth_cache_value (_tasks m)) W).
  reflexivity.
Qed.

(** ** Decoding what the encoder wrote: strings *)

Ltac ncases :=
  repeat (match goal with
          | |- context [N.leb ?a ?b] => destruct (N.leb_spec a b)
          | |- context [N.ltb ?a ?b] => destruct (N.ltb_spec a b)
          | |- context [N.eqb ?a ?b] => destruct (N.eqb_spec a b)
          end; try (exfalso; lia); cbn [andb orb negb]).

Lemma hexval_hexdigit (d : N) : (d < 16)%N -> hexval (hexdigit d) = Some d.
Proof.
  intros H; unfold hexval, hexdigit, is_digit.
  destruct (N.ltb_spec d 10); ncases; f_equal; lia.
Qed.

Lemma hex4_value (n : N) :
  (n < 65536)%N ->
  ((n / 4096 mod 16) * 4096 + (n / 256 mod 16) * 256 + (n / 16 mod 16) * 16
   + n mod 16 = n)%N.
Proof.
  intros H.
  assert (D1 : (n / 256 = n / 16 / 16)%N)
    by (rewrite N.Div0.div_div; reflexivity).
  assert (D2 : (n / 4096 = n / 16 / 16 / 16)%N)
    by (rewrite !N.Div0.div_div; reflexivity).
  assert (U : (n / 4096 < 16)%N)
    by (apply N.Div0.div_lt_upper_bound; exact H).
  rewrite (N.mod_small (n / 4096) 16) by exact U.
  rewrite D2 in *. rewrite D1.
  pose proof (N.div_mod n 16 ltac:(discriminate)) as E0.
  pose proof (N.div_mod (n / 16) 16 ltac:(discriminate)) as E1.
  pose proof (N.div_mod (n / 16 / 16) 16 ltac:(discriminate)) as E2.
  lia.
Qed.

Lemma decode_hex4 (n : N) (rest : str) :
  (n < 65536)%N ->
  match hex4 n ++ rest with
  | h1 :: h2 :: h3 :: h4 :: r => decode_uXXXX h1 h2 h3 h4 = Some n /\ r = rest
  | _ => False
  end.
Proof.
  intros H; unfold hex4, decode_uXXXX; simpl.
  rewrite !hexval_hexdigit by apply mod16_lt.
  rewrite hex4_value by exact H. auto.
Qed.
Lemma lor_shiftl_small (q r k : N) :
  (r < 2 ^ k)%N -> N.lor (N.shiftl q k) r = (q * 2 ^ k + r)%N.
Proof.
  intros H. rewrite <- N.shiftl_mul_pow2.
  rewrite <- N.lxor_lor, <- N.add_nocarry_lxor; try reflexivity.
  all: apply N.bits_inj; intros i; rewrite N.land_spec, N.bits_0.
  all: destruct (N.lt_ge_cases i k) as [L|G];
    [rewrite N.shiftl_spec_low by exact L; reflexivity|].
  all: destruct (N.eq_dec r 0) as [->|NZ];
    [rewrite N.bits_0; apply andb_false_r|].
  all: rewrite (N.bits_above_log2 r i); [apply andb_false_r|].
  all: apply N.log2_lt_pow2; [lia|].
  all: eapply N.lt_le_trans; [exact H|]; apply N.pow_le_mono_r; [discriminate|exact G].
Qed.

Lemma surrogates_join (c : N) :
  (65536 <= c < 1114112)%N ->
  let n := (c - 65536)%N in
  let s1 := N.lor 55296 (N.land (N.shiftr n 10) 1023) in
  let s2 := N.lor 56320 (N.land n 1023) in
  (s1 < 65536)%N /\ (s2 < 65536)%N /\ is_high_surrogate s1 = true /\ is_low_surrogate s2 = true
  /\ is_high_surrogate s2 = false /\ join_surrogates s1 s2 = c.
Proof.
  intros H n s1 s2.
  assert (Hn : (n < 1048576)%N) by (unfold n; lia).
  assert (Q : (n / 1024 < 1024)%N) by (apply N.Div0.div_lt_upper_bound; lia).
  assert (R : (n mod 1024 < 1024)%N) by (apply N.mod_lt; discriminate).
  assert (A : N.land (N.shiftr n 10) 1023 = (n / 1024)%N).
  { change 1023%N with (N.ones 10). rewrite N.land_ones, N.shiftr_div_pow2.
    apply N.mod_small. exact Q. }
  assert (B : N.land n 1023 = (n mod 1024)%N).
  { change 1023%N with (N.ones 10). rewrite N.land_ones. reflexivity. }
  assert (S1 : s1 = (55296 + n / 1024)%N).
  { unfold s1. rewrite A. change 55296%N with (N.shiftl 54 10) at 1.
    rewrite lor_shiftl_small by exact Q. reflexivity. }
  assert (S2 : s2 = (56320 + n mod 1024)%N).
  { unfold s2. rewrite B. change 56320%N with (N.shiftl 55 10) at 1.
    rewrite lor_shiftl_small by exact R. reflexivity. }
  pose proof (N.div_mod n 1024 ltac:(discriminate)) as E.
  unfold is_high_surrogate, is_low_surrogate, join_surrogates.
  rewrite S1, S2.
  replace (55296 + n / 1024 - 55296)%N with (n / 1024)%N by lia.
  replace (56320 + n mod 1024 - 56320)%N with (n mod 1024)%N by lia.
  rewrite lor_shiftl_small by exact R.
  change (2 ^ 10)%N with 1024%N.
  repeat split; try lia; ncases; try reflexivity.
Qed.

Lemma scanstring_literal (c : char) (rest : str) :
  c <> QUOTE -> c <> BACKSLASH -> (32 <= c)%N ->
  scanstring (c :: rest) = cons_char c (scanstring rest).
Proof.
  intros H1 H2 H3. cbn [scanstring].
  destruct (N.eqb_spec c QUOTE); [contradiction|].
  destruct (N.eqb_spec c BACKSLASH); [contradiction|].
  destruct (N.ltb_spec c 32); [lia | reflexivity].
Qed.

Lemma scanstring_short (e c' : char) (rest : str) :
  e <> 117%N -> unescape e = Some c' ->
  scanstring (BACKSLASH :: e :: rest) = cons_char c' (scanstring rest).
Proof.
  intros H1 H2. cbn [scanstring N.eqb Pos.eqb BACKSLASH QUOTE].
  destruct (N.eqb_spec e 117); [contradiction|]. rewrite H2. reflexivity.
Qed.

Lemma scanstring_uescape (n : N) (rest : str) :
  (n < 65536)%N -> is_high_surrogate n = false ->
  scanstring (uescape n ++ rest) = cons_char n (scanstring rest).
Proof.
  intros H Hs. pose proof (decode_hex4 rest H) as D.
  unfold uescape. cbn [app].
  destruct (hex4 n ++ rest) as [|h1 [|h2 [|h3 [|h4 r]]]]; try contradiction.
  destruct D as [D ->].
  cbn [scanstring N.eqb Pos.eqb BACKSLASH QUOTE].
  rewrite D.
  destruct rest as [|b [|u [|g1 [|g2 [|g3 [|g4 r3]]]]]]; try reflexivity.
  rewrite Hs. reflexivity.
Qed.

Lemma scanstring_pair (s1 s2 : N) (rest : str) :
  (s1 < 65536)%N -> (s2 < 65536)%N ->
  is_high_surrogate s1 = true -> is_low_surrogate s2 = true ->
  scanstring ((uescape s1 ++ uescape s2) ++ rest)
  = cons_char (join_surrogates s1 s2) (scanstring rest).
Proof.
  intros H1 H2 Hh Hl. rewrite <- app_assoc.
  pose proof (decode_hex4 rest H2) as D2.
  pose proof (decode_hex4 (uescape s2 ++ rest) H1) as D1.
  unfold uescape in *. cbn [app] in *.
  destruct (hex4 s2 ++ rest) as [|g1 [|g2 [|g3 [|g4 r3]]]]; try contradiction.
  destruct D2 as [D2 ->].
  destruct (hex4 s1 ++ _) as [|h1 [|h2 [|h3 [|h4 r]]]]; try contradiction.
  destruct D1 as [D1 ->].
  cbn [scanstring N.eqb Pos.eqb BACKSLASH QUOTE].
  rewrite D1, Hh. cbn [andb N.eqb Pos.eqb]. rewrite D2, Hl. reflexivity.
Qed.

(** A string of scalar values is read back from its escaped form. *)
Lemma scanstring_escaped (s rest : str) :
  text_ok s = true ->
  scanstring (flat_map escape_char s ++ QUOTE :: rest) = Ret (s, rest).
Proof.
  induction s as [|c s IH]; intros T; [reflexivity|].
  simpl in T. apply andb_true_iff in T. destruct T as [Tc Ts].
  specialize (IH Ts). cbn [flat_map]. rewrite <- app_assoc.
  assert (K : forall x, cons_char x (scanstring
                 (flat_map escape_char s ++ QUOTE :: rest))
              = Ret (x :: s, rest)) by (intros x; rewrite IH; reflexivity).
  unfold escape_char.
  destruct (N.eqb_spec c BACKSLASH) as [->|N1].
  { cbn [app]. rewrite scanstring_short with (c' := BACKSLASH);
      [apply K | discriminate | reflexivity]. }
  destruct (N.eqb_spec c QUOTE) as [->|N2].
  { cbn [app]. rewrite scanstring_short with (c' := QUOTE);
      [apply K | discriminate | reflexivity]. }
  destruct (N.leb 32 c && N.leb c 126) eqn:Er.
  { apply andb_true_iff in Er. destruct Er as [E1 _]. apply N.leb_le in E1.
    cbn [app]. rewrite scanstring_literal by assumption. apply K. }
  destruct (N.eqb_spec c 8) as [->|N3].
  { cbn [app]. rewrite scanstring_short with (c' := 8%N);
      [apply K | discriminate | reflexivity]. }
  destruct (N.eqb_spec c 12) as [->|N4].
  { cbn [app]. rewrite scanstring_short with (c' := 12%N);
      [apply K | discriminate | reflexivity]. }
  destruct (N.eqb_spec c 10) as [->|N5].
  { cbn [app]. rewrite scanstring_short with (c' := 10%N);
      [apply K | discriminate | reflexivity]. }
  destruct (N.eqb_spec c 13) as [->|N6].
  { cbn [app]. rewrite scanstring_short with (c' := 13%N);
      [apply K | discriminate | reflexivity]. }
  destruct (N.eqb_spec c 9) as [->|N7].
  { cbn [app]. rewrite scanstring_short with (c' := 9%N);
      [apply K | discriminate | reflexivity]. }
  unfold scalar in Tc.
  destruct (N.ltb_spec c 65536) as [L|G].
  - rewrite scanstring_uescape; [apply K | exact L |].
    unfold is_high_surrogate. revert Tc. ncases; intros; try reflexivity;
      try discriminate.
  - assert (B : (65536 <= c < 1114112)%N).
    { revert Tc. ncases; intros; try discriminate; lia. }
    destruct (surrogates_join B) as (A1 & A2 & A3 & A4 & _ & A6).
    cbv zeta. rewrite scanstring_pair by assumption.
    rewrite A6. apply K.
Qed.

(** ** Decoding what the encoder wrote: integers *)

Lemma read_digits_chars (u : Decimal.uint) (rest : str) :
  no_digit rest -> read_digits (uint_chars u ++ rest) = (u, rest).
Proof.
  intros H; induction u; cbn [uint_chars app];
    try (cbn [read_digits]; change (is_digit (digit_char _)) with true;
         cbv iota; rewrite IHu; reflexivity).
  destruct rest as [|c r]; [reflexivity|]. simpl in H. simpl. rewrite H.
  reflexivity.
Qed.

Lemma to_uint_pos_head (p : positive) :
  match N.to_uint (Npos p) with
  | Decimal.Nil | Decimal.D0 _ => False
  | _ => True
  end.
Proof.
  pose proof (DecimalN.Unsigned.of_to (Npos p)) as E.
  pose proof (DecimalN.Unsigned.to_of (N.to_uint (Npos p))) as U.
  rewrite E in U.
  destruct (N.to_uint (Npos p)) as [|u| | | | | | | | |] eqn:Eu; try exact I.
  - discriminate E.
  - unfold Decimal.unorm in U. cbn [Decimal.nzhead] in U.
    destruct (Decimal.nzhead u) eqn:En; try (rewrite <- En in U; symmetry in U; exact (DecimalFacts.nzhead_nonzero _ _ U)).
    injection U as ->. discriminate E.
Qed.

Lemma delimited_no_digit (rest : str) : delimited rest -> no_digit rest.
Proof. destruct rest as [|c r]; simpl; [auto|]. intros [-> | ->]; reflexivity. Qed.

Lemma delimited_float_tail (rest : str) : delimited rest -> float_tail rest = false.
Proof.
  destruct rest as [|c [|d r]]; simpl; try reflexivity.
  intros [-> | ->]; reflexivity.
Qed.

Lemma match_integer_repr (n : N) (rest : str) :
  no_digit rest ->
  match_integer (uint_chars (N.to_uint n) ++ rest)
  = Some (false, N.to_uint n, rest)
  /\ match_integer (@cons char 45%N (uint_chars (N.to_uint n) ++ rest))
     = Some (true, N.to_uint n, rest).
Proof.
  intros H. destruct n as [|p]; [split; reflexivity|].
  pose proof (to_uint_pos_head p) as T.
  pose proof (read_digits_chars (N.to_uint (N.pos p)) rest H) as R.
  destruct (N.to_uint (N.pos p)) as [|u|u|u|u|u|u|u|u|u|u];
    try contradiction;
    unfold match_integer; simpl in R |- *; rewrite R; split; reflexivity.
Qed.

Lemma scan_number_repr (z : Z) (rest : str) :
  delimited rest -> scan_number (repr_int z ++ rest) = Ret (VInt z, rest).
Proof.
  intros D. pose proof (delimited_no_digit _ D) as ND.
  unfold scan_number, repr_int.
  destruct z as [|p|p].
  - destruct (match_integer_repr (Z.to_N 0) rest ND) as [-> _].
    rewrite (delimited_float_tail _ D), DecimalN.Unsigned.of_to. reflexivity.
  - destruct (match_integer_repr (Z.to_N (Z.pos p)) rest ND) as [-> _].
    rewrite (delimited_float_tail _ D), DecimalN.Unsigned.of_to. reflexivity.
  - cbn [app]. destruct (match_integer_repr (N.pos p) rest ND) as [_ ->].
    rewrite (delimited_float_tail _ D), DecimalN.Unsigned.of_to. reflexivity.
Qed.

Lemma repr_int_head (z : Z) :
  exists c r, repr_int z = c :: r /\ (c = 45%N \/ is_digit c = true).
Proof.
  destruct z as [|p|p]; unfold repr_int.
  - exists 48%N, []. auto.
  - change (Z.to_N (Z.pos p)) with (N.pos p).
    pose proof (to_uint_pos_head p) as T.
    destruct (N.to_uint (N.pos p)); try contradiction; simpl; eauto.
  - eauto.
Qed.

Lemma strip_prefix_head (p : str) (c : char) (r : str) :
  match p with x :: _ => N.eqb x c = false | [] => False end ->
  strip_prefix p (c :: r) = None.
Proof.
  destruct p as [|x p]; simpl; [contradiction|]. intros ->. reflexivity.
Qed.

Lemma scan_once_number (f room : nat) (c : char) (r : str) :
  c = 45%N \/ is_digit c = true ->
  scan_once (S f) room (c :: r) = scan_number (c :: r).
Proof.
  intros H. cbn [scan_once].
  assert (E : forall k, is_digit k = false -> k <> 45%N ->
                        N.eqb c k = false /\ N.eqb k c = false).
  { intros k Hk Hk'.
    assert (c <> k) by (destruct H as [->|H]; congruence).
    split; [destruct (N.eqb_spec c k) | destruct (N.eqb_spec k c)];
      congruence. }
  unfold QUOTE.
  rewrite (proj1 (E 34%N eq_refl ltac:(discriminate))),
    (proj1 (E 123%N eq_refl ltac:(discriminate))),
    (proj1 (E 91%N eq_refl ltac:(discriminate))).
  rewrite (strip_prefix_head (py "null") c r
             (proj2 (E 110%N eq_refl ltac:(discriminate)))),
    (strip_prefix_head (py "true") c r
       (proj2 (E 116%N eq_refl ltac:(discriminate)))),
    (strip_prefix_head (py "false") c r
       (proj2 (E 102%N eq_refl ltac:(discriminate)))).
  reflexivity.
Qed.

Lemma scan_once_repr_int (f room : nat) (z : Z) (rest : str) :
  delimited rest ->
  scan_once (S f) room (repr_int z ++ rest) = Ret (VInt z, rest).
Proof.
  intros D. destruct (repr_int_head z) as (c & r & E & H).
  rewrite <- (scan_number_repr z rest D). rewrite E. cbn [app].
  apply scan_once_number; exact H.
Qed.

(** ** Decoding what the encoder wrote: values *)

Lemma skip_ws_nonws (c : char) (r : str) :
  is_ws c = false -> skip_ws (c :: r) = c :: r.
Proof. intros H; simpl. rewrite H. reflexivity. Qed.

Lemma skip_ws_newline_indent (n : nat) (s : str) :
  skip_ws (newline_indent n ++ s) = skip_ws s.
Proof.
  unfold newline_indent. cbn [app skip_ws].
  change (is_ws 10%N) with true. cbv iota.
  generalize (2 * n) as k. induction k as [|k IH]; [reflexivity | exact IH].
Qed.

Lemma token_start_app (s t : str) : token_start s -> token_start (s ++ t).
Proof. destruct s; simpl; [contradiction | auto]. Qed.

Lemma iterencode_start (level : nat) (v : value) :
  token_start (iterencode level v).
Proof.
  destruct v as [| [|] | z | s | [|x l] | [|kv d]];
    try (simpl; repeat split; discriminate).
  destruct (repr_int_head z) as (c & r & E & H). cbn [iterencode].
  rewrite E. simpl.
  destruct H as [->|H]; [repeat split; discriminate|].
  unfold is_digit in H. unfold is_ws. revert H. ncases; intros; try discriminate; repeat split; try reflexivity; lia.
Qed.

Lemma skip_ws_token (s : str) : token_start s -> skip_ws s = s.
Proof.
  destruct s as [|c r]; simpl; [contradiction|]. intros [-> _]. reflexivity.
Qed.

Lemma join_cons2 (sep p q : str) (ps : list str) :
  join sep (p :: q :: ps) = p ++ sep ++ join sep (q :: ps).
Proof. reflexivity. Qed.

Lemma join_start (sep : str) (parts : list str) :
  parts <> [] -> Forall token_start parts -> token_start (join sep parts).
Proof.
  intros N F; destruct F as [|p ps Hp Hps]; [contradiction N; reflexivity|].
  destruct ps; [exact Hp|]. rewrite join_cons2. apply token_start_app, Hp.
Qed.

Lemma delimited_newline (n : nat) (s : str) : delimited (newline_indent n ++ s).
Proof. right; reflexivity. Qed.

Lemma delimited_comma (s : str) : delimited (44%N :: s).
Proof. left; reflexivity. Qed.

Lemma JSONArray_items (level : nat) (l : list value) :
  Forall decodes l -> l <> [] ->
  forall fuel room acc rest,
    list_sum (map (fun x => S (fuel_of x)) l) <= fuel ->
    list_max (map depth l) <= room ->
    JSONArray fuel room
      (join (44%N :: newline_indent (S level)) (map (iterencode (S level)) l)
         ++ newline_indent level ++ 93%N :: rest) acc
    = Ret (VList (rev acc ++ l), rest).
Proof.
  induction 1 as [|x l Hx Hl IH]; intros N fuel room acc rest Hf Hd;
    [contradiction|].
  destruct fuel as [|f]; [simpl in Hf; lia|].
  cbn [map list_max fold_right] in Hd.
  change (fold_right Nat.max 0 (map depth l)) with (list_max (map depth l))
    in Hd.
  cbn [JSONArray].
  destruct l as [|y l'].
  - simpl in Hf. cbn [map join].
    rewrite Hx; [| lia | lia | apply delimited_newline].
    rewrite skip_ws_newline_indent, skip_ws_nonws by reflexivity.
    change (N.eqb 93 93) with true. cbv iota. reflexivity.
  - simpl in Hf. cbn [map]. rewrite join_cons2, <- !app_assoc. cbn [app].
    rewrite Hx; [| lia | lia | apply delimited_comma].
    rewrite skip_ws_nonws by reflexivity.
    change (N.eqb 44 93) with false. change (N.eqb 44 44) with true. cbv iota.
    rewrite skip_ws_newline_indent.
    rewrite skip_ws_token.
    + change (iterencode (S level) y :: map (iterencode (S level)) l')
        with (map (iterencode (S level)) (y :: l')).
      rewrite IH; [| discriminate | simpl; lia | lia].
      cbn [rev]. rewrite <- app_assoc. reflexivity.
    + apply token_start_app, join_start; [discriminate|].
      constructor; [apply iterencode_start|].
      apply Forall_map, Forall_forall. intros; apply iterencode_start.
Qed.

Lemma dict_set_fresh {V} (k : str) (v : V) (acc : dict V) :
  dict_get k acc = None -> dict_set k v acc = acc ++ [(k, v)].
Proof.
  induction acc as [|[k' v'] acc IH]; simpl; [reflexivity|].
  destruct (str_eqb k k'); [discriminate|]. intros H; rewrite IH by exact H.
  reflexivity.
Qed.

Lemma existsb_app_true (k k' : str) (l r : list str) :
  str_eqb k k' = true -> existsb (str_eqb k') (l ++ k :: r) = true.
Proof.
  intros E; apply existsb_exists. exists k. split; [apply in_elt|].
  apply str_eqb_eq in E. subst. apply str_eqb_refl.
Qed.

Lemma distinct_get {V} (k : str) (v : V) (acc d : dict V) :
  distinct (map fst (acc ++ (k, v) :: d)) = true -> dict_get k acc = None.
Proof.
  induction acc as [|[k' v'] acc IH]; simpl; [reflexivity|].
  intros H; apply andb_true_iff in H. destruct H as [H1 H2].
  destruct (str_eqb k k') eqn:E; [|apply IH; exact H2].
  rewrite map_app in H1. simpl in H1.
  rewrite (@existsb_app_true k k' (map fst acc) (map fst d) E) in H1. discriminate.
Qed.

Lemma object_items_start (level : nat) (sep : str) (d : list (str * value))
  (t : str) :
  d <> [] ->
  join sep (map (object_item level) d) ++ t
  = QUOTE :: tl (join sep (map (object_item level) d) ++ t).
Proof.
  destruct d as [|kv [|kv' d]]; [contradiction | reflexivity | reflexivity].
Qed.

Lemma JSONObject_items (level : nat) (d : list (str * value)) :
  Forall (fun kv => decodes (snd kv)) d -> d <> [] ->
  forallb (fun kv => text_ok (fst kv)) d = true ->
  forall fuel room acc rest,
    distinct (map fst (acc ++ d)) = true ->
    list_sum (map (fun kv => S (fuel_of (snd kv))) d) <= fuel ->
    list_max (map (fun kv => depth (snd kv)) d) <= room ->
    JSONObject fuel room
      (tl (join (44%N :: newline_indent (S level))
                (map (object_item level) d)
             ++ newline_indent level ++ 125%N :: rest)) acc
    = Ret (VDict (acc ++ d), rest).
Proof.
  induction 1 as [|[k v] d Hv Hd IH]; intros N T fuel room acc rest D Hf Hr;
    [contradiction|].
  destruct fuel as [|f]; [simpl in Hf; lia|].
  cbn [map list_max fold_right snd] in Hr.
  change (fold_right Nat.max 0 (map (fun kv => depth (snd kv)) d))
    with (list_max (map (fun kv => depth (snd kv)) d)) in Hr.
  simpl in T. apply andb_true_iff in T. destruct T as [Tk Td].
  pose proof (@distinct_get _ k v acc d D) as G.
  cbn [snd] in Hv. simpl in Hf.
  cbn [JSONObject].
  rewrite (@dict_set_fresh _ k v acc G) || idtac.
  destruct d as [|kv' d'].
  - cbn [map join].
    unfold object_item at 1, encode_basestring_ascii. cbn [fst snd app tl].
    rewrite <- !app_assoc. cbn [app].
    rewrite scanstring_escaped by exact Tk.
    change (py ": ") with [58%N; 32%N]. cbn [app].
    rewrite skip_ws_nonws by reflexivity.
    change (N.eqb 58 58) with true. cbv iota.
    change (skip_ws (32%N :: ?x)) with (skip_ws x).
    rewrite skip_ws_token by (apply token_start_app, iterencode_start).
    rewrite Hv; [| lia | lia | apply delimited_newline].
    rewrite (skip_ws_newline_indent level (125%N :: rest)), skip_ws_nonws by reflexivity.
    change (N.eqb 125 125) with true. cbv iota.
    rewrite (@dict_set_fresh _ k v acc G). reflexivity.
  - cbn [map]. rewrite join_cons2.
    change (object_item level kv' :: map (object_item level) d')
      with (map (object_item level) (kv' :: d')).
    unfold object_item at 1, encode_basestring_ascii. cbn [fst snd app tl].
    rewrite <- !app_assoc. cbn [app].
    rewrite scanstring_escaped by exact Tk.
    change (py ": ") with [58%N; 32%N]. cbn [app].
    rewrite skip_ws_nonws by reflexivity.
    change (N.eqb 58 58) with true. cbv iota.
    change (skip_ws (32%N :: ?x)) with (skip_ws x).
    rewrite skip_ws_token by (apply token_start_app, iterencode_start).
    rewrite Hv; [| simpl in Hf; lia | lia | apply delimited_comma].
    rewrite skip_ws_nonws by reflexivity.
    change (N.eqb 44 125) with false. change (N.eqb 44 44) with true.
    cbv iota. rewrite <- ?app_assoc. rewrite skip_ws_newline_indent.
    rewrite object_items_start by discriminate.
    rewrite skip_ws_nonws by reflexivity.
    change (N.eqb QUOTE QUOTE) with true. cbv iota.
    rewrite (@dict_set_fresh _ k v acc G).
    rewrite IH; [| discriminate | exact Td | | simpl in Hf |- *; lia | lia].
    + rewrite <- app_assoc. reflexivity.
    + rewrite <- app_assoc. exact D.
Qed.

Lemma Forall_decodes (l : list value) :
  Forall (fun v => well_formed v = true -> decodes v) l ->
  forallb well_formed l = true -> Forall decodes l.
Proof.
  induction 1 as [|x l Hx Hl IH]; simpl; intros W; constructor;
    apply andb_true_iff in W; destruct W; auto.
Qed.

Lemma Forall_decodes_items (d : list (str * value)) :
  Forall (fun kv => well_formed (snd kv) = true -> decodes (snd kv)) d ->
  forallb (fun kv => text_ok (fst kv) && well_formed (snd kv)) d = true ->
  Forall (fun kv => decodes (snd kv)) d
  /\ forallb (fun kv => text_ok (fst kv)) d = true.
Proof.
  induction 1 as [|x l Hx Hl IH]; simpl; intros W; [split; auto|].
  apply andb_true_iff in W. destruct W as [W1 W2].
  apply andb_true_iff in W1. destruct W1 as [W0 W1].
  destruct (IH W2) as [A B]. rewrite W0, B. split; auto.
Qed.

(** The decoder reads back every well-formed value from its encoding, at
    any nesting depth and before any delimiter. *)
Lemma scan_once_iterencode (v : value) : well_formed v = true -> decodes v.
Proof.
  induction v as [| b | z | s | l IH | d IH] using value_nested_ind;
    intros W level fuel room rest Hf Hr D;
    (destruct fuel as [|f]; [simpl in Hf; lia|]).
  - reflexivity.
  - destruct b; reflexivity.
  - apply scan_once_repr_int; exact D.
  - cbn [iterencode]. unfold encode_basestring_ascii. cbn [app scan_once].
    change (N.eqb QUOTE QUOTE) with true. cbv iota.
    rewrite <- app_assoc. cbn [app].
    rewrite scanstring_escaped by exact W. reflexivity.
  - cbn [depth] in Hr. destruct room as [|room]; [lia|].
    destruct l as [|x l']; [reflexivity|].
    pose proof (Forall_decodes IH W) as F.
    cbn [iterencode app scan_once].
    change (N.eqb 91 QUOTE) with false. change (N.eqb 91 123) with false.
    change (N.eqb 91 91) with true. cbv iota.
    rewrite <- !app_assoc. cbn [app]. rewrite skip_ws_newline_indent.
    match goal with |- context [skip_ws ?t] =>
      assert (TS : token_start t); [|destruct t as [|c' r'] eqn:E] end.
    { apply token_start_app, join_start; [discriminate|].
      apply Forall_map, Forall_forall. intros; apply iterencode_start. }
    { contradiction. }
    destruct TS as (T1 & T2 & _).
    rewrite skip_ws_nonws by exact T1.
    destruct (N.eqb_spec c' 93) as [->|_]; [contradiction T2; reflexivity|].
    rewrite <- E. apply JSONArray_items; [exact F | discriminate | | lia].
    simpl in Hf. simpl. lia.
  - cbn [depth] in Hr. destruct room as [|room]; [lia|].
    destruct d as [|kv d']; [reflexivity|].
    destruct (Forall_decodes_items IH) as [F K].
    { simpl in W. apply andb_true_iff in W. apply W. }
    cbn [iterencode app scan_once].
    change (N.eqb 123 QUOTE) with false. change (N.eqb 123 123) with true.
    cbv iota.
    rewrite <- !app_assoc. cbn [app]. rewrite skip_ws_newline_indent.
    change (fun kv0 : str * value =>
              encode_basestring_ascii (fst kv0) ++ py ": "
                ++ iterencode (S level) (snd kv0))
      with (object_item level).
    rewrite object_items_start by discriminate.
    rewrite skip_ws_nonws by reflexivity.
    change (N.eqb QUOTE 125) with false. change (N.eqb QUOTE QUOTE) with true.
    cbv iota.
    apply (@JSONObject_items level (kv :: d') F ltac:(discriminate) K f
             room []).
    + simpl in W. apply andb_true_iff in W. apply W.
    + simpl in Hf. simpl. lia.
    + lia.
Qed.

Lemma sum_le_join {A} (sep : str) (g : A -> str) (h : A -> nat) (l : list A) :
  1 <= List.length sep ->
  Forall (fun x => h x <= List.length (g x)) l ->
  list_sum (map (fun x => S (h x)) l) <= S (List.length (join sep (map g l))).
Proof.
  intros Hs; induction 1 as [|x l Hx Hl IH]; [simpl; lia|].
  destruct l as [|y l']; [simpl; lia|].
  cbn [map] in *. rewrite join_cons2, !length_app.
  cbn [list_sum fold_right] in *. lia.
Qed.

Lemma fuel_le_length (v : value) :
  forall level, fuel_of v <= List.length (iterencode level v).
Proof.
  induction v as [| b | z | s | l IH | d IH] using value_nested_ind;
    intros level.
  - simpl; lia.
  - destruct b; simpl; lia.
  - destruct (repr_int_head z) as (c & r & E & _). cbn [iterencode fuel_of].
    rewrite E. simpl; lia.
  - simpl; lia.
  - destruct l as [|x l']; [simpl; lia|].
    cbn [iterencode fuel_of]. cbn [List.length]. rewrite !length_app.
    pose proof (@sum_le_join _ (44%N :: newline_indent (S level))
                  (iterencode (S level)) fuel_of (x :: l')
                  ltac:(simpl; lia)) as J.
    cbn [List.length]. 
    assert (1 <= List.length (newline_indent level)) by (simpl; lia).
    assert (F : Forall (fun x => fuel_of x
                         <= List.length (iterencode (S level) x)) (x :: l'))
      by (eapply Forall_impl; [|exact IH]; intros a Ha; apply Ha).
    specialize (J F). lia.
  - destruct d as [|kv d']; [simpl; lia|].
    cbn [iterencode fuel_of]. cbn [List.length]. rewrite !length_app.
    pose proof (@sum_le_join _ (44%N :: newline_indent (S level))
                  (object_item level) (fun kv => fuel_of (snd kv)) (kv :: d')
                  ltac:(simpl; lia)) as J.
    cbn [List.length].
    assert (1 <= List.length (newline_indent level)) by (simpl; lia).
    change (fun kv0 : str * value =>
              encode_basestring_ascii (fst kv0) ++ py ": "
                ++ iterencode (S level) (snd kv0))
      with (object_item level).
    assert (F : Forall (fun kv => fuel_of (snd kv)
                         <= List.length (object_item level kv)) (kv :: d')).
    { eapply Forall_impl; [|exact IH]. intros a Ha. unfold object_item.
      rewrite !length_app. specialize (Ha (S level)). lia. }
    specialize (J F).
    match goal with
    | |- S ?s <= S (?a + (?x + (?b + 1))) =>
        assert (J' : s <= S x) by exact J; clear J; lia
    end.
Qed.

(** [json.loads(json.dumps(v)) == v], within the nesting *)
Lemma json_loads_dumps (v : value) :
  well_formed v = true -> depth v <= max_nesting ->
  json_loads (json_dumps v) = Ret v.
Proof.
  intros W D. unfold json_loads, json_dumps.
  rewrite skip_ws_token by apply iterencode_start.
  rewrite <- (app_nil_r (iterencode 0 v)) at 2.
  rewrite (@scan_once_iterencode v W 0); [reflexivity | | exact D | exact I].
  pose proof (fuel_le_length v 0). lia.
Qed.

Lemma load_tasks_within (v : value) (st : TaskStorage) :
  well_formed v = true -> depth v <= max_nesting -> readable st = true ->
  load_tasks (written v st) = Ret v.
Proof.
  intros W D R. unfold load_tasks, written. cbn [data_file readable].
  rewrite R, utf8_decode_ascii by apply iterencode_ascii.
  rewrite json_loads_dumps by assumption. reflexivity.
Qed.

Lemma load_tasks_written (ts : list Task) (st : TaskStorage) :
  well_formed (tasks_value ts) = true -> readable st = true ->
  load_tasks (written (tasks_value ts) st) = Ret (tasks_value ts).
Proof.
  intros W R. apply load_tasks_within; [exact W | | exact R].
  pose proof (depth_tasks_value ts). unfold max_nesting. lia.
Qed.

Lemma value_task_value (t : Task) : value_task (task_value t) = Some t.
Proof. destruct t as [i ti de pr co cr [ca|]]; reflexivity. Qed.

Lemma value_tasks_value (ts : list Task) :
  value_tasks (tasks_value ts) = Some ts.
Proof.
  unfold tasks_value, value_tasks.
  induction ts as [|t r IH]; [reflexivity|].
  cbn [map values_tasks]. rewrite value_task_value, IH. reflexivity.
Qed.

Lemma well_formed_task_value (t : Task) :
  well_formed (task_value t) = task_ok t.
Proof.
  unfold task_ok. destruct t as [i ti de pr co cr [ca|]]; cbn -[text_ok];
    try destruct (text_ok ca);
    destruct (text_ok ti), (text_ok de), (text_ok pr), (text_ok cr);
    reflexivity.
Qed.

Lemma well_formed_tasks_value (ts : list Task) :
  well_formed (tasks_value ts) = forallb task_ok ts.
Proof.
  unfold tasks_value. cbn [well_formed].
  induction ts as [|t r IH]; [reflexivity|].
  cbn [map forallb]. rewrite well_formed_task_value, IH. reflexivity.
Qed.

(** ** Sorting *)

Section sorting.
Context {A K : Type} (key : A -> K) (leb : K -> K -> bool).
Hypothesis leb_total : forall a b, leb a b = false -> leb b a = true.
Hypothesis leb_trans :
  forall a b c, leb a b = true -> leb b c = true -> leb a c = true.

Let before (a b : A) : Prop := leb (key a) (key b) = true.

Lemma insert_by_perm (x : A) (l : list A) :
  Permutation (insert_by key leb x l) (x :: l).
Proof.
  induction l as [|y r IH]; simpl; [apply Permutation_refl|].
  destruct (leb (key x) (key y)); [apply Permutation_refl|].
  eapply Permutation_trans; [apply perm_skip, IH | apply perm_swap].
Qed.

Lemma py_sort_perm (l : list A) : Permutation (py_sort key leb l) l.
Proof.
  induction l as [|x r IH]; simpl; [constructor|].
  eapply Permutation_trans; [apply insert_by_perm | apply perm_skip, IH].
Qed.

Lemma insert_by_sorted (x : A) (l : list A) :
  StronglySorted before l -> StronglySorted before (insert_by key leb x l).
Proof.
  induction 1 as [|y r Sr IH Fy]; simpl; [repeat constructor|].
  destruct (leb (key x) (key y)) eqn:E.
  - constructor; [constructor; assumption|].
    constructor; [exact E|].
    eapply Forall_impl; [|exact Fy]. intros z Hz. unfold before in *.
    eapply leb_trans; eassumption.
  - constructor; [exact IH|].
    apply Forall_forall. intros z Hz.
    apply (Permutation_in _ (insert_by_perm x r)) in Hz.
    destruct Hz as [<-|Hz]; [apply leb_total; exact E|].
    rewrite Forall_forall in Fy. apply Fy; exact Hz.
Qed.

Lemma py_sort_sorted (l : list A) : StronglySorted before (py_sort key leb l).
Proof.
  induction l as [|x r IH]; simpl; [constructor|].
  apply insert_by_sorted; exact IH.
Qed.
End sorting.

Lemma tuple_leb_total (a b : Z * Z) :
  tuple_leb a b = false -> tuple_leb b a = true.
Proof.
  unfold tuple_leb. destruct a as [a1 a2], b as [b1 b2]; simpl.
  destruct (Z.ltb_spec a1 b1), (Z.eqb_spec a1 b1), (Z.leb_spec a2 b2),
    (Z.ltb_spec b1 a1), (Z.eqb_spec b1 a1), (Z.leb_spec b2 a2);
    simpl; intros; try reflexivity; try discriminate; lia.
Qed.

Lemma tuple_leb_trans (a b c : Z * Z) :
  tuple_leb a b = true -> tuple_leb b c = true -> tuple_leb a c = true.
Proof.
  unfold tuple_leb. destruct a as [a1 a2], b as [b1 b2], c as [c1 c2]; simpl.
  destruct (Z.ltb_spec a1 b1), (Z.eqb_spec a1 b1), (Z.leb_spec a2 b2),
    (Z.ltb_spec b1 c1), (Z.eqb_spec b1 c1), (Z.leb_spec b2 c2),
    (Z.ltb_spec a1 c1), (Z.eqb_spec a1 c1), (Z.leb_spec a2 c2);
    simpl; intros; try reflexivity; try discriminate; lia.
Qed.

Lemma sort_key_before (a b : Task) :
  tuple_leb (sort_key a) (sort_key b) = true <-> listed_before a b.
Proof.
  unfold tuple_leb, sort_key, listed_before, rank; simpl.
  generalize (dict_get_default (priority a) PRIORITIES 2%Z) as ra.
  generalize (dict_get_default (priority b) PRIORITIES 2%Z) as rb.
  intros rb ra.
  destruct (Z.ltb_spec (- ra) (- rb)), (Z.eqb_spec (- ra) (- rb)),
    (Z.leb_spec (id a) (id b)); simpl; split; intros; try discriminate;
    try reflexivity; lia.
Qed.

Lemma py_sort_listed (l : list Task) :
  StronglySorted listed_before (py_sort sort_key tuple_leb l).
Proof.
  pose proof (py_sort_sorted sort_key tuple_leb tuple_leb_total
                tuple_leb_trans l) as S.
  induction S as [|x r Sr IH Fx]; constructor; [exact IH|].
  eapply Forall_impl; [|exact Fx]. intros y; apply sort_key_before.
Qed.

Lemma filter_all (l : list Task) : filter (fun _ => true) l = l.
Proof. induction l as [|x r IH]; simpl; [|rewrite IH]; reflexivity. Qed.

Lemma status_filter (status : option str) (ts : list Task) :
  match status with
  | Some s =>
      if str_eqb s (py "completed") then filter completed ts
      else if str_eqb s (py "pending")
      then filter (fun t => negb (completed t)) ts
      else ts
  | None => ts
  end = filter (status_keeps status) ts.
Proof.
  unfold status_keeps. destruct status as [s|]; [|symmetry; apply filter_all].
  destruct (str_eqb s (py "completed")); [reflexivity|].
  destruct (str_eqb s (py "pending"));
    [reflexivity | symmetry; apply filter_all].
Qed.

Lemma priority_filter (p : option str) (r : list Task) :
  match p with
  | Some p' =>
      if negb (str_eqb p' []) && dict_mem (lower p') PRIORITIES
      then filter (fun t => str_eqb (priority t) (lower p')) r
      else r
  | None => r
  end = filter (priority_keeps p) r.
Proof.
  unfold priority_keeps. destruct p as [p'|]; [|symmetry; apply filter_all].
  destruct (str_eqb p' []) eqn:Ee.
  - apply str_eqb_eq in Ee. subst p'. simpl. symmetry; apply filter_all.
  - simpl. destruct (dict_mem (lower p') PRIORITIES);
      [reflexivity | symmetry; apply filter_all].
Qed.

Lemma list_tasks_loaded (st : TaskStorage) (ts : list Task)
  (status p : option str) :
  list_tasks status p (loaded st ts)
  = (Ret (py_sort sort_key tuple_leb
            (filter (priority_keeps p) (filter (status_keeps status) ts))),
     loaded st ts).
Proof.
  unfold list_tasks, bind, ret, tasks, loaded. cbn.
  rewrite status_filter, priority_filter. reflexivity.
Qed.

(** ** Statistics *)

Lemma py_sum_ones {A} (l : list A) :
  py_sum (map (fun _ => 1%Z) l) = Z.of_nat (List.length l).
Proof.
  unfold py_sum.
  assert (G : forall (l : list A) a,
             fold_left Z.add (map (fun _ => 1%Z) l) a
             = (a + Z.of_nat (List.length l))%Z).
  { induction l0 as [|x r IH]; intros a; simpl List.length; simpl fold_left.
    - lia.
    - rewrite IH. lia. }
  rewrite G. lia.
Qed.

Lemma count_cons (f : Task -> bool) (t : Task) (ts : list Task) :
  count f (t :: ts) = ((if f t then 1 else 0) + count f ts)%Z.
Proof.
  unfold count. simpl. destruct (f t); simpl List.length; lia.
Qed.

Lemma by_priority_step_counts (a b c : Z) (t : Task) :
  by_priority_step [(py "high", a); (py "medium", b); (py "low", c)] t
  = [(py "high", (a + if pending_with "high" t then 1 else 0)%Z);
     (py "medium", (b + if pending_with "medium" t then 1 else 0)%Z);
     (py "low", (c + if pending_with "low" t then 1 else 0)%Z)].
Proof.
  unfold by_priority_step, pending_with, dict_mem, dict_get_default.
  generalize (priority t) as p. generalize (completed t) as co. intros co p.
  cbn [dict_get dict_set].
  destruct (str_eqb p (py "high")) eqn:Eh.
  { apply str_eqb_eq in Eh. subst p. destruct co; cbn;
      repeat (f_equal; try lia). }
  destruct (str_eqb p (py "medium")) eqn:Em.
  { apply str_eqb_eq in Em. subst p. destruct co; cbn;
      repeat (f_equal; try lia). }
  destruct (str_eqb p (py "low")) eqn:El.
  { apply str_eqb_eq in El. subst p. destruct co; cbn;
      repeat (f_equal; try lia). }
  destruct co; cbn [negb andb]; rewrite ?Eh, ?Em, ?El;
    repeat (f_equal; try lia).
Qed.

Lemma by_priority_counts (ts : list Task) :
  forall a b c,
    fold_left by_priority_step ts
      [(py "high", a); (py "medium", b); (py "low", c)]
    = [(py "high", (a + count (pending_with "high") ts)%Z);
       (py "medium", (b + count (pending_with "medium") ts)%Z);
       (py "low", (c + count (pending_with "low") ts)%Z)].
Proof.
  induction ts as [|t r IH]; intros a b c.
  - unfold count; simpl. repeat (f_equal; try lia).
  - cbn [fold_left]. rewrite by_priority_step_counts, IH, !count_cons.
    repeat (f_equal; try lia).
Qed.

Lemma get_stats_loaded (st : TaskStorage) (ts : list Task) :
  get_stats (loaded st ts) = (Ret (stats_of ts), loaded st ts).
Proof.
  unfold get_stats, bind, ret, tasks, loaded. cbn [_tasks].
  rewrite by_priority_counts, py_sum_ones. reflexivity.
Qed.

Lemma method_any {A} (k : list Task -> M A) (m : TaskManager) :
  fresh_or_loaded m ->
  bind tasks k m = bind tasks k (loaded (storage m) (collection m)).
Proof.
  intros F. unfold bind. rewrite (tasks_collection F). reflexivity.
Qed.

Lemma count_partition (f : Task -> bool) (ts : list Task) :
  (count f ts + count (fun t => negb (f t)) ts
   = Z.of_nat (List.length ts))%Z.
Proof.
  induction ts as [|t r IH]; [reflexivity|].
  rewrite !count_cons. simpl List.length. rewrite Nat2Z.inj_succ.
  destruct (f t); cbn [negb]; lia.
Qed.

Lemma valid_priority_pending (ts : list Task) :
  Forall valid_priority ts ->
  (count (pending_with "high") ts + count (pending_with "medium") ts
   + count (pending_with "low") ts
   = Z.of_nat (List.length ts) - count completed ts)%Z.
Proof.
  induction 1 as [|t r Ht Hr IH]; [reflexivity|].
  rewrite !count_cons. simpl List.length. rewrite Nat2Z.inj_succ.
  assert (U : forall p, pending_with p t
                        = negb (completed t) && str_eqb (priority t) (py p))
    by reflexivity.
  rewrite !U.
  destruct Ht as [E|[E|E]]; rewrite E; destruct (completed t);
    cbn [negb andb];
    repeat match goal with
           | |- context [str_eqb (py ?a) (py ?b)] =>
               let v := eval vm_compute in (str_eqb (py a) (py b)) in
               change (str_eqb (py a) (py b)) with v
           end; cbv iota; lia.
Qed.

Lemma mutate_same (i : Z) (f : Task -> Task) (ts : list Task) :
  (forall t, f t = t) -> mutate i f ts = ts.
Proof.
  intros Hf; induction ts as [|t r IH]; simpl; [reflexivity|].
  destruct (Z.eqb (id t) i); [rewrite Hf | rewrite IH]; reflexivity.
Qed.

Lemma find_absent (i : Z) (ts : list Task) :
  ~ In i (map id ts) -> find (fun t => Z.eqb (id t) i) ts = None.
Proof.
  induction ts as [|t r IH]; simpl; [reflexivity|]. intros H.
  destruct (Z.eqb_spec (id t) i); [tauto|]. apply IH. tauto.
Qed.

Lemma filter_pending_again (ts : list Task) :
  filter pending (filter pending ts) = filter pending ts.
Proof.
  induction ts as [|t r IH]; simpl; [reflexivity|].
  destruct (pending t) eqn:E; simpl; rewrite ?E, IH; reflexivity.
Qed.

Lemma count_completed_pending (ts : list Task) :
  count completed (filter pending ts) = 0%Z.
Proof.
  induction ts as [|t r IH]; [reflexivity|]. simpl. unfold pending at 1.
  destruct (completed t) eqn:E; simpl; [exact IH|].
  rewrite count_cons, E, IH. reflexivity.
Qed.

(** ** The claims *)

(** C3: [list_tasks] keeps the tasks the status filter keeps, then those the
    priority filter keeps (compared in lower case, no filter for a value that
    is not high, medium or low), and returns them ordered by priority
    descending (high 3, medium 2, low 1) then id ascending; the manager is
    left as it was.  The tasks 1 low, 2 high, 3 high list as 2, 3, 1. *)
Theorem list_tasks_filtered_sorted :
  (forall st ts status p,
      exists result,
        list_tasks status p (loaded st ts) = (Ret result, loaded st ts)
        /\ Permutation result
             (filter (priority_keeps p) (filter (status_keeps status) ts))
        /\ StronglySorted listed_before result)
  /\ (forall st,
        let ts := [mk_task 1 "low" false; mk_task 2 "high" false;
                   mk_task 3 "high" false] in
        exists result,
          list_tasks None None (loaded st ts) = (Ret result, loaded st ts)
          /\ map id result = [2; 3; 1]%Z).
Proof.
  split.
  - intros st ts status p. eexists. split; [apply list_tasks_loaded|]. split.
    + apply py_sort_perm.
    + apply py_sort_listed.
  - intros st ts. eexists. split; [apply list_tasks_loaded|]. reflexivity.
Qed.

Unset Implicit Arguments.

Lemma _save_loaded (st : TaskStorage) (ts : list Task) :
  writable st = true ->
  _save (loaded st ts) = (Ret tt, loaded (written (tasks_value ts) st) ts).
Proof. intros W. apply (@_save_writable (loaded st ts) W). Qed.

Ltac on_loaded W :=
  methods; unfold tasks; cbn [loaded _tasks storage option_map];
  repeat (match goal with
          | |- context [_save {| storage := ?st; _tasks := Some ?ts |}] =>
              change (_save {| storage := st; _tasks := Some ts |})
                with (_save (loaded st ts));
              rewrite (_save_loaded st ts W)
          end; cbn [loaded _tasks storage]).

Lemma add_task_loaded (st : TaskStorage) (ts : list Task)
  (t p d now : str) :
  writable st = true ->
  let x := {| id := get_next_id ts; title := t; description := d;
              priority := if dict_mem (lower p) PRIORITIES
                          then lower p else py "medium";
              completed := false; created_at := now; completed_at := None |} in
  add_task t p d now (loaded st ts)
  = (Ret x, loaded (written (tasks_value (ts ++ [x])) st) (ts ++ [x])).
Proof. intros W x. on_loaded W. reflexivity. Qed.

Lemma update_task_loaded (st : TaskStorage) (ts : list Task) (i : Z)
  (t d p : option str) (x : Task) :
  writable st = true ->
  find (fun y => Z.eqb (id y) i) ts = Some x ->
  let ts' := mutate i (apply_update t d p) ts in
  update_task i t d p (loaded st ts)
  = (Ret (Some (apply_update t d p x)),
     loaded (written (tasks_value ts') st) ts').
Proof. intros W F ts'. on_loaded W. rewrite F. on_loaded W. reflexivity. Qed.

Lemma mutate_priority_same (i : Z) (f : Task -> Task) (ts : list Task) :
  (forall t, priority (f t) = priority t) ->
  map priority (mutate i f ts) = map priority ts.
Proof.
  intros Hf; induction ts as [|t r IH]; simpl; [reflexivity|].
  destruct (Z.eqb (id t) i); simpl; [rewrite Hf | rewrite IH]; reflexivity.
Qed.

Lemma apply_update_fields (t d : option str) (p : str) (x : Task) :
  dict_mem (lower p) PRIORITIES = false ->
  priority (apply_update t d (Some p) x) = priority x
  /\ title (apply_update t d (Some p) x)
     = match t with Some v => v | None => title x end
  /\ description (apply_update t d (Some p) x)
     = match d with Some v => v | None => description x end.
Proof.
  intros E. unfold apply_update. rewrite E. destruct t, d; simpl; auto.
Qed.

(** The task [get_task] finds is the first with that id; [mutate] changes
    it where it stands and nothing else. *)
Lemma mutate_first (i : Z) (f : Task -> Task) (ts : list Task) (x : Task) :
  find (fun y => Z.eqb (id y) i) ts = Some x ->
  exists l1 l2,
    ts = l1 ++ x :: l2
    /\ Forall (fun y => Z.eqb (id y) i = false) l1
    /\ id x = i
    /\ mutate i f ts = l1 ++ f x :: l2.
Proof.
  induction ts as [|t r IH]; simpl; [discriminate|].
  destruct (Z.eqb (id t) i) eqn:E.
  - intros [= ->]. exists [], r. repeat split; [constructor|].
    apply Z.eqb_eq, E.
  - intros F. destruct (IH F) as (l1 & l2 & -> & N & I & M).
    exists (t :: l1), l2. rewrite M. repeat split; auto.
Qed.

Lemma find_first (i : Z) (l1 l2 : list Task) (x : Task) :
  Forall (fun y => Z.eqb (id y) i = false) l1 -> id x = i ->
  find (fun y => Z.eqb (id y) i) (l1 ++ x :: l2) = Some x.
Proof.
  intros N I. induction N as [|y l Hy Hl IH]; simpl.
  - rewrite I, Z.eqb_refl. reflexivity.
  - rewrite Hy. exact IH.
Qed.

Lemma apply_update_keeps (t d p : option str) (x : Task) :
  id (apply_update t d p x) = id x
  /\ completed (apply_update t d p x) = completed x
  /\ created_at (apply_update t d p x) = created_at x
  /\ completed_at (apply_update t d p x) = completed_at x.
Proof.
  unfold apply_update.
  destruct t, d, p as [p|]; try destruct (dict_mem (lower p) PRIORITIES);
    simpl; auto.
Qed.

(** C4: with a priority that is none of high, medium, low after lower-casing,
    [add_task] creates the task with priority medium, while [update_task]
    keeps the task's priority and still applies the title and description
    given, in the collection it writes as in the task it returns: the first
    task with that id is replaced where it stands, its other fields kept, and
    no other task changes; and [update_task] on an existing task writes the
    collection to storage even when no field is given. *)
Theorem invalid_priority_add_update (st : TaskStorage) (ts : list Task)
  (p : str) :
  dict_mem (lower p) PRIORITIES = false ->
  writable st = true ->
  (forall t d now,
      exists x,
        add_task t p d now (loaded st ts)
        = (Ret x, loaded (written (tasks_value (ts ++ [x])) st) (ts ++ [x]))
        /\ priority x = py "medium")
  /\ (forall i t d x,
        find (fun y => Z.eqb (id y) i) ts = Some x ->
        exists x' ts',
          update_task i t d (Some p) (loaded st ts)
          = (Ret (Some x'), loaded (written (tasks_value ts') st) ts')
          /\ priority x' = priority x
          /\ title x' = match t with Some v => v | None => title x end
          /\ description x'
             = match d with Some v => v | None => description x end
          /\ map priority ts' = map priority ts
          /\ id x' = id x /\ completed x' = completed x
          /\ created_at x' = created_at x
          /\ completed_at x' = completed_at x
          /\ (exists l1 l2,
                ts = l1 ++ x :: l2 /\ ts' = l1 ++ x' :: l2
                /\ Forall (fun y => Z.eqb (id y) i = false) l1)
          /\ find (fun y => Z.eqb (id y) i) ts' = Some x')
  /\ (forall i x,
        find (fun y => Z.eqb (id y) i) ts = Some x ->
        update_task i None None None (loaded st ts)
        = (Ret (Some x), loaded (written (tasks_value ts) st) ts)
        /\ writes (written (tasks_value ts) st) = S (writes st)).
Proof.
  intros E W. split; [|split].
  - intros t d now. eexists. split; [apply add_task_loaded; exact W|].
    cbn [priority]. rewrite E. reflexivity.
  - intros i t d x F.
    exists (apply_update t d (Some p) x),
      (mutate i (apply_update t d (Some p)) ts).
    split; [apply update_task_loaded; [exact W | exact F]|].
    destruct (apply_update_fields t d p x E) as (A & B & C).
    destruct (apply_update_keeps t d (Some p) x) as (K1 & K2 & K3 & K4).
    destruct (mutate_first i (apply_update t d (Some p)) ts x F)
      as (l1 & l2 & S & N & I & M).
    split; [exact A|]. split; [exact B|]. split; [exact C|].
    split; [apply mutate_priority_same; intros y;
            apply (apply_update_fields t d p y E)|].
    split; [exact K1|]. split; [exact K2|]. split; [exact K3|].
    split; [exact K4|]. split.
    + exists l1, l2. split; [exact S|]. split; [exact M | exact N].
    + rewrite M. apply find_first; [exact N|]. rewrite K1. exact I.
  - intros i x F. split; [|reflexivity].
    rewrite (update_task_loaded st ts i None None None x W F).
    rewrite mutate_same by reflexivity. reflexivity.
Qed.

Lemma invalid_priority_add_update_witness :
  let st := empty_storage true true in
  let x := mk_task 1 "high" false in
  let ts := [mk_task 7 "low" true; x; mk_task 1 "low" false] in
  (exists y,
      add_task (py "t") (py "Bogus") [] (py "now") (loaded st ts)
      = (Ret y, loaded (written (tasks_value (ts ++ [y])) st) (ts ++ [y]))
      /\ priority y = py "medium")
  /\ (exists x' ts',
        update_task 1 (Some (py "new")) None (Some (py "Bogus")) (loaded st ts)
        = (Ret (Some x'), loaded (written (tasks_value ts') st) ts')
        /\ priority x' = py "high" /\ title x' = py "new"
        /\ description x' = description x
        /\ (exists l1 l2,
              ts = l1 ++ x :: l2 /\ ts' = l1 ++ x' :: l2
              /\ Forall (fun y => Z.eqb (id y) 1 = false) l1)
        /\ find (fun y => Z.eqb (id y) 1) ts' = Some x')
  /\ update_task 1 None None None (loaded st ts)
     = (Ret (Some x), loaded (written (tasks_value ts) st) ts).
Proof.
  intros st x ts.
  destruct (invalid_priority_add_update st ts (py "Bogus") eq_refl eq_refl)
    as (A & B & C).
  split; [apply A|]. split; [|apply (C 1%Z x eq_refl)].
  destruct (B 1%Z (Some (py "new")) None x eq_refl)
    as (x' & ts' & U & P & T & D & _ & _ & _ & _ & _ & L & F).
  exists x', ts'. auto 10.
Defined.

(** C6: [get_stats] returns the number of tasks, the number of completed
    tasks, their difference as pending, and per priority the number of tasks
    of that priority that are not completed; on high pending, high completed,
    low pending it returns 3, 1, 2, 1, 0, 1. *)
Theorem get_stats_counts :
  (forall st ts,
      get_stats (loaded st ts)
      = (Ret [(py "total", Z.of_nat (List.length ts));
              (py "completed", count completed ts);
              (py "pending",
               (Z.of_nat (List.length ts) - count completed ts)%Z);
              (py "high_priority", count (pending_with "high") ts);
              (py "medium_priority", count (pending_with "medium") ts);
              (py "low_priority", count (pending_with "low") ts)],
         loaded st ts))
  /\ (forall st,
        let ts := [mk_task 1 "high" false; mk_task 2 "high" true;
                   mk_task 3 "low" false] in
        get_stats (loaded st ts)
        = (Ret [(py "total", 3%Z); (py "completed", 1%Z);
                (py "pending", 2%Z); (py "high_priority", 1%Z);
                (py "medium_priority", 0%Z); (py "low_priority", 1%Z)],
           loaded st ts)).
Proof.
  split; intros; rewrite get_stats_loaded; reflexivity.
Qed.

Lemma clear_completed_loaded (st : TaskStorage) (ts : list Task) :
  clear_completed (loaded st ts)
  = if Z.ltb 0 (count completed ts)
    then
      match _save (loaded st (filter pending ts)) with
      | (Ret _, m) => (Ret (count completed ts), m)
      | (Raise e, m) => (Raise e, m)
      | (Beyond, m) => (Beyond, m)
      end
    else (Ret 0%Z, loaded st (filter pending ts)).
Proof.
  methods. unfold tasks. cbn [loaded _tasks storage].
  change (fun t : Task => negb (completed t)) with pending.
  assert (E : (Z.of_nat (List.length ts)
               - Z.of_nat (List.length (filter pending ts)))%Z
              = count completed ts).
  { pose proof (count_partition completed ts) as P.
    change (fun t : Task => negb (completed t)) with pending in P.
    unfold count in *. lia. }
  rewrite E. destruct (Z.ltb_spec 0 (count completed ts)) as [L|G].
  - change {| storage := st; _tasks := Some (filter pending ts) |}
      with (loaded st (filter pending ts)).
    destruct (_save (loaded st (filter pending ts))) as [[u|e|] m];
      reflexivity.
  - unfold ret. f_equal. f_equal. unfold count in *. lia.
Qed.

(** C7: [clear_completed] keeps the tasks that are not completed, in order,
    returns the number of completed tasks, and writes to storage exactly when
    that number is positive; called again at once, it returns 0 and changes
    nothing. *)
Theorem clear_completed_removes (st : TaskStorage) (ts : list Task) :
  writable st = true ->
  let removed := count completed ts in
  let kept := filter pending ts in
  let st' := if Z.ltb 0 removed then written (tasks_value kept) st else st in
  clear_completed (loaded st ts) = (Ret removed, loaded st' kept)
  /\ (forall t, In t kept <-> In t ts /\ completed t = false)
  /\ (removed = 0%Z -> st' = st /\ kept = ts)
  /\ ((0 < removed)%Z -> writes st' = S (writes st))
  /\ clear_completed (loaded st' kept) = (Ret 0%Z, loaded st' kept).
Proof.
  intros W removed kept st'. split; [|split; [|split; [|split]]].
  - rewrite clear_completed_loaded. subst st' removed kept.
    destruct (Z.ltb_spec 0 (count completed ts)) as [L|G].
    + rewrite (_save_loaded st _ W). reflexivity.
    + replace (count completed ts) with 0%Z by (unfold count in *; lia).
      reflexivity.
  - intros t. unfold kept. rewrite filter_In. unfold pending.
    rewrite negb_true_iff. tauto.
  - intros H. split; [subst st'; rewrite H; reflexivity|].
    subst kept. apply forallb_filter_id. apply forallb_forall. intros t Ht.
    unfold pending. destruct (completed t) eqn:E; [|reflexivity].
    exfalso. subst removed. unfold count in H.
    assert (I : In t (filter completed ts)) by (apply filter_In; auto).
    destruct (filter completed ts); [contradiction | simpl in H; lia].
  - intros H. subst st'. apply Z.ltb_lt in H. rewrite H. reflexivity.
  - rewrite clear_completed_loaded. subst kept.
    rewrite count_completed_pending, filter_pending_again. reflexivity.
Qed.

Lemma clear_completed_removes_witness :
  let st := empty_storage true true in
  let ts := [mk_task 1 "high" true; mk_task 2 "low" false;
             mk_task 3 "low" true; mk_task 4 "medium" false;
             mk_task 5 "high" false] in
  let kept := [mk_task 2 "low" false; mk_task 4 "medium" false;
               mk_task 5 "high" false] in
  let st' := written (tasks_value kept) st in
  clear_completed (loaded st ts) = (Ret 2%Z, loaded st' kept)
  /\ clear_completed (loaded st' kept) = (Ret 0%Z, loaded st' kept).
Proof.
  intros st ts kept st'.
  destruct (clear_completed_removes st ts eq_refl) as (A & _ & _ & _ & B).
  split; [exact A | exact B].
Defined.

(** C9: for an id that no task of the collection has, [complete_task],
    [uncomplete_task] and [update_task] return None and [delete_task]
    returns False; nothing is raised and the manager, its collection and its
    storage are as before. *)
Theorem not_found_is_a_result (st : TaskStorage) (ts : list Task) (i : Z) :
  ~ In i (map id ts) ->
  (forall now, complete_task i now (loaded st ts) = (Ret None, loaded st ts))
  /\ uncomplete_task i (loaded st ts) = (Ret None, loaded st ts)
  /\ (forall t d p,
        update_task i t d p (loaded st ts) = (Ret None, loaded st ts))
  /\ delete_task i (loaded st ts) = (Ret false, loaded st ts).
Proof.
  intros H. pose proof (find_absent i ts H) as F.
  pose proof (proj1 (find_pop_first i ts) F) as P.
  repeat split; intros; methods; unfold tasks; cbn [loaded _tasks storage];
    rewrite ?F, ?P; reflexivity.
Qed.

Lemma not_found_is_a_result_witness :
  let st := empty_storage true false in
  let ts := [mk_task 1 "high" false; mk_task 2 "low" true] in
  complete_task 999 (py "now") (loaded st ts) = (Ret None, loaded st ts)
  /\ delete_task 999 (loaded st ts) = (Ret false, loaded st ts).
Proof.
  intros st ts.
  assert (N : ~ In 999%Z (map id ts)).
  { simpl. intros [H|[H|[]]]; discriminate H. }
  destruct (not_found_is_a_result st ts 999%Z N) as (A & _ & _ & D).
  split; [apply A | exact D].
Defined.

(** C5: in every state reachable from an empty collection each task is
    completed exactly when its [completed_at] is set, and every call keeps
    that true of any manager for which it holds, whether the call returns or
    raises. *)
Theorem completed_iff_completed_at :
  (forall m, reachable m -> Forall consistent (collection m))
  /\ (forall c m,
        fresh_or_loaded m -> Forall consistent (collection m) ->
        Forall consistent (collection (snd (invoke c m)))).
Proof.
  split.
  - apply reachable_invariant; [constructor|]. apply effect_consistent.
  - intros c m F H. unfold collection at 1. rewrite (invoke_effect c F).
    apply effect_consistent; exact H.
Qed.

Lemma completed_iff_completed_at_witness :
  let m0 := new_manager (empty_storage true true) in
  let m1 := snd (invoke (AddTask (py "a") (py "high") [] (py "t0")) m0) in
  let m2 := snd (invoke (CompleteTask 1 (py "t1")) m1) in
  Forall consistent (collection m2)
  /\ Forall consistent
       (collection (snd (invoke (UncompleteTask 1)
                           (loaded (empty_storage true false)
                              [mk_task 1 "low" true])))).
Proof.
  intros m0 m1 m2. split.
  - apply (proj1 completed_iff_completed_at).
    apply reach_call, reach_call, reach_new.
  - apply (proj2 completed_iff_completed_at).
    + intros H; discriminate H.
    + constructor; [|constructor].
      split; [intros _; discriminate | reflexivity].
Defined.

Lemma get_stats_any (m : TaskManager) :
  fresh_or_loaded m ->
  get_stats m
  = (Ret (stats_of (collection m)), loaded (storage m) (collection m)).
Proof.
  intros F. rewrite <- get_stats_loaded. unfold get_stats.
  apply (@method_any _ _ m F).
Qed.

Lemma count_pending (ts : list Task) :
  (Z.of_nat (List.length ts) - count completed ts)%Z = count pending ts.
Proof.
  pose proof (count_partition completed ts) as P.
  change (fun t => negb (completed t)) with pending in P. lia.
Qed.

(** C10: in every state reachable from an empty collection each task's
    priority is one of high, medium, low, and so the three per-priority
    counts of [get_stats], which are there under their keys and count the
    not-completed tasks of each priority, add up to its pending count, the
    number of not-completed tasks. *)
Theorem priorities_valid (m : TaskManager) :
  reachable m ->
  Forall valid_priority (collection m)
  /\ exists stats m',
       get_stats m = (Ret stats, m')
       /\ (dict_get_default (py "high_priority") stats 0
           + dict_get_default (py "medium_priority") stats 0
           + dict_get_default (py "low_priority") stats 0
           = dict_get_default (py "pending") stats 0)%Z
       /\ exists h md l p,
            dict_get (py "high_priority") stats = Some h
            /\ dict_get (py "medium_priority") stats = Some md
            /\ dict_get (py "low_priority") stats = Some l
            /\ dict_get (py "pending") stats = Some p
            /\ h = count (pending_with "high") (collection m)
            /\ md = count (pending_with "medium") (collection m)
            /\ l = count (pending_with "low") (collection m)
            /\ p = count pending (collection m)
            /\ (h + md + l = p)%Z.
Proof.
  intros R.
  assert (V : Forall valid_priority (collection m)).
  { revert m R. apply reachable_invariant; [constructor|].
    apply effect_valid_priority. }
  split; [exact V|].
  exists (stats_of (collection m)), (loaded (storage m) (collection m)).
  split; [apply get_stats_any, reachable_fresh_or_loaded, R|].
  pose proof (@valid_priority_pending (collection m) V) as S.
  pose proof (count_pending (collection m)) as P.
  split; [exact S|].
  exists (count (pending_with "high") (collection m)),
    (count (pending_with "medium") (collection m)),
    (count (pending_with "low") (collection m)),
    (count pending (collection m)).
  repeat split; try reflexivity.
  - unfold stats_of. cbn [dict_get]. 
    change (str_eqb (py "pending") (py "total")) with false.
    change (str_eqb (py "pending") (py "completed")) with false.
    change (str_eqb (py "pending") (py "pending")) with true.
    cbv iota. rewrite P. reflexivity.
  - rewrite S, P. reflexivity.
Qed.

Lemma priorities_valid_witness :
  let m0 := new_manager (empty_storage true true) in
  let m1 := snd (invoke (AddTask (py "a") (py "URGENT") [] (py "t0")) m0) in
  let m2 := snd (invoke (UpdateTask 1 None None (Some (py "bogus"))) m1) in
  reachable m2
  /\ Forall valid_priority (collection m2)
  /\ exists stats m' h md l p,
       get_stats m2 = (Ret stats, m')
       /\ dict_get (py "high_priority") stats = Some h
       /\ dict_get (py "medium_priority") stats = Some md
       /\ dict_get (py "low_priority") stats = Some l
       /\ dict_get (py "pending") stats = Some p
       /\ (h + md + l = p)%Z.
Proof.
  intros m0 m1 m2.
  assert (R : reachable m2) by apply reach_call, reach_call, reach_new.
  split; [exact R|].
  destruct (priorities_valid m2 R)
    as (V & stats & m' & G & _ & h & md & l & p & H1 & H2 & H3 & H4
        & _ & _ & _ & _ & S).
  split; [exact V|]. exists stats, m', h, md, l, p. auto 10.
Defined.

Ltac saves W :=
  repeat (match goal with
          | |- context [_save {| storage := ?st; _tasks := Some ?ts |}] =>
              change (_save {| storage := st; _tasks := Some ts |})
                with (_save (loaded st ts));
              rewrite (_save_loaded st ts W)
          end; cbn [loaded _tasks storage]).

(** On a storage that can be written, every call returns. *)
Lemma invoke_total (c : call) (m : TaskManager) :
  fresh_or_loaded m -> writable (storage m) = true ->
  exists r m', invoke c m = (Ret r, m') /\ writable (storage m') = true.
Proof.
  intros F W. pose proof (tasks_collection F) as T.
  destruct c; methods; rewrite T; unfold tasks;
    cbn [loaded _tasks storage option_map];
    try destruct (find _ _); try destruct (pop_first _ _);
    try destruct (Z.ltb _ _);
    cbn [loaded _tasks storage option_map]; saves W;
    do 2 eexists; (split; [reflexivity | exact W]).
Qed.

Lemma run_total (cs : list call) :
  forall m, fresh_or_loaded m -> writable (storage m) = true ->
            exists rs m', run cs m = (Ret rs, m').
Proof.
  induction cs as [|c cs IH]; intros m F W; [do 2 eexists; reflexivity|].
  destruct (invoke_total c m F W) as (r & m1 & E & W1).
  assert (F1 : fresh_or_loaded m1).
  { unfold fresh_or_loaded. replace m1 with (snd (invoke c m))
      by (rewrite E; reflexivity).
    rewrite (invoke_effect c F). discriminate. }
  destruct (IH m1 F1 W1) as (rs & m' & E').
  exists (r :: rs), m'. simpl. unfold bind, ret. rewrite E, E'. reflexivity.
Qed.

Lemma run_reachable (cs : list call) :
  forall m, reachable m -> reachable (snd (run cs m)).
Proof.
  induction cs as [|c cs IH]; intros m R; [exact R|].
  simpl. unfold bind, ret.
  pose proof (reach_call c R) as R1.
  destruct (invoke c m) as [[r|e|] m1]; simpl in R1; try exact R1.
  specialize (IH m1 R1).
  destruct (run cs m1) as [[rs|e|] m2]; exact IH.
Qed.

Lemma add_task_any (t p d now : str) (m : TaskManager) :
  fresh_or_loaded m -> writable (storage m) = true ->
  exists x m',
    add_task t p d now m = (Ret x, m') /\ id x = get_next_id (collection m).
Proof.
  intros F W. unfold add_task. rewrite (@method_any _ _ m F).
  pose proof (add_task_loaded (storage m) (collection m) t p d now W) as A.
  cbv zeta in A. unfold add_task in A. rewrite A.
  do 2 eexists. split; reflexivity.
Qed.

Lemma run_writable (cs : list call) :
  forall m rs m', fresh_or_loaded m -> writable (storage m) = true ->
                  run cs m = (Ret rs, m') -> writable (storage m') = true.
Proof.
  induction cs as [|c cs IH]; intros m rs m' F W H.
  - injection H as _ <-. exact W.
  - apply run_cons in H. destruct H as (r & rs' & m1 & Hc & Hr & _).
    destruct (invoke_total c m F W) as (r0 & m0 & E & W1).
    rewrite E in Hc. injection Hc as _ <-.
    apply (IH m0 rs' m'); [|exact W1|exact Hr].
    unfold fresh_or_loaded. replace m0 with (snd (invoke c m))
      by (rewrite E; reflexivity).
    rewrite (invoke_effect c F). discriminate.
Qed.

(** C1 as the code has it: a script of calls on a manager over an empty,
    writable storage runs to its end; afterwards the ids in the collection
    are pairwise different and the next [add_task] returns a task whose id is
    greater than every id in the collection; and when the script has no
    [delete_task] and no [clear_completed], the ids its [add_task] calls
    returned are strictly increasing. *)
Theorem add_task_ids (r : bool) (cs : list call) :
  exists rs m',
    run cs (new_manager (empty_storage r true)) = (Ret rs, m')
    /\ NoDup (map id (collection m'))
    /\ (forall t p d now,
          exists x m'',
            add_task t p d now m' = (Ret x, m'')
            /\ Forall (fun y => (id y < id x)%Z) (collection m'))
    /\ (forallb (fun c => negb (removes c)) cs = true ->
        StronglySorted Z.lt (assigned_ids rs)).
Proof.
  set (m0 := new_manager (empty_storage r true)).
  assert (F0 : fresh_or_loaded m0) by (intros _; reflexivity).
  destruct (run_total cs m0 F0 eq_refl) as (rs & m' & E).
  assert (R : reachable m').
  { replace m' with (snd (run cs m0)) by (rewrite E; reflexivity).
    apply run_reachable, reach_new. }
  exists rs, m'. split; [exact E|]. split; [|split].
  - revert R. apply reachable_invariant with (P := fun ts => NoDup (map id ts));
      [constructor | intros; apply effect_NoDup; assumption].
  - intros t p d now.
    destruct (add_task_any t p d now m' (reachable_fresh_or_loaded R)
                (run_writable cs m0 rs m' F0 eq_refl E)) as (x & m'' & A & I).
    exists x, m''. split; [exact A|]. rewrite I. apply get_next_id_gt.
  - intros NR. apply (proj1 (@run_increasing cs m0 m' rs F0 NR E)).
Qed.

(** C1 as stated fails: after add, delete 1, add, both [add_task] calls
    returned id 1. *)
Lemma add_task_reuses_id :
  exists rs m',
    run [AddTask (py "a") (py "high") [] (py "t0"); DeleteTask 1;
         AddTask (py "b") (py "low") [] (py "t1")]
        (new_manager (empty_storage true true)) = (Ret rs, m')
    /\ assigned_ids rs = [1; 1]%Z
    /\ ~ StronglySorted Z.lt (assigned_ids rs)
    /\ ~ NoDup (assigned_ids rs).
Proof.
  do 2 eexists. split; [vm_compute; reflexivity|].
  split; [reflexivity|]. split.
  - intros S. inversion S as [|a l Sl Fa]; subst.
    inversion Fa as [|b l' H _]; subst. simpl in H. lia.
  - intros N. inversion N as [|a l Ha Nl]; subst. apply Ha. left. reflexivity.
Qed.

Lemma add_task_ids_witness :
  exists rs m',
    run [AddTask (py "a") (py "high") [] (py "t0");
         CompleteTask 1 (py "t1");
         AddTask (py "b") (py "low") [] (py "t2")]
        (new_manager (empty_storage true true)) = (Ret rs, m')
    /\ StronglySorted Z.lt (assigned_ids rs).
Proof.
  destruct (add_task_ids true
              [AddTask (py "a") (py "high") [] (py "t0");
               CompleteTask 1 (py "t1");
               AddTask (py "b") (py "low") [] (py "t2")])
    as (rs & m' & E & _ & _ & S).
  exists rs, m'. split; [exact E | apply S; reflexivity].
Defined.

Lemma only_json_cons_char (c : char) (o : outcome (str * str)) :
  only_json o -> only_json (cons_char c o).
Proof. destruct o as [[s r]|e|]; simpl; auto. Qed.

Lemma scanstring_only_json (n : nat) :
  forall s, List.length s <= n -> only_json (scanstring s).
Proof.
  induction n as [|n IH]; intros s H; destruct s as [|c r];
    simpl in H; try lia; try reflexivity.
  cbn [scanstring].
  repeat match goal with
         | |- only_json (Raise JSONDecodeError) => reflexivity
         | |- only_json (Ret _) => exact I
         | |- only_json (cons_char _ _) =>
             apply only_json_cons_char, IH; simpl in *; lia
         | |- only_json (if ?b then _ else _) => destruct b
         | |- only_json (match ?x with _ => _ end) => destruct x; simpl in H
         end.
Qed.

Lemma scan_number_only_json (s : str) : only_json (scan_number s).
Proof.
  unfold scan_number.
  destruct (match_integer s) as [[[neg u] rest]|].
  - destruct (float_tail rest); exact I.
  - destruct (strip_prefix _ s); [exact I|].
    destruct (strip_prefix _ s); [exact I|].
    destruct (strip_prefix _ s); [exact I | reflexivity].
Qed.

Ltac only_json_cases IHo IHa IHb :=
  repeat match goal with
         | |- only_json (Raise JSONDecodeError) => reflexivity
         | |- only_json (Ret _) => exact I
         | |- only_json Beyond => exact I
         | |- only_json (scan_number _) => apply scan_number_only_json
         | |- only_json (JSONArray _ _ _ _) => apply IHa
         | |- only_json (JSONObject _ _ _ _) => apply IHb
         | |- only_json (if ?b then _ else _) => destruct b
         | |- only_json (match scanstring ?s with _ => _ end) =>
             let H := fresh "H" in
             pose proof (@scanstring_only_json (List.length s) s (le_n _)) as H;
             destruct (scanstring s) as [[? ?]|?|]; simpl in H; subst
         | |- only_json (match scan_once ?f ?d ?s with _ => _ end) =>
             let H := fresh "H" in
             pose proof (IHo d s) as H;
             destruct (scan_once f d s) as [[? ?]|?|]; simpl in H; subst
         | |- only_json (match ?x with _ => _ end) => destruct x
         end.

(** The decoder raises nothing but JSONDecodeError. *)
Lemma scan_once_only_json (fuel : nat) :
  (forall room s, only_json (scan_once fuel room s))
  /\ (forall room s acc, only_json (JSONArray fuel room s acc))
  /\ (forall room s acc, only_json (JSONObject fuel room s acc)).
Proof.
  induction fuel as [|f (IHo & IHa & IHb)];
    [repeat split; intros; exact I|].
  split; [|split]; intros.
  - cbn [scan_once]. only_json_cases IHo IHa IHb.
  - cbn [JSONArray]. only_json_cases IHo IHa IHb.
  - cbn [JSONObject]. only_json_cases IHo IHa IHb.
Qed.

Lemma json_loads_only_json (s : str) : only_json (json_loads s).
Proof.
  unfold json_loads.
  pose proof (proj1 (scan_once_only_json (S (2 * List.length s)))
                max_nesting (skip_ws s)) as H.
  destruct (scan_once _ _) as [[v rest]|e|]; simpl in H.
  - destruct (skip_ws rest); [exact I | reflexivity].
  - exact H.
  - exact I.
Qed.

(** [load_tasks] raises exactly on a readable file that is not UTF-8, and
    then UnicodeDecodeError. *)
Lemma load_tasks_raises_iff (st : TaskStorage) (e : exn) :
  load_tasks st = Raise e <->
  e = UnicodeDecodeError
  /\ exists bs, data_file st = Some bs /\ readable st = true
                /\ utf8_decode bs = None.
Proof.
  unfold load_tasks. destruct (data_file st) as [bs|].
  - destruct (readable st).
    + destruct (utf8_decode bs) as [text|] eqn:U.
      * pose proof (json_loads_only_json text) as H.
        assert (N : ~ (e = UnicodeDecodeError
                       /\ exists bs', Some bs = Some bs' /\ true = true
                                       /\ utf8_decode bs' = None)).
        { intros (_ & bs' & [= <-] & _ & D). congruence. }
        destruct (json_loads text) as [v|e'|]; simpl in H; subst;
          split; try discriminate; intros K; contradiction.
      * split.
        -- intros [= <-]. split; [reflexivity|]. exists bs. auto.
        -- intros [-> _]. reflexivity.
    + split; [discriminate|]. intros (_ & bs' & _ & R & _). discriminate R.
  - split; [discriminate|]. intros (_ & bs' & D & _). discriminate D.
Qed.

(** Why the strings of a well-formed collection are text: a high surrogate
    followed by a low one is written as two escapes and read back as one
    code point. *)
Example surrogate_pair_is_joined :
  json_loads (json_dumps (VStr [55296; 56320]%N)) = Ret (VStr [65536%N]).
Proof. reflexivity. Qed.

(** What [load_tasks] recovers from: no file, a file that cannot be opened,
    and text that is not JSON all give the empty list. *)
Lemma load_tasks_recovers (st : TaskStorage) :
  (data_file st = None -> load_tasks st = Ret (VList []))
  /\ (readable st = false -> load_tasks st = Ret (VList []))
  /\ (forall bs text,
        data_file st = Some bs -> readable st = true ->
        utf8_decode bs = Some text ->
        json_loads text = Raise JSONDecodeError ->
        load_tasks st = Ret (VList [])).
Proof.
  unfold load_tasks. split; [|split].
  - intros ->. reflexivity.
  - intros ->. destruct (data_file st); reflexivity.
  - intros bs text -> -> -> ->. reflexivity.
Qed.

(** C2 at the failing input: a data file holding the single byte 0xFF, which
    is not UTF-8, makes [load_tasks] raise UnicodeDecodeError; the [except]
    clause catches JSONDecodeError and OSError only. *)
Theorem load_tasks_raises_on_invalid_utf8 :
  forall w n,
    load_tasks {| data_file := Some [Byte.xff]; readable := true;
                  writable := w; writes := n |}
    = Raise UnicodeDecodeError.
Proof. intros w n. reflexivity. Qed.

(** C8: after [save_tasks] of a well-formed collection (its strings are
    Unicode text) to a storage that can be written and read, [load_tasks]
    returns that collection, and a new manager on the storage holds it. *)
Theorem save_load_roundtrip (st : TaskStorage) (T : list Task) :
  forallb task_ok T = true ->
  writable st = true ->
  readable st = true ->
  exists st',
    save_tasks (tasks_value T) st = (Ret tt, st')
    /\ load_tasks st' = Ret (tasks_value T)
    /\ value_tasks (tasks_value T) = Some T
    /\ tasks (new_manager st') = (Ret T, loaded st' T).
Proof.
  intros OK W R. exists (written (tasks_value T) st).
  assert (L : load_tasks (written (tasks_value T) st) = Ret (tasks_value T)).
  { apply load_tasks_written; [|exact R].
    rewrite well_formed_tasks_value. exact OK. }
  split; [apply save_tasks_writable; exact W|].
  split; [exact L|]. split; [apply value_tasks_value|].
  unfold tasks, new_manager. cbn [_tasks storage].
  rewrite L, value_tasks_value. reflexivity.
Qed.

Lemma save_load_roundtrip_witness :
  let T := [mk_task 1 "high" true;
            {| id := 2; title := [34; 233; 128512; 10; 92]%N;
               description := py "second"; priority := py "low";
               completed := false; created_at := py "2024-01-01T00:00:00";
               completed_at := None |}] in
  exists st',
    save_tasks (tasks_value T) (empty_storage true true) = (Ret tt, st')
    /\ load_tasks st' = Ret (tasks_value T).
Proof.
  intros T.
  destruct (save_load_roundtrip (empty_storage true true) T
              eq_refl eq_refl eq_refl) as (st' & S & L & _).
  exists st'. split; [exact S | exact L].
Defined.

(* ================================================================== *)
(** * Further properties of the code *)

(** ** Further properties: identifiers and lookup *)

Lemma fold_max_in (xs : list Z) (x : Z) :
  fold_left Z.max xs x = x \/ In (fold_left Z.max xs x) xs.
Proof.
  revert x; induction xs as [|y xs IH]; intros x; simpl; [auto|].
  destruct (IH (Z.max x y)) as [E|I]; [|auto].
  rewrite E. destruct (Z.max_spec x y) as [[_ ->]|[_ ->]]; auto.
Qed.

(** X1: [get_next_id] is 1 on the empty collection and otherwise one more
    than the largest id: above every id, and its predecessor is an id of the
    collection (gaps left by removals are not filled). *)
Theorem get_next_id_is_max_plus_one (ts : list Task) :
  Forall (fun t => (id t < get_next_id ts)%Z) ts
  /\ ((ts = [] /\ get_next_id ts = 1%Z)
      \/ In (get_next_id ts - 1)%Z (map id ts)).
Proof.
  split; [apply get_next_id_gt|].
  destruct ts as [|t r]; [left; auto|right].
  unfold get_next_id, py_max.
  replace (fold_left Z.max (map id r) (id t) + 1 - 1)%Z
    with (fold_left Z.max (map id r) (id t)) by lia.
  simpl. destruct (fold_max_in (map id r) (id t)) as [->|I]; auto.
Qed.

Lemma ids_from_app (k : Z) (a b : nat) :
  ids_from k (a + b) = ids_from k a ++ ids_from (k + Z.of_nat a) b.
Proof.
  revert k; induction a as [|a IH]; intros k.
  - simpl. f_equal. lia.
  - cbn [Nat.add ids_from app]. rewrite IH. do 3 f_equal. lia.
Qed.

Lemma run_counts (cs : list call) :
  forall m m' rs,
    fresh_or_loaded m ->
    forallb (fun c => negb (removes c)) cs = true ->
    run cs m = (Ret rs, m') ->
    assigned_ids rs
    = ids_from (get_next_id (collection m))
               (List.length (filter is_add cs)).
Proof.
  induction cs as [|c cs IH]; intros m m' rs F NR H.
  - injection H as <- _. reflexivity.
  - apply run_cons in H. destruct H as (r & rs' & m1 & Hc & Hr & ->).
    simpl in NR. apply andb_true_iff in NR. destruct NR as [NRc NR].
    apply negb_true_iff in NRc.
    assert (E1 : _tasks m1 = Some (effect c (collection m))).
    { rewrite <- (invoke_effect c F), Hc. reflexivity. }
    assert (F1 : fresh_or_loaded m1).
    { unfold fresh_or_loaded. rewrite E1. discriminate. }
    pose proof (IH m1 m' rs' F1 NR Hr) as B.
    unfold collection in B. rewrite E1 in B.
    rewrite (effect_next_id c (collection m) NRc) in B.
    rewrite assigned_ids_cons, (invoke_assigned c F Hc), B.
    destruct c; reflexivity.
Qed.

(** X2: in a script without [delete_task] and [clear_completed], run on a
    manager over an empty writable storage, the add_task calls return the
    ids 1, 2, 3, ... in order. *)
Theorem add_task_ids_count_up (r : bool) (cs : list call) :
  forallb (fun c => negb (removes c)) cs = true ->
  exists rs m',
    run cs (new_manager (empty_storage r true)) = (Ret rs, m')
    /\ assigned_ids rs = ids_from 1 (List.length (filter is_add cs)).
Proof.
  intros NR. set (m0 := new_manager (empty_storage r true)).
  assert (F0 : fresh_or_loaded m0) by (intros _; reflexivity).
  destruct (run_total cs m0 F0 eq_refl) as (rs & m' & E).
  exists rs, m'. split; [exact E|].
  apply (run_counts cs m0 m' rs F0 NR E).
Qed.

Lemma add_task_ids_count_up_witness :
  exists rs m',
    run [AddTask (py "a") (py "high") [] (py "t0");
         CompleteTask 1 (py "t1");
         AddTask (py "b") (py "low") [] (py "t2");
         ListTasks None None;
         AddTask (py "c") (py "x") [] (py "t3")]
        (new_manager (empty_storage true true)) = (Ret rs, m')
    /\ assigned_ids rs = [1; 2; 3]%Z.
Proof.
  apply (add_task_ids_count_up true
           [AddTask (py "a") (py "high") [] (py "t0");
            CompleteTask 1 (py "t1");
            AddTask (py "b") (py "low") [] (py "t2");
            ListTasks None None;
            AddTask (py "c") (py "x") [] (py "t3")] eq_refl).
Defined.

Lemma find_snoc_fresh (i : Z) (ts : list Task) (x : Task) :
  id x = i -> ~ In i (map id ts) ->
  find (fun t => Z.eqb (id t) i) (ts ++ [x]) = Some x.
Proof.
  intros E; induction ts as [|t r IH]; simpl; intros N.
  - rewrite E, Z.eqb_refl. reflexivity.
  - destruct (Z.eqb_spec (id t) i); [tauto|]. apply IH. tauto.
Qed.

Lemma next_id_fresh (ts : list Task) : ~ In (get_next_id ts) (map id ts).
Proof.
  intros H. apply in_map_iff in H. destruct H as (t & E & I).
  pose proof (get_next_id_gt ts) as G. rewrite Forall_forall in G.
  specialize (G t I). lia.
Qed.

(** X3: the task [add_task] returned is the one [get_task] finds under its
    id right afterwards, whatever the collection held before. *)
Theorem get_task_after_add_task (st : TaskStorage) (ts : list Task)
  (t p d now : str) :
  writable st = true ->
  exists x m',
    add_task t p d now (loaded st ts) = (Ret x, m')
    /\ get_task (id x) m' = (Ret (Some x), m')
    /\ collection m' = ts ++ [x].
Proof.
  intros W. do 2 eexists. split; [apply add_task_loaded; exact W|].
  split; [|reflexivity].
  unfold get_task, bind, ret, tasks, loaded. cbn [_tasks].
  rewrite find_snoc_fresh; [reflexivity | reflexivity | apply next_id_fresh].
Qed.

Lemma get_task_after_add_task_witness :
  exists x m',
    add_task (py "t") (py "low") [] (py "now")
      (loaded (empty_storage true true)
         [mk_task 4 "high" false; mk_task 2 "low" true]) = (Ret x, m')
    /\ get_task (id x) m' = (Ret (Some x), m')
    /\ collection m'
       = [mk_task 4 "high" false; mk_task 2 "low" true] ++ [x].
Proof.
  apply (get_task_after_add_task (empty_storage true true)
           [mk_task 4 "high" false; mk_task 2 "low" true]
           (py "t") (py "low") [] (py "now") eq_refl).
Defined.

Lemma find_id_In (i : Z) (ts : list Task) (t : Task) :
  find (fun y => Z.eqb (id y) i) ts = Some t -> In t ts /\ id t = i.
Proof.
  intros H. apply find_some in H. destruct H as [I E].
  apply Z.eqb_eq in E. auto.
Qed.

Lemma In_find_id (i : Z) (ts : list Task) (t : Task) :
  NoDup (map id ts) -> In t ts -> id t = i ->
  find (fun y => Z.eqb (id y) i) ts = Some t.
Proof.
  induction ts as [|y r IH]; simpl; intros N I E; [contradiction|].
  inversion N as [|a l Ha Nl]; subst.
  destruct I as [->|I].
  - rewrite Z.eqb_refl. reflexivity.
  - destruct (Z.eqb_spec (id y) (id t)) as [Ey|_]; [|apply IH; auto].
    exfalso. apply Ha. rewrite Ey. apply in_map. exact I.
Qed.

(** X4: when the ids of the collection are pairwise different, as they are
    in every state reachable from an empty collection, [get_task] returns a
    task exactly when it is the task of the collection with that id, and
    leaves the manager as it was. *)
Theorem get_task_finds_the_task :
  (forall st ts i t,
      NoDup (map id ts) ->
      (get_task i (loaded st ts) = (Ret (Some t), loaded st ts)
       <-> In t ts /\ id t = i))
  /\ (forall m, reachable m -> NoDup (map id (collection m))).
Proof.
  split.
  - intros st ts i t N.
    assert (G : get_task i (loaded st ts)
                = (Ret (find (fun y => Z.eqb (id y) i) ts), loaded st ts))
      by reflexivity.
    rewrite G. split.
    + intros [= H]. apply find_id_In; exact H.
    + intros [I E]. rewrite (In_find_id i ts t N I E). reflexivity.
  - apply reachable_invariant with (P := fun ts => NoDup (map id ts));
      [constructor | intros; apply effect_NoDup; assumption].
Qed.

Lemma get_task_finds_the_task_witness :
  let ts := [mk_task 3 "high" false; mk_task 1 "low" true] in
  get_task 1 (loaded (empty_storage true true) ts)
  = (Ret (Some (mk_task 1 "low" true)), loaded (empty_storage true true) ts).
Proof.
  intros ts.
  apply (proj1 get_task_finds_the_task (empty_storage true true) ts 1%Z).
  - repeat constructor; simpl; intuition discriminate.
  - split; [right; left; reflexivity | reflexivity].
Defined.

(** ** Further properties: the mutating calls *)

Lemma complete_task_loaded (st : TaskStorage) (ts : list Task) (i : Z)
  (now : str) (x : Task) :
  writable st = true ->
  find (fun y => Z.eqb (id y) i) ts = Some x ->
  let ts' := mutate i (set_completion true (Some now)) ts in
  complete_task i now (loaded st ts)
  = (Ret (Some (set_completion true (Some now) x)),
     loaded (written (tasks_value ts') st) ts').
Proof. intros W F ts'. on_loaded W. rewrite F. on_loaded W. reflexivity. Qed.

Lemma uncomplete_task_loaded (st : TaskStorage) (ts : list Task) (i : Z)
  (x : Task) :
  writable st = true ->
  find (fun y => Z.eqb (id y) i) ts = Some x ->
  let ts' := mutate i (set_completion false None) ts in
  uncomplete_task i (loaded st ts)
  = (Ret (Some (set_completion false None x)),
     loaded (written (tasks_value ts') st) ts').
Proof. intros W F ts'. on_loaded W. rewrite F. on_loaded W. reflexivity. Qed.

Lemma delete_task_loaded (st : TaskStorage) (ts ts' : list Task) (i : Z) :
  writable st = true ->
  pop_first i ts = Some ts' ->
  delete_task i (loaded st ts)
  = (Ret true, loaded (written (tasks_value ts') st) ts').
Proof. intros W P. on_loaded W. rewrite P. on_loaded W. reflexivity. Qed.

Lemma find_mutate_found (i : Z) (f : Task -> Task) (ts : list Task)
  (x : Task) :
  (forall t, id (f t) = id t) ->
  find (fun y => Z.eqb (id y) i) ts = Some x ->
  find (fun y => Z.eqb (id y) i) (mutate i f ts) = Some (f x).
Proof.
  intros Hf; induction ts as [|t r IH]; simpl; [discriminate|].
  destruct (Z.eqb (id t) i) eqn:E; simpl.
  - intros [= <-]. rewrite Hf, E. reflexivity.
  - rewrite E. exact IH.
Qed.

Lemma mutate_mutate (i : Z) (f g : Task -> Task) (ts : list Task) :
  (forall t, id (f t) = id t) ->
  mutate i g (mutate i f ts) = mutate i (fun t => g (f t)) ts.
Proof.
  intros Hf; induction ts as [|t r IH]; simpl; [reflexivity|].
  destruct (Z.eqb (id t) i) eqn:E; simpl.
  - rewrite Hf, E. reflexivity.
  - rewrite E, IH. reflexivity.
Qed.

Lemma mutate_found_same (i : Z) (h : Task -> Task) (ts : list Task)
  (x : Task) :
  find (fun y => Z.eqb (id y) i) ts = Some x -> h x = x -> mutate i h ts = ts.
Proof.
  induction ts as [|t r IH]; simpl; [reflexivity|].
  destruct (Z.eqb (id t) i).
  - intros [= <-] ->. reflexivity.
  - intros F E. rewrite (IH F E). reflexivity.
Qed.

(** X5: completing a task that is not completed and then reopening it gives
    back the collection as it was: [complete_task] returns the task
    completed with [completed_at] set to the time given, and
    [uncomplete_task] after it returns the task as it was before. *)
Theorem complete_then_uncomplete (st : TaskStorage) (ts : list Task) (i : Z)
  (now : str) (x : Task) :
  writable st = true ->
  find (fun y => Z.eqb (id y) i) ts = Some x ->
  completed x = false -> completed_at x = None ->
  exists x1 m1 m2,
    complete_task i now (loaded st ts) = (Ret (Some x1), m1)
    /\ completed x1 = true /\ completed_at x1 = Some now
    /\ uncomplete_task i m1 = (Ret (Some x), m2)
    /\ collection m2 = ts.
Proof.
  intros W F C CA.
  assert (Back : set_completion false None (set_completion true (Some now) x)
                 = x).
  { destruct x; simpl in *; subst; reflexivity. }
  set (f := set_completion true (Some now)).
  set (ts1 := mutate i f ts).
  set (st1 := written (tasks_value ts1) st).
  set (ts2 := mutate i (set_completion false None) ts1).
  exists (f x), (loaded st1 ts1), (loaded (written (tasks_value ts2) st1) ts2).
  split; [apply (complete_task_loaded st ts i now x W F)|].
  split; [reflexivity|]. split; [reflexivity|]. split.
  - rewrite (uncomplete_task_loaded st1 ts1 i (f x) W).
    + unfold f. rewrite Back. reflexivity.
    + apply find_mutate_found; [reflexivity | exact F].
  - cbn [collection loaded _tasks]. unfold ts2, ts1.
    rewrite mutate_mutate by reflexivity.
    apply (mutate_found_same i _ ts x F Back).
Qed.

Lemma complete_then_uncomplete_witness :
  let st := empty_storage true true in
  let ts := [mk_task 1 "high" true; mk_task 2 "low" false] in
  exists x1 m1 m2,
    complete_task 2 (py "now") (loaded st ts) = (Ret (Some x1), m1)
    /\ uncomplete_task 2 m1 = (Ret (Some (mk_task 2 "low" false)), m2)
    /\ collection m2 = ts.
Proof.
  intros st ts.
  destruct (complete_then_uncomplete st ts 2%Z (py "now")
              (mk_task 2 "low" false) eq_refl eq_refl eq_refl eq_refl)
    as (x1 & m1 & m2 & A & _ & _ & B & C).
  exists x1, m1, m2. auto.
Defined.

Lemma has_id_In (i : Z) (ts : list Task) :
  has_id i ts = true <-> In i (map id ts).
Proof.
  unfold has_id. rewrite existsb_exists, in_map_iff.
  split; intros (t & A & B).
  - apply Z.eqb_eq in B. eauto.
  - exists t. rewrite Z.eqb_eq. auto.
Qed.

Lemma pop_first_present (i : Z) (ts : list Task) :
  In i (map id ts) -> exists ts', pop_first i ts = Some ts'.
Proof.
  intros H. destruct (pop_first i ts) as [ts'|] eqn:E; [eauto|].
  apply find_pop_first in E. exfalso.
  apply in_map_iff in H. destruct H as (t & Et & It).
  apply (find_none _ _ E) in It. rewrite Et, Z.eqb_refl in It. discriminate.
Qed.

Lemma find_none_not_In (i : Z) (l : list Task) :
  find (fun x => Z.eqb (id x) i) l = None -> ~ In i (map id l).
Proof.
  intros E H. apply in_map_iff in H. destruct H as (t & Et & It).
  apply (find_none _ _ E) in It. rewrite Et, Z.eqb_refl in It. discriminate.
Qed.

(** X6: [delete_task] with an id of the collection returns True, writes the
    collection, and removes exactly the first task with that id: the tasks
    before and after it stay in their order; when the ids are pairwise
    different the id is gone afterwards. *)
Theorem delete_task_removes_first (st : TaskStorage) (ts : list Task)
  (i : Z) :
  writable st = true ->
  In i (map id ts) ->
  exists l1 t l2,
    ts = l1 ++ t :: l2 /\ id t = i /\ ~ In i (map id l1)
    /\ delete_task i (loaded st ts)
       = (Ret true, loaded (written (tasks_value (l1 ++ l2)) st) (l1 ++ l2))
    /\ (NoDup (map id ts) ->
        get_task i (loaded st (l1 ++ l2)) = (Ret None, loaded st (l1 ++ l2))).
Proof.
  intros W H. destruct (pop_first_present i ts H) as (ts' & P).
  destruct (pop_first_split _ _ P) as (l1 & t & l2 & -> & -> & Et & Fl).
  exists l1, t, l2. split; [reflexivity|]. split; [exact Et|].
  split; [apply find_none_not_In; exact Fl|].
  split; [apply (delete_task_loaded st _ _ i W P)|].
  intros N. unfold get_task, bind, ret, tasks, loaded. cbn [_tasks].
  rewrite find_absent; [reflexivity|].
  rewrite map_app in *. simpl in N. apply NoDup_remove_2 in N.
  rewrite Et in N. exact N.
Qed.

Lemma delete_task_removes_first_witness :
  let st := empty_storage true true in
  let ts := [mk_task 1 "high" true; mk_task 2 "low" false;
             mk_task 3 "low" false] in
  exists l1 t l2,
    ts = l1 ++ t :: l2 /\ id t = 2%Z
    /\ delete_task 2 (loaded st ts)
       = (Ret true, loaded (written (tasks_value (l1 ++ l2)) st) (l1 ++ l2)).
Proof.
  intros st ts.
  destruct (delete_task_removes_first st ts 2%Z eq_refl)
    as (l1 & t & l2 & E & Et & N & D & _).
  - right; left; reflexivity.
  - exists l1, t, l2. auto.
Defined.

Lemma In_mutate (i : Z) (f : Task -> Task) (ts : list Task) (t' : Task) :
  In t' (mutate i f ts) -> In t' ts \/ exists t, In t ts /\ t' = f t.
Proof.
  induction ts as [|t r IH]; simpl; [tauto|].
  destruct (Z.eqb (id t) i); simpl.
  - intros [<-|H]; [right; exists t; auto | auto].
  - intros [<-|H]; [auto|]. destruct (IH H) as [I|(y & I & E)]; [auto|].
    right. exists y. auto.
Qed.

Lemma set_completion_fixed (c : bool) (a : option str) (t : Task) :
  id (set_completion c a t) = id t
  /\ created_at (set_completion c a t) = created_at t.
Proof. split; reflexivity. Qed.

Lemma In_pop_first (i : Z) (ts ts' : list Task) (t : Task) :
  pop_first i ts = Some ts' -> In t ts' -> In t ts.
Proof.
  intros P I. destruct (pop_first_split _ _ P) as (l1 & x & l2 & -> & -> & _).
  apply in_app_or in I. apply in_or_app. simpl. tauto.
Qed.

Lemma effect_origin (c : call) (ts : list Task) (t' : Task) :
  In t' (effect c ts) ->
  (exists t, In t ts /\ id t = id t' /\ created_at t = created_at t')
  \/ (is_add c = true /\ id t' = get_next_id ts /\ completed t' = false
      /\ completed_at t' = None).
Proof.
  assert (Same : In t' ts ->
                 exists t, In t ts /\ id t = id t'
                           /\ created_at t = created_at t')
    by (intros I; exists t'; auto).
  assert (Mut : forall i f,
             (forall t, id (f t) = id t /\ created_at (f t) = created_at t) ->
             In t' (mutate i f ts) ->
             exists t, In t ts /\ id t = id t'
                       /\ created_at t = created_at t').
  { intros i f Hf I. destruct (In_mutate i f ts t' I) as [H|(t & H & ->)];
      [auto|]. exists t. destruct (Hf t) as [-> ->]. auto. }
  destruct c; simpl; intros I; auto.
  - apply in_app_or in I. destruct I as [I|[<-|[]]]; [auto|].
    right. auto.
  - left. apply (Mut _ _ (set_completion_fixed _ _) I).
  - left. apply (Mut _ _ (set_completion_fixed _ _) I).
  - left. destruct (pop_first task_id ts) eqn:P; [|auto].
    apply Same. apply (In_pop_first _ _ _ _ P I).
  - left. apply (Mut task_id (apply_update title' description' priority')); [|exact I].
    intros t. destruct (apply_update_fixed title' description' priority' t)
      as (A & _ & _ & B). auto.
  - left. apply filter_In in I. apply Same, I.
Qed.

Lemma effect_keeps_ids (c : call) (ts : list Task) (i : Z) :
  removes c = false -> In i (map id ts) -> In i (map id (effect c ts)).
Proof.
  destruct c; simpl; intros R I; try discriminate; auto.
  - rewrite map_app. apply in_or_app. auto.
  - rewrite map_id_mutate; auto.
  - rewrite map_id_mutate; auto.
  - rewrite map_id_mutate; auto. intros t; apply apply_update_fixed.
Qed.

(** X7: no call changes the id or the [created_at] of a task: after any
    call, returned or raised, every task of the collection is the task
    [add_task] just built or has the id and [created_at] of a task that was
    there before; and only [delete_task] and [clear_completed] make an id
    disappear. *)
Theorem ids_and_created_at_are_kept (c : call) (m : TaskManager) :
  fresh_or_loaded m ->
  (forall t',
      In t' (collection (snd (invoke c m))) ->
      (exists t, In t (collection m) /\ id t = id t'
                 /\ created_at t = created_at t')
      \/ (is_add c = true /\ id t' = get_next_id (collection m)
          /\ completed t' = false /\ completed_at t' = None))
  /\ (removes c = false ->
      forall i, In i (map id (collection m)) ->
                In i (map id (collection (snd (invoke c m))))).
Proof.
  intros F.
  assert (E : collection (snd (invoke c m)) = effect c (collection m)).
  { unfold collection at 1. rewrite (invoke_effect c F). reflexivity. }
  rewrite E. split.
  - intros t'. apply effect_origin.
  - intros R i. apply effect_keeps_ids; exact R.
Qed.

Lemma ids_and_created_at_are_kept_witness :
  let m := loaded (empty_storage true false)
             [mk_task 1 "high" false; mk_task 2 "low" true] in
  fresh_or_loaded m
  /\ In 2%Z (map id (collection (snd (invoke (CompleteTask 1 (py "n")) m)))).
Proof.
  intros m.
  assert (F : fresh_or_loaded m) by (intros H; discriminate H).
  split; [exact F|].
  apply (proj2 (ids_and_created_at_are_kept (CompleteTask 1 (py "n")) m F)
           eq_refl 2%Z).
  right; left; reflexivity.
Defined.

(** X8: [update_task] with a priority that is high, medium or low in any
    letter case stores its lower-case form, applies the title and the
    description given, keeps id, completion and timestamps, and returns the
    updated task. *)
Theorem update_task_valid_priority (st : TaskStorage) (ts : list Task)
  (i : Z) (t d : option str) (p : str) (x : Task) :
  writable st = true ->
  find (fun y => Z.eqb (id y) i) ts = Some x ->
  dict_mem (lower p) PRIORITIES = true ->
  exists x' ts',
    update_task i t d (Some p) (loaded st ts)
    = (Ret (Some x'), loaded (written (tasks_value ts') st) ts')
    /\ get_task i (loaded st ts') = (Ret (Some x'), loaded st ts')
    /\ priority x' = lower p /\ valid_priority x'
    /\ title x' = match t with Some v => v | None => title x end
    /\ description x' = match d with Some v => v | None => description x end
    /\ id x' = id x /\ completed x' = completed x
    /\ completed_at x' = completed_at x /\ created_at x' = created_at x.
Proof.
  intros W F V. do 2 eexists.
  split; [apply (update_task_loaded st ts i t d (Some p) x W F)|].
  split.
  { unfold get_task, bind, ret, tasks, loaded. cbn [_tasks].
    rewrite (find_mutate_found i _ ts x); [reflexivity | | exact F].
    intros y; apply apply_update_fixed. }
  assert (P : priority (apply_update t d (Some p) x) = lower p).
  { unfold apply_update. rewrite V. reflexivity. }
  split; [exact P|]. split.
  { unfold valid_priority. rewrite P. apply PRIORITIES_mem. exact V. }
  unfold apply_update. rewrite V. destruct t, d; simpl; auto 10.
Qed.

Lemma update_task_valid_priority_witness :
  let st := empty_storage true true in
  let ts := [mk_task 1 "high" true; mk_task 2 "low" false] in
  exists x' ts',
    update_task 2 (Some (py "new")) None (Some (py "HiGh")) (loaded st ts)
    = (Ret (Some x'), loaded (written (tasks_value ts') st) ts')
    /\ priority x' = py "high" /\ title x' = py "new".
Proof.
  intros st ts.
  destruct (update_task_valid_priority st ts 2%Z (Some (py "new")) None
              (py "HiGh") (mk_task 2 "low" false) eq_refl eq_refl eq_refl)
    as (x' & ts' & U & _ & P & _ & T & _).
  exists x', ts'. auto.
Defined.

(** ** Further properties: what reaches the storage *)

Lemma _save_loaded_raises (st : TaskStorage) (ts : list Task) :
  writable st = false -> _save (loaded st ts) = (Raise OSError, loaded st ts).
Proof.
  intros W. unfold _save, loaded. cbn [storage _tasks].
  rewrite save_tasks_not_writable by exact W. reflexivity.
Qed.

Lemma _save_loaded_cases (st : TaskStorage) (ts : list Task) :
  _save (loaded st ts)
  = if writable st
    then (Ret tt, loaded (written (tasks_value ts) st) ts)
    else (Raise OSError, loaded st ts).
Proof.
  destruct (writable st) eqn:W;
    [apply _save_loaded | apply _save_loaded_raises]; exact W.
Qed.

Lemma find_has_id (i : Z) (ts : list Task) :
  has_id i ts = match find (fun y => Z.eqb (id y) i) ts with
                | Some _ => true
                | None => false
                end.
Proof.
  unfold has_id. induction ts as [|t r IH]; simpl; [reflexivity|].
  destruct (Z.eqb (id t) i); [reflexivity | exact IH].
Qed.

Lemma pop_first_has_id (i : Z) (ts : list Task) :
  has_id i ts = match pop_first i ts with
                | Some _ => true
                | None => false
                end.
Proof.
  unfold has_id. induction ts as [|t r IH]; simpl; [reflexivity|].
  destruct (Z.eqb (id t) i); [reflexivity|]. rewrite IH.
  destruct (pop_first i r); reflexivity.
Qed.

Lemma existsb_completed_count (ts : list Task) :
  Z.ltb 0 (count completed ts) = existsb completed ts.
Proof.
  induction ts as [|t r IH]; [reflexivity|].
  rewrite count_cons. cbn [existsb]. destruct (completed t); cbn [orb].
  - apply Z.ltb_lt. pose proof (Nat2Z.is_nonneg (List.length (filter completed r))) as P.
    unfold count. lia.
  - rewrite Z.add_0_l. exact IH.
Qed.

Lemma filter_pending_none_completed (ts : list Task) :
  existsb completed ts = false -> filter pending ts = ts.
Proof.
  induction ts as [|t r IH]; simpl; [reflexivity|]. unfold pending at 1.
  destruct (completed t); simpl; [discriminate|].
  intros H. rewrite (IH H). reflexivity.
Qed.

Ltac saves_cases :=
  repeat (match goal with
          | |- context [_save {| storage := ?st; _tasks := Some ?ts |}] =>
              change (_save {| storage := st; _tasks := Some ts |})
                with (_save (loaded st ts));
              rewrite (_save_loaded_cases st ts)
          end; cbn [loaded _tasks storage]).

(** Closes [exists r, x = y] where [r] may not occur in the equation. *)
Ltac some_result :=
  first [eexists; reflexivity | exists (RBool false); reflexivity].

(** A call on a loaded manager: when it reaches [_save] it returns with the
    storage written, or raises OSError with the storage untouched and the
    collection already changed; when it does not, nothing changes. *)
Lemma invoke_loaded (c : call) (st : TaskStorage) (ts : list Task) :
  exists r,
    invoke c (loaded st ts)
    = if saves c ts
      then if writable st
           then (Ret r, loaded (written (tasks_value (effect c ts)) st)
                               (effect c ts))
           else (Raise OSError, loaded st (effect c ts))
      else (Ret r, loaded st ts).
Proof.
  destruct c; cbn [saves effect];
    [ | | | rewrite find_has_id | rewrite find_has_id
    | rewrite pop_first_has_id | rewrite find_has_id | | ];
    methods; unfold tasks; cbn [loaded _tasks storage option_map].
  - saves_cases. destruct (writable st); some_result.
  - some_result.
  - some_result.
  - destruct (find _ ts); cbn [loaded _tasks storage option_map];
      saves_cases; [destruct (writable st)|]; some_result.
  - destruct (find _ ts); cbn [loaded _tasks storage option_map];
      saves_cases; [destruct (writable st)|]; some_result.
  - destruct (pop_first task_id ts); cbn [loaded _tasks storage option_map];
      saves_cases; [destruct (writable st)|]; some_result.
  - destruct (find _ ts); cbn [loaded _tasks storage option_map];
      saves_cases; [destruct (writable st)|]; some_result.
  - some_result.
  - pose proof (clear_completed_loaded st ts) as C.
    unfold clear_completed, bind, ret, set_tasks, tasks in C.
    cbn [loaded _tasks storage] in C. rewrite C.
    rewrite existsb_completed_count.
    destruct (existsb completed ts) eqn:E.
    + rewrite _save_loaded_cases. destruct (writable st); some_result.
    + rewrite (filter_pending_none_completed ts E). some_result.
Qed.

Lemma effect_no_save (c : call) (ts : list Task) :
  saves c ts = false -> effect c ts = ts.
Proof.
  destruct c; cbn [saves effect]; try discriminate; try reflexivity;
    intros H.
  - rewrite find_has_id in H.
    apply find_mutate. destruct (find _ ts); [discriminate|reflexivity].
  - rewrite find_has_id in H.
    apply find_mutate. destruct (find _ ts); [discriminate|reflexivity].
  - rewrite pop_first_has_id in H.
    destruct (pop_first task_id ts); [discriminate|reflexivity].
  - rewrite find_has_id in H.
    apply find_mutate. destruct (find _ ts); [discriminate|reflexivity].
  - apply (filter_pending_none_completed ts H).
Qed.

(** X9: on a storage that cannot be written, a call that would save raises
    OSError after it has changed the collection: the manager then holds the
    changed collection and the storage is untouched.  A call that does not
    save (a query, an id that is not there, nothing to clear) returns and
    changes nothing. *)
Theorem failed_save_keeps_the_change (c : call) (st : TaskStorage)
  (ts : list Task) :
  writable st = false ->
  (saves c ts = true ->
   invoke c (loaded st ts) = (Raise OSError, loaded st (effect c ts)))
  /\ (saves c ts = false ->
      exists r, invoke c (loaded st ts) = (Ret r, loaded st ts)).
Proof.
  intros W. destruct (invoke_loaded c st ts) as (r & E). rewrite W in E.
  split; intros S; rewrite S in E; [exact E | exists r; exact E].
Qed.

Lemma failed_save_keeps_the_change_witness :
  let st := empty_storage true false in
  let ts := [mk_task 1 "high" false] in
  invoke (CompleteTask 1 (py "now")) (loaded st ts)
  = (Raise OSError, loaded st [set_completion true (Some (py "now"))
                                 (mk_task 1 "high" false)])
  /\ exists r, invoke (DeleteTask 7) (loaded st ts) = (Ret r, loaded st ts).
Proof.
  intros st ts.
  destruct (failed_save_keeps_the_change (CompleteTask 1 (py "now")) st ts
              eq_refl) as [A _].
  destruct (failed_save_keeps_the_change (DeleteTask 7) st ts eq_refl)
    as [_ B].
  split; [apply A; reflexivity | apply B; reflexivity].
Defined.

(** ** Further properties: the storage follows the collection *)

Lemma load_tasks_document (st : TaskStorage) (ts : list Task) :
  data_file st = Some (document ts) -> readable st = true ->
  forallb task_ok ts = true ->
  load_tasks st = Ret (tasks_value ts).
Proof.
  intros D R OK. unfold load_tasks. rewrite D, R. unfold document.
  rewrite utf8_decode_ascii by apply iterencode_ascii.
  rewrite json_loads_dumps; [reflexivity | |].
  - rewrite well_formed_tasks_value. exact OK.
  - pose proof (depth_tasks_value ts). unfold max_nesting. lia.
Qed.

Lemma holds_reloads (st : TaskStorage) (ts : list Task) :
  holds st ts -> readable st = true -> forallb task_ok ts = true ->
  reloads st ts.
Proof.
  intros [[D ->]|D] R OK; unfold reloads, tasks, new_manager;
    cbn [_tasks storage].
  - unfold load_tasks. rewrite D. reflexivity.
  - rewrite (load_tasks_document st ts D R OK), value_tasks_value.
    reflexivity.
Qed.

Lemma invoke_new_manager (c : call) (st : TaskStorage) (ts : list Task) :
  reloads st ts -> invoke c (new_manager st) = invoke c (loaded st ts).
Proof.
  unfold reloads. intros H.
  destruct c; methods; rewrite H; unfold tasks;
    cbn [loaded _tasks storage]; reflexivity.
Qed.

Lemma lower_valid_text (p : str) :
  dict_mem p PRIORITIES = true -> text_ok p = true.
Proof.
  intros H. apply PRIORITIES_mem in H.
  destruct H as [->|[->| ->]]; reflexivity.
Qed.

Lemma forallb_mutate (P : Task -> bool) (i : Z) (f : Task -> Task)
  (ts : list Task) :
  (forall t, P t = true -> P (f t) = true) ->
  forallb P ts = true -> forallb P (mutate i f ts) = true.
Proof.
  intros Hf; induction ts as [|t r IH]; simpl; [auto|].
  intros H. apply andb_true_iff in H. destruct H as [H1 H2].
  destruct (Z.eqb (id t) i); simpl; apply andb_true_iff; auto.
Qed.

Lemma effect_task_ok (c : call) (ts : list Task) :
  call_ok c = true -> forallb task_ok ts = true ->
  forallb task_ok (effect c ts) = true.
Proof.
  intros C OK. destruct c; cbn [effect call_ok] in *; try exact OK.
  - rewrite forallb_app, OK. cbn [forallb]. rewrite andb_true_r.
    apply andb_true_iff in C. destruct C as [C Cn].
    apply andb_true_iff in C. destruct C as [Ct Cd].
    unfold task_ok. cbn [title description priority created_at completed_at].
    rewrite Ct, Cd, Cn.
    destruct (dict_mem (lower priority') PRIORITIES) eqn:E;
      [rewrite (lower_valid_text _ E)|]; reflexivity.
  - apply forallb_mutate; [|exact OK]. intros t. unfold task_ok. simpl.
    rewrite C, !andb_true_r. intros H.
    apply andb_true_iff in H. apply H.
  - apply forallb_mutate; [|exact OK]. intros t. unfold task_ok. simpl.
    rewrite !andb_true_r. intros H. apply andb_true_iff in H. apply H.
  - destruct (pop_first task_id ts) eqn:P; [|exact OK].
    apply forallb_forall. intros t I.
    rewrite forallb_forall in OK. apply OK. apply (In_pop_first _ _ _ _ P I).
  - apply forallb_mutate; [|exact OK]. intros t.
    apply andb_true_iff in C. destruct C as [Ct Cd].
    unfold task_ok, apply_update.
    destruct title' as [a|], description' as [b|], priority' as [p|];
      try destruct (dict_mem (lower p) PRIORITIES) eqn:E; simpl in *;
      rewrite ?Ct, ?Cd, ?(lower_valid_text _ E); intros H;
      repeat (apply andb_true_iff in H; destruct H as [H ?]);
      repeat (apply andb_true_iff; split); auto.
  - apply forallb_forall. intros t I. apply filter_In in I.
    rewrite forallb_forall in OK. apply OK, I.
Qed.

Lemma invoke_holds (c : call) (st : TaskStorage) (ts : list Task) :
  writable st = true -> holds st ts ->
  exists r st',
    invoke c (loaded st ts) = (Ret r, loaded st' (effect c ts))
    /\ holds st' (effect c ts)
    /\ writable st' = true /\ readable st' = readable st.
Proof.
  intros W H. destruct (invoke_loaded c st ts) as (r & E). rewrite W in E.
  destruct (saves c ts) eqn:S.
  - exists r, (written (tasks_value (effect c ts)) st).
    split; [exact E|]. split; [right; reflexivity|]. split; [exact W|].
    reflexivity.
  - exists r, st. rewrite (effect_no_save c ts S). auto.
Qed.

Lemma run_commands (cs : list call) :
  forall st ts,
    writable st = true -> readable st = true ->
    forallb task_ok ts = true -> holds st ts ->
    forallb call_ok cs = true ->
    exists rs st' ts',
      run cs (loaded st ts) = (Ret rs, loaded st' ts')
      /\ commands cs st = (Ret rs, st')
      /\ holds st' ts' /\ forallb task_ok ts' = true
      /\ writable st' = true /\ readable st' = true.
Proof.
  induction cs as [|c cs IH]; intros st ts W R OK H C.
  - exists [], st, ts. auto 10.
  - simpl in C. apply andb_true_iff in C. destruct C as [Cc C].
    destruct (invoke_holds c st ts W H) as (r & st1 & E & H1 & W1 & R1).
    rewrite R in R1.
    pose proof (effect_task_ok c ts Cc OK) as OK1.
    destruct (IH st1 (effect c ts) W1 R1 OK1 H1 C)
      as (rs & st' & ts' & Er & Ec & H' & OK' & W' & R').
    exists (r :: rs), st', ts'.
    split; [simpl; unfold bind, ret; rewrite E, Er; reflexivity|].
    split; [|auto].
    simpl. unfold command, get_manager.
    rewrite (invoke_new_manager c st ts (holds_reloads st ts H R OK)), E.
    cbn [storage loaded]. rewrite Ec. reflexivity.
Qed.

(** X10: the storage follows the collection.  A manager holds a collection
    of text and its storage, which can be read and written, holds that
    collection (or no file, the collection being empty).  After any script
    whose string arguments are text, every call has returned, the file is
    the document of the collection the manager now holds (or is still
    absent, the collection being empty), and a new manager on that storage
    loads exactly that collection. *)
Theorem storage_follows_collection (cs : list call) (st : TaskStorage)
  (ts : list Task) :
  writable st = true -> readable st = true ->
  forallb task_ok ts = true -> holds st ts ->
  forallb call_ok cs = true ->
  exists rs st' ts',
    run cs (loaded st ts) = (Ret rs, loaded st' ts')
    /\ holds st' ts'
    /\ tasks (get_manager st') = (Ret ts', loaded st' ts').
Proof.
  intros W R OK H C.
  destruct (run_commands cs st ts W R OK H C)
    as (rs & st' & ts' & Er & _ & H' & OK' & _ & R').
  exists rs, st', ts'. split; [exact Er|]. split; [exact H'|].
  apply (holds_reloads st' ts' H' R' OK').
Qed.

Lemma storage_follows_collection_witness :
  exists rs st' ts',
    run [AddTask (py "a") (py "high") [] (py "t0");
         CompleteTask 1 (py "t1"); DeleteTask 5; ClearCompleted]
        (loaded (empty_storage true true) []) = (Ret rs, loaded st' ts')
    /\ holds st' ts'
    /\ tasks (get_manager st') = (Ret ts', loaded st' ts').
Proof.
  apply (storage_follows_collection
           [AddTask (py "a") (py "high") [] (py "t0");
            CompleteTask 1 (py "t1"); DeleteTask 5; ClearCompleted]
           (empty_storage true true) [] eq_refl eq_refl eq_refl).
  - left. split; reflexivity.
  - reflexivity.
Defined.

(** X11: one process per command.  On a storage as in X10, a sequence of
    commands, each run by a new manager from [get_manager], returns what one
    manager holding the stored collection returns for the same calls, and
    leaves the same storage. *)
Theorem commands_as_one_session (cs : list call) (st : TaskStorage)
  (ts : list Task) :
  writable st = true -> readable st = true ->
  forallb task_ok ts = true -> holds st ts ->
  forallb call_ok cs = true ->
  exists rs m',
    run cs (loaded st ts) = (Ret rs, m')
    /\ commands cs st = (Ret rs, storage m').
Proof.
  intros W R OK H C.
  destruct (run_commands cs st ts W R OK H C)
    as (rs & st' & ts' & Er & Ec & _).
  exists rs, (loaded st' ts'). split; [exact Er | exact Ec].
Qed.

Lemma commands_as_one_session_witness :
  exists rs m',
    run [AddTask (py "a") (py "high") [] (py "t0");
         AddTask (py "b") (py "LOW") (py "d") (py "t1");
         CompleteTask 2 (py "t2"); ListTasks (Some (py "pending")) None]
        (loaded (empty_storage true true) []) = (Ret rs, m')
    /\ commands
         [AddTask (py "a") (py "high") [] (py "t0");
          AddTask (py "b") (py "LOW") (py "d") (py "t1");
          CompleteTask 2 (py "t2"); ListTasks (Some (py "pending")) None]
         (empty_storage true true) = (Ret rs, storage m').
Proof.
  apply (commands_as_one_session
           [AddTask (py "a") (py "high") [] (py "t0");
            AddTask (py "b") (py "LOW") (py "d") (py "t1");
            CompleteTask 2 (py "t2"); ListTasks (Some (py "pending")) None]
           (empty_storage true true) [] eq_refl eq_refl eq_refl).
  - left. split; reflexivity.
  - reflexivity.
Defined.

(** ** Further properties: listing and counting *)

Lemma Permutation_filter_task (f : Task -> bool) (l l' : list Task) :
  Permutation l l' -> Permutation (filter f l) (filter f l').
Proof.
  induction 1 as [|x l l' P IH|x y l|l l' l'' P1 IH1 P2 IH2]; simpl.
  - constructor.
  - destruct (f x); [constructor|]; exact IH.
  - destruct (f x), (f y); try apply Permutation_refl. apply perm_swap.
  - eapply Permutation_trans; eassumption.
Qed.

Lemma sorted_perm_unique (R : Task -> Task -> Prop) (l1 : list Task) :
  forall l2,
    StronglySorted R l1 -> StronglySorted R l2 -> Permutation l1 l2 ->
    (forall a b, In a l1 -> In b l1 -> R a b -> R b a -> a = b) ->
    l1 = l2.
Proof.
  induction l1 as [|a r1 IH]; intros l2 S1 S2 P A.
  - apply Permutation_nil in P. auto.
  - destruct l2 as [|b r2];
      [apply Permutation_sym, Permutation_nil in P; discriminate|].
    inversion S1 as [|a' l' S1' F1]; subst.
    inversion S2 as [|b' l'' S2' F2]; subst.
    assert (E : a = b).
    { assert (Ia : In a (b :: r2))
        by (apply (Permutation_in _ P); left; reflexivity).
      assert (Ib : In b (a :: r1))
        by (apply (Permutation_in _ (Permutation_sym P)); left; reflexivity).
      destruct Ia as [->|Ia]; [reflexivity|].
      destruct Ib as [->|Ib]; [reflexivity|].
      rewrite Forall_forall in F1, F2.
      apply A; [left; reflexivity | right; exact Ib | apply F1, Ib
               | apply F2, Ia]. }
    subst b. f_equal. apply IH; try assumption.
    + apply (Permutation_cons_inv P).
    + intros x y Ix Iy. apply A; right; assumption.
Qed.

Lemma NoDup_id_inj (l : list Task) (a b : Task) :
  NoDup (map id l) -> In a l -> In b l -> id a = id b -> a = b.
Proof.
  induction l as [|x r IH]; simpl; intros N Ia Ib E; [contradiction|].
  inversion N as [|y l' Hx Nr]; subst.
  destruct Ia as [->|Ia], Ib as [->|Ib]; auto.
  - exfalso. apply Hx. rewrite E. apply in_map. exact Ib.
  - exfalso. apply Hx. rewrite <- E. apply in_map. exact Ia.
Qed.

(** X12: the order in which the collection is kept does not show: when the
    ids are pairwise different, two collections with the same tasks in any
    order are listed alike by [list_tasks], whatever the filters. *)
Theorem list_tasks_ignores_stored_order (st st' : TaskStorage)
  (ts ts' : list Task) (status p : option str) :
  NoDup (map id ts) -> Permutation ts ts' ->
  fst (list_tasks status p (loaded st ts))
  = fst (list_tasks status p (loaded st' ts')).
Proof.
  intros N P. rewrite !list_tasks_loaded. cbn [fst]. f_equal.
  set (f := fun l => filter (priority_keeps p) (filter (status_keeps status) l)).
  assert (Pf : Permutation (f ts) (f ts'))
    by (apply Permutation_filter_task, Permutation_filter_task, P).
  apply (sorted_perm_unique listed_before).
  - apply py_sort_listed.
  - apply py_sort_listed.
  - eapply Permutation_trans; [apply py_sort_perm|].
    eapply Permutation_trans; [exact Pf|].
    apply Permutation_sym, py_sort_perm.
  - intros a b Ia Ib Rab Rba.
    assert (In_ts : forall x, In x (py_sort sort_key tuple_leb (f ts)) ->
                              In x ts).
    { intros x Ix. apply (Permutation_in _ (py_sort_perm _ _ _)) in Ix.
      unfold f in Ix. apply filter_In in Ix. destruct Ix as [Ix _].
      apply filter_In in Ix. apply Ix. }
    apply (NoDup_id_inj ts a b N (In_ts a Ia) (In_ts b Ib)).
    unfold listed_before in *. lia.
Qed.

Lemma list_tasks_ignores_stored_order_witness :
  let st := empty_storage true true in
  fst (list_tasks None None
         (loaded st [mk_task 1 "low" false; mk_task 2 "high" false;
                     mk_task 3 "high" true]))
  = fst (list_tasks None None
           (loaded st [mk_task 3 "high" true; mk_task 1 "low" false;
                       mk_task 2 "high" false])).
Proof.
  intros st.
  apply (list_tasks_ignores_stored_order st st).
  - repeat constructor; simpl; intuition discriminate.
  - eapply Permutation_trans;
      [apply Permutation_cons_append | apply Permutation_cons_append].
Defined.

Lemma filter_filter_task (f g : Task -> bool) (l : list Task) :
  filter g (filter f l) = filter (fun t => f t && g t) l.
Proof.
  induction l as [|t r IH]; simpl; [reflexivity|].
  destruct (f t); simpl; [destruct (g t)|]; rewrite ?IH; reflexivity.
Qed.

Lemma filter_split_perm (f : Task -> bool) (l : list Task) :
  Permutation (filter f l ++ filter (fun t => negb (f t)) l) l.
Proof.
  induction l as [|t r IH]; simpl; [constructor|].
  destruct (f t); simpl; [constructor; exact IH|].
  apply Permutation_sym. eapply Permutation_trans;
    [apply perm_skip, Permutation_sym, IH | apply Permutation_middle].
Qed.

Lemma listed_length (st : TaskStorage) (ts : list Task)
  (status p : option str) :
  exists l,
    list_tasks status p (loaded st ts) = (Ret l, loaded st ts)
    /\ Z.of_nat (List.length l)
       = count (fun t => status_keeps status t && priority_keeps p t) ts
    /\ Permutation l (filter (fun t => status_keeps status t
                                       && priority_keeps p t) ts).
Proof.
  eexists. split; [apply list_tasks_loaded|].
  rewrite filter_filter_task. split.
  - unfold count. f_equal. apply Permutation_length, py_sort_perm.
  - apply py_sort_perm.
Qed.

Lemma count_ext (f g : Task -> bool) (ts : list Task) :
  (forall t, f t = g t) -> count f ts = count g ts.
Proof.
  intros H. unfold count. rewrite (filter_ext f g H). reflexivity.
Qed.

(** X13: the numbers of [get_stats] are the lengths of the lists
    [list_tasks] returns: total for no filter, completed and pending for the
    two status filters, which together list every task once, and each
    per-priority number for pending with that priority. *)
Theorem stats_agree_with_lists (st : TaskStorage) (ts : list Task) :
  exists stats all done todo,
    get_stats (loaded st ts) = (Ret stats, loaded st ts)
    /\ list_tasks None None (loaded st ts) = (Ret all, loaded st ts)
    /\ list_tasks (Some (py "completed")) None (loaded st ts)
       = (Ret done, loaded st ts)
    /\ list_tasks (Some (py "pending")) None (loaded st ts)
       = (Ret todo, loaded st ts)
    /\ dict_get (py "total") stats = Some (Z.of_nat (List.length all))
    /\ dict_get (py "completed") stats = Some (Z.of_nat (List.length done))
    /\ dict_get (py "pending") stats = Some (Z.of_nat (List.length todo))
    /\ Permutation (done ++ todo) all
    /\ (forall p,
          In p ["high"; "medium"; "low"]%string ->
          exists l,
            list_tasks (Some (py "pending")) (Some (py p)) (loaded st ts)
            = (Ret l, loaded st ts)
            /\ dict_get (py p ++ py "_priority") stats
               = Some (Z.of_nat (List.length l))).
Proof.
  destruct (listed_length st ts None None) as (all & Ea & La & Pa).
  destruct (listed_length st ts (Some (py "completed")) None)
    as (done & Ed & Ld & Pd).
  destruct (listed_length st ts (Some (py "pending")) None)
    as (todo & Et & Lt & Pt).
  assert (Ca : count (fun t => status_keeps None t && priority_keeps None t) ts
               = Z.of_nat (List.length ts)).
  { unfold count. simpl. rewrite filter_all. reflexivity. }
  assert (Cd : count (fun t => status_keeps (Some (py "completed")) t
                               && priority_keeps None t) ts
               = count completed ts).
  { apply count_ext. intros t. simpl. apply andb_true_r. }
  assert (Ct : count (fun t => status_keeps (Some (py "pending")) t
                               && priority_keeps None t) ts
               = count (fun t => negb (completed t)) ts).
  { apply count_ext. intros t. simpl. apply andb_true_r. }
  pose proof (count_partition completed ts) as Part.
  exists (stats_of ts), all, done, todo.
  split; [apply get_stats_loaded|]. repeat (split; [assumption|]).
  split; [cbn; f_equal; lia|].
  split; [cbn; f_equal; lia|].
  split; [cbn; f_equal; lia|].
  split.
  - eapply Permutation_trans; [apply Permutation_app; eassumption|].
    eapply Permutation_trans; [|apply Permutation_sym, Pa].
    simpl. rewrite filter_all.
    rewrite (filter_ext _ completed) by (intros t; simpl; apply andb_true_r).
    rewrite (filter_ext (fun t => status_keeps (Some (py "pending")) t
                                  && priority_keeps None t)
               (fun t => negb (completed t)))
      by (intros t; simpl; apply andb_true_r).
    apply filter_split_perm.
  - intros p Hp.
    destruct (listed_length st ts (Some (py "pending")) (Some (py p)))
      as (l & El & Ll & _).
    exists l. split; [exact El|]. rewrite Ll.
    destruct Hp as [<-|[<-|[<-|[]]]]; cbn [dict_get stats_of];
      (cbn; f_equal; apply count_ext; intros t; reflexivity).
Qed.

Lemma stats_agree_with_lists_witness :
  let st := empty_storage true true in
  let ts := [mk_task 1 "high" false; mk_task 2 "high" true;
             mk_task 3 "low" false] in
  exists stats l,
    get_stats (loaded st ts) = (Ret stats, loaded st ts)
    /\ list_tasks (Some (py "pending")) (Some (py "high")) (loaded st ts)
       = (Ret l, loaded st ts)
    /\ dict_get (py "high_priority") stats = Some (Z.of_nat (List.length l)).
Proof.
  intros st ts.
  destruct (stats_agree_with_lists st ts)
    as (stats & all & done & todo & G & _ & _ & _ & _ & _ & _ & _ & H).
  destruct (H "high"%string ltac:(left; reflexivity)) as (l & L & E).
  exists stats, l. auto.
Defined.

(** ** Further properties: the storage file *)

Lemma is_ascii_bytes (s : str) :
  is_ascii s = true ->
  Forall (fun b => (Byte.to_N b < 128)%N) (map byte_of s).
Proof.
  induction s as [|c s IH]; simpl; intros H; constructor;
    apply andb_true_iff in H; destruct H as [Hc Hs]; [|auto].
  apply N.ltb_lt in Hc. rewrite byte_of_to_N by lia. exact Hc.
Qed.

(** *** The decoder's fuel *)

Lemma skip_ws_length (s : str) : List.length (skip_ws s) <= List.length s.
Proof.
  induction s as [|c r IH]; simpl; [lia|]. destruct (is_ws c); simpl; lia.
Qed.

Lemma cons_char_rest (c : char) (o : outcome (str * str)) (x rest : str) :
  cons_char c o = Ret (x, rest) -> exists y, o = Ret (y, rest).
Proof.
  destruct o as [[y r]|e|]; simpl; intros H; try discriminate.
  injection H as _ <-. eauto.
Qed.

Lemma scanstring_shorter (n : nat) :
  forall s x rest,
    List.length s <= n -> scanstring s = Ret (x, rest) ->
    List.length rest < List.length s.
Proof.
  induction n as [|n IH]; intros s x rest L H; destruct s as [|c r];
    simpl in L; try lia; try discriminate H.
  cbn [scanstring] in H.
  repeat match type of H with
         | (if ?b then _ else _) = _ => destruct b
         | cons_char _ (scanstring ?t) = _ =>
             apply cons_char_rest in H; destruct H as (y & H);
             apply IH in H; simpl in *; lia
         | Ret _ = Ret _ => injection H as _ <-; simpl; lia
         | Raise _ = _ => discriminate H
         | match ?t with _ => _ end = _ => destruct t; simpl in L
         end.
Qed.

Lemma read_digits_length (s : str) :
  List.length (snd (read_digits s)) <= List.length s.
Proof.
  induction s as [|c r IH]; simpl; [lia|].
  destruct (is_digit c); [|simpl; lia].
  destruct (read_digits r) as [u rest]. simpl in *. lia.
Qed.

Lemma match_integer_shorter (s : str) (neg : bool) (u : Decimal.uint)
  (rest : str) :
  match_integer s = Some (neg, u, rest) -> List.length rest < List.length s.
Proof.
  assert (D : forall c r u' rest',
             is_digit c = true -> read_digits (c :: r) = (u', rest') ->
             List.length rest' <= List.length r).
  { intros c r u' rest' Hc H. simpl in H. rewrite Hc in H.
    pose proof (read_digits_length r) as L.
    destruct (read_digits r) as [u1 r1]. injection H as _ <-. exact L. }
  unfold match_integer.
  destruct s as [|c r]; [discriminate|].
  destruct (N.eqb c 45).
  - destruct r as [|c1 r1]; [discriminate|].
    destruct (N.eqb c1 48); [intros [= _ _ <-]; simpl; lia|].
    destruct (is_digit c1) eqn:Hc; [|discriminate].
    destruct (read_digits (c1 :: r1)) as [u1 rest1] eqn:E.
    intros [= _ _ <-]. pose proof (D _ _ _ _ Hc E). simpl. lia.
  - destruct (N.eqb c 48); [intros [= _ _ <-]; simpl; lia|].
    destruct (is_digit c) eqn:Hc; [|discriminate].
    destruct (read_digits (c :: r)) as [u1 rest1] eqn:E.
    intros [= _ _ <-]. pose proof (D _ _ _ _ Hc E). simpl. lia.
Qed.

Lemma strip_prefix_length (p s rest : str) :
  strip_prefix p s = Some rest ->
  List.length s = List.length p + List.length rest.
Proof.
  revert s; induction p as [|x p IH]; intros s; simpl.
  - intros [= ->]. reflexivity.
  - destruct s as [|y s]; [discriminate|].
    destruct (N.eqb x y); [|discriminate]. intros H. simpl.
    rewrite (IH _ H). reflexivity.
Qed.

Lemma scan_number_shorter (s : str) (v : value) (rest : str) :
  scan_number s = Ret (v, rest) -> List.length rest < List.length s.
Proof.
  unfold scan_number.
  destruct (match_integer s) as [[[neg u] r]|] eqn:E.
  - destruct (float_tail r); [discriminate|]. intros [= _ <-].
    apply (match_integer_shorter _ _ _ _ E).
  - destruct (strip_prefix _ s); [discriminate|].
    destruct (strip_prefix _ s); [discriminate|].
    destruct (strip_prefix _ s); discriminate.
Qed.

Ltac lengths :=
  repeat match goal with
         | E : skip_ws ?r = ?x |- _ =>
             assert (List.length x <= List.length r)
               by (rewrite <- E; apply skip_ws_length); clear E
         | E : scanstring ?r = Ret (_, ?x) |- _ =>
             assert (List.length x < List.length r)
               by (apply (scanstring_shorter (List.length r) _ _ _
                            (le_n _) E)); clear E
         | E : strip_prefix ?p ?s = Some ?x |- _ =>
             apply strip_prefix_length in E
         end;
  cbn [List.length py map list_ascii_of_string] in *; try lia.

(** Every value the scanner returns has used up part of the text. *)
Lemma scan_once_shorter (fuel : nat) :
  (forall room s v rest,
      scan_once fuel room s = Ret (v, rest) ->
      List.length rest < List.length s)
  /\ (forall room s acc v rest,
        JSONArray fuel room s acc = Ret (v, rest) ->
        List.length rest < List.length s)
  /\ (forall room s acc v rest,
        JSONObject fuel room s acc = Ret (v, rest) ->
        List.length rest < List.length s).
Proof.
  induction fuel as [|f (IHo & IHa & IHb)];
    [repeat split; intros; discriminate|].
  split; [|split].
  - intros room s v rest H. cbn [scan_once] in H.
    destruct s as [|c r]; [discriminate|].
    destruct (N.eqb c QUOTE).
    { destruct (scanstring r) as [[x r1]|e|] eqn:E; try discriminate.
      injection H as _ <-. lengths. }
    destruct (N.eqb c 123).
    { destruct room as [|room]; [discriminate|].
      destruct (skip_ws r) as [|c' r'] eqn:E; [discriminate|].
      destruct (N.eqb c' 125); [injection H as _ <-; lengths|].
      destruct (N.eqb c' QUOTE); [|discriminate].
      apply IHb in H. lengths. }
    destruct (N.eqb c 91).
    { destruct room as [|room]; [discriminate|].
      destruct (skip_ws r) as [|c' r'] eqn:E; [discriminate|].
      destruct (N.eqb c' 93); [injection H as _ <-; lengths|].
      apply IHa in H. lengths. }
    destruct (strip_prefix (py "null") (c :: r)) eqn:E1;
      [injection H as _ <-; lengths|].
    destruct (strip_prefix (py "true") (c :: r)) eqn:E2;
      [injection H as _ <-; lengths|].
    destruct (strip_prefix (py "false") (c :: r)) eqn:E3;
      [injection H as _ <-; lengths|].
    apply scan_number_shorter in H. exact H.
  - intros room s acc v rest H. cbn [JSONArray] in H.
    destruct (scan_once f room s) as [[x r1]|e|] eqn:E; try discriminate.
    apply IHo in E.
    destruct (skip_ws r1) as [|c r] eqn:E1; [discriminate|].
    destruct (N.eqb c 93); [injection H as _ <-; lengths|].
    destruct (N.eqb c 44); [|discriminate].
    apply IHa in H. pose proof (skip_ws_length r). lengths.
  - intros room s acc v rest H. cbn [JSONObject] in H.
    destruct (scanstring s) as [[key r1]|e|] eqn:E; try discriminate.
    destruct (skip_ws r1) as [|c r] eqn:E1; [discriminate|].
    destruct (N.eqb c 58); [|discriminate].
    destruct (scan_once f room (skip_ws r)) as [[x r2]|e|] eqn:E2;
      try discriminate.
    apply IHo in E2. pose proof (skip_ws_length r).
    destruct (skip_ws r2) as [|c' r'] eqn:E3; [discriminate|].
    destruct (N.eqb c' 125); [injection H as _ <-; lengths|].
    destruct (N.eqb c' 44); [|discriminate].
    destruct (skip_ws r') as [|q r''] eqn:E4; [discriminate|].
    destruct (N.eqb q QUOTE); [|discriminate].
    apply IHb in H. lengths.
Qed.

(** More fuel than one more than twice the length of the text changes
    nothing: the fuel [json_loads] gives is never used up, and [Beyond] comes
    from a float token or from the nesting only. *)
Lemma scan_once_enough_fuel (fuel : nat) :
  (forall room s fuel',
      2 * List.length s + 1 <= fuel -> fuel <= fuel' ->
      scan_once fuel' room s = scan_once fuel room s)
  /\ (forall room s acc fuel',
        2 * List.length s + 2 <= fuel -> fuel <= fuel' ->
        JSONArray fuel' room s acc = JSONArray fuel room s acc)
  /\ (forall room s acc fuel',
        2 * List.length s + 2 <= fuel -> fuel <= fuel' ->
        JSONObject fuel' room s acc = JSONObject fuel room s acc).
Proof.
  induction fuel as [|f (IHo & IHa & IHb)];
    [repeat split; intros; lia|].
  split; [|split].
  - intros room s [|f'] L F; [lia|]. cbn [scan_once].
    destruct s as [|c r]; [reflexivity|].
    destruct (N.eqb c QUOTE); [reflexivity|].
    destruct (N.eqb c 123).
    { destruct room as [|room]; [reflexivity|].
      destruct (skip_ws r) as [|c' r'] eqn:E; [reflexivity|].
      destruct (N.eqb c' 125); [reflexivity|].
      destruct (N.eqb c' QUOTE); [|reflexivity].
      apply IHb; lengths. }
    destruct (N.eqb c 91); [|reflexivity].
    destruct room as [|room]; [reflexivity|].
    destruct (skip_ws r) as [|c' r'] eqn:E; [reflexivity|].
    destruct (N.eqb c' 93); [reflexivity|].
    apply IHa; lengths.
  - intros room s acc [|f'] L F; [lia|]. cbn [JSONArray].
    rewrite (IHo room s f') by lia.
    destruct (scan_once f room s) as [[x r1]|e|] eqn:E; try reflexivity.
    apply (proj1 (scan_once_shorter f)) in E.
    destruct (skip_ws r1) as [|c r] eqn:E1; [reflexivity|].
    destruct (N.eqb c 93); [reflexivity|].
    destruct (N.eqb c 44); [|reflexivity].
    pose proof (skip_ws_length r). apply IHa; lengths.
  - intros room s acc [|f'] L F; [lia|]. cbn [JSONObject].
    destruct (scanstring s) as [[key r1]|e|] eqn:E; try reflexivity.
    destruct (skip_ws r1) as [|c r] eqn:E1; [reflexivity|].
    destruct (N.eqb c 58); [|reflexivity].
    pose proof (skip_ws_length r).
    rewrite (IHo room (skip_ws r) f') by lengths.
    destruct (scan_once f room (skip_ws r)) as [[x r2]|e|] eqn:E2;
      try reflexivity.
    apply (proj1 (scan_once_shorter f)) in E2.
    destruct (skip_ws r2) as [|c' r'] eqn:E3; [reflexivity|].
    destruct (N.eqb c' 125); [reflexivity|].
    destruct (N.eqb c' 44); [|reflexivity].
    destruct (skip_ws r') as [|q r''] eqn:E4; [reflexivity|].
    destruct (N.eqb q QUOTE); [|reflexivity].
    apply IHb; lengths.
Qed.

(** [json_loads] with any more fuel gives the same. *)
Lemma json_loads_fuel (s : str) (fuel : nat) :
  S (2 * List.length s) <= fuel ->
  json_loads s
  = match scan_once fuel max_nesting (skip_ws s) with
    | Ret (v, rest) =>
        match skip_ws rest with
        | [] => Ret v
        | _ :: _ => Raise JSONDecodeError
        end
    | Raise e => Raise e
    | Beyond => Beyond
    end.
Proof.
  intros F. unfold json_loads.
  pose proof (skip_ws_length s) as L.
  rewrite (proj1 (scan_once_enough_fuel (S (2 * List.length s)))
             max_nesting (skip_ws s) fuel) by lia.
  reflexivity.
Qed.

(** X14: for a value nested at most [max_nesting] deep whose integers have
    at most 4300 digits, [save_tasks] fails only when the file cannot be
    opened for writing, and then raises OSError and leaves the storage as it
    is; otherwise, whatever characters the strings of the value hold, it
    writes bytes that are all ASCII and that decode to the JSON text of the
    value.  Deeper values are left open. *)
Theorem save_tasks_writes_ascii (v : value) (st : TaskStorage) :
  nests_within v = true -> ints_within v = true ->
  (writable st = false -> save_tasks v st = (Raise OSError, st))
  /\ (writable st = true ->
      exists bs,
        save_tasks v st
        = (Ret tt, {| data_file := Some bs; readable := readable st;
                      writable := true; writes := S (writes st) |})
        /\ Forall (fun b => (Byte.to_N b < 128)%N) bs
        /\ utf8_decode bs = Some (json_dumps v)).
Proof.
  intros N _. apply Nat.leb_le in N. split; intros W.
  - apply save_tasks_not_writable; exact W.
  - exists (map byte_of (json_dumps v)).
    rewrite (@save_tasks_within v st N W). unfold written. rewrite W.
    split; [reflexivity|]. split.
    + apply is_ascii_bytes, iterencode_ascii.
    + apply utf8_decode_ascii, iterencode_ascii.
Qed.

Lemma save_tasks_writes_ascii_witness :
  exists bs,
    save_tasks (VList [VStr [233; 55296; 128512]%N; VInt (-42)])
      (empty_storage false true)
    = (Ret tt, {| data_file := Some bs; readable := false;
                  writable := true; writes := 1 |})
    /\ Forall (fun b => (Byte.to_N b < 128)%N) bs.
Proof.
  destruct (proj2 (save_tasks_writes_ascii
                     (VList [VStr [233; 55296; 128512]%N; VInt (-42)])
                     (empty_storage false true) eq_refl eq_refl) eq_refl)
    as (bs & S & A & _).
  exists bs. split; [exact S | exact A].
Defined.

(** X15: the round trip holds for every JSON value without floats whose
    strings are text and whose objects have pairwise different keys, not
    only for lists of complete tasks, as long as it nests at most
    [max_nesting] deep and its integers have at most 4300 digits: lists and
    objects inside one another, integers of either sign, booleans and null
    come back from [load_tasks] as [save_tasks] was given them. *)
Theorem save_load_any_value (v : value) (st : TaskStorage) :
  well_formed v = true ->
  nests_within v = true -> ints_within v = true ->
  writable st = true -> readable st = true ->
  exists st',
    save_tasks v st = (Ret tt, st') /\ load_tasks st' = Ret v.
Proof.
  intros WF N _ W R. apply Nat.leb_le in N. exists (written v st).
  split; [apply save_tasks_within; assumption|].
  apply load_tasks_within; assumption.
Qed.

Lemma save_load_any_value_witness :
  let v := VList [VDict [(py "id", VInt 1); (py "title", VStr (py "Test"));
                         (py "priority", VStr (py "high"));
                         (py "completed", VBool false)];
                  VDict []; VList [VNone; VInt (-12345678901234567890)];
                  VStr [34; 92; 10; 233; 128512]%N] in
  exists st',
    save_tasks v (empty_storage true true) = (Ret tt, st')
    /\ load_tasks st' = Ret v.
Proof.
  intros v.
  apply (save_load_any_value v (empty_storage true true)
           eq_refl eq_refl eq_refl eq_refl eq_refl).
Defined.

(** X16: what [load_tasks] does with a file that holds no run of more than
    4300 digits and whose text the decoder follows (nested at most
    [max_nesting] deep, no float token; other text is left open, the last
    part says which): it returns the empty list when there is no file, when
    the file cannot be opened and when the text is not JSON, and it raises in
    one case only, UnicodeDecodeError for a readable file whose bytes are not
    UTF-8. *)
Theorem load_tasks_outcomes (st : TaskStorage) :
  short_numbers st = true ->
  (data_file st = None \/ readable st = false ->
   load_tasks st = Ret (VList []))
  /\ (forall e,
        load_tasks st = Raise e <->
        e = UnicodeDecodeError
        /\ exists bs, data_file st = Some bs /\ readable st = true
                      /\ utf8_decode bs = None)
  /\ (forall bs text,
        data_file st = Some bs -> readable st = true ->
        utf8_decode bs = Some text ->
        load_tasks st = match json_loads text with
                        | Raise _ => Ret (VList [])
                        | other => other
                        end)
  /\ (load_tasks st = Beyond <->
      exists bs text,
        data_file st = Some bs /\ readable st = true
        /\ utf8_decode bs = Some text /\ json_loads text = Beyond).
Proof.
  intros _.
  assert (T : forall bs text,
             data_file st = Some bs -> readable st = true ->
             utf8_decode bs = Some text ->
             load_tasks st = match json_loads text with
                             | Raise _ => Ret (VList [])
                             | other => other
                             end).
  { intros bs text D R U. unfold load_tasks. rewrite D, R, U.
    pose proof (json_loads_only_json text) as H.
    destruct (json_loads text) as [v|e|]; simpl in H; subst; reflexivity. }
  split; [|split; [|split]].
  - destruct (load_tasks_recovers st) as (A & B & _). intros [H|H]; auto.
  - intros e. apply load_tasks_raises_iff.
  - exact T.
  - split.
    + intros B. destruct (data_file st) as [bs|] eqn:D.
      * destruct (readable st) eqn:R.
        -- destruct (utf8_decode bs) as [text|] eqn:U.
           ++ exists bs, text.
              split; [reflexivity|]. split; [reflexivity|].
              split; [exact U|].
              rewrite (T bs text eq_refl eq_refl U) in B.
              destruct (json_loads text); [discriminate B | discriminate B
                                          | reflexivity].
           ++ unfold load_tasks in B. rewrite D, R, U in B. discriminate B.
        -- unfold load_tasks in B. rewrite D, R in B. discriminate B.
      * unfold load_tasks in B. rewrite D in B. discriminate B.
    + intros (bs & text & D & R & U & J). rewrite (T bs text D R U), J.
      reflexivity.
Qed.

Lemma load_tasks_outcomes_witness :
  load_tasks {| data_file := Some [Byte.x5b; Byte.x5b; Byte.x5b];
                readable := true; writable := true; writes := 0 |}
  = Ret (VList [])
  /\ load_tasks {| data_file := Some [Byte.x5b; Byte.x5d]; readable := false;
                   writable := true; writes := 0 |} = Ret (VList []).
Proof.
  split.
  - exact (proj1 (proj2 (proj2 (load_tasks_outcomes
                           {| data_file := Some [Byte.x5b; Byte.x5b; Byte.x5b];
                              readable := true; writable := true;
                              writes := 0 |} eq_refl)))
             [Byte.x5b; Byte.x5b; Byte.x5b] [91; 91; 91]%N
             eq_refl eq_refl eq_refl).
  - apply (proj1 (load_tasks_outcomes
                    {| data_file := Some [Byte.x5b; Byte.x5d];
                       readable := false; writable := true; writes := 0 |}
                    eq_refl)).
    right. reflexivity.
Defined.

(** ** Further properties: main.py *)

Lemma list_tasks_new_manager (st : TaskStorage) (ts : list Task)
  (status p : option str) :
  reloads st ts ->
  list_tasks status p (get_manager st) = list_tasks status p (loaded st ts).
Proof.
  unfold reloads, get_manager. intros H.
  unfold list_tasks, bind. rewrite H. unfold tasks, loaded. cbn [_tasks].
  reflexivity.
Qed.

(** X17: the [list] command on a storage that holds a collection of text:
    with status all it shows every stored task once, ordered by priority
    then id; with completed and with pending it shows two parts of that
    list that together are all of it; and it leaves the storage as it is. *)
Theorem list_command_shows_everything (st : TaskStorage) (ts : list Task) :
  readable st = true -> forallb task_ok ts = true -> holds st ts ->
  exists all done todo,
    list_command (py "all") None st = (Ret all, st)
    /\ list_command (py "completed") None st = (Ret done, st)
    /\ list_command (py "pending") None st = (Ret todo, st)
    /\ Permutation all ts
    /\ StronglySorted listed_before all
    /\ Permutation (done ++ todo) all
    /\ Forall (fun t => completed t = true) done
    /\ Forall (fun t => completed t = false) todo.
Proof.
  intros R OK H. pose proof (holds_reloads st ts H R OK) as L.
  assert (E : forall s p,
             list_command s p st
             = (Ret (py_sort sort_key tuple_leb
                       (filter (priority_keeps p)
                          (filter (status_keeps
                                     (if negb (str_eqb s (py "all"))
                                      then Some s else None)) ts))), st)).
  { intros s p. unfold list_command.
    rewrite (list_tasks_new_manager st ts _ p L), list_tasks_loaded.
    reflexivity. }
  do 3 eexists. split; [apply E|]. split; [apply E|]. split; [apply E|].
  cbn [negb]. simpl filter. rewrite !filter_all.
  assert (Fc : filter (status_keeps (Some (py "completed"))) ts
               = filter completed ts) by reflexivity.
  assert (Fp : filter (status_keeps (Some (py "pending"))) ts
               = filter (fun t => negb (completed t)) ts) by reflexivity.
  change (str_eqb (py "completed") (py "all")) with false.
  change (str_eqb (py "pending") (py "all")) with false.
  cbn [negb]. rewrite Fc, Fp.
  split; [apply py_sort_perm|]. split; [apply py_sort_listed|]. split.
  - eapply Permutation_trans;
      [apply Permutation_app; apply py_sort_perm|].
    eapply Permutation_trans; [apply filter_split_perm|].
    apply Permutation_sym, py_sort_perm.
  - split; apply Forall_forall; intros t I;
      apply (Permutation_in _ (py_sort_perm _ _ _)) in I;
      apply filter_In in I; destruct I as [_ I];
      [exact I | apply negb_true_iff; exact I].
Qed.

Lemma list_command_shows_everything_witness :
  let ts := [mk_task 1 "low" false; mk_task 2 "high" true;
             mk_task 3 "high" false] in
  let st := written (tasks_value ts) (empty_storage true true) in
  exists all,
    list_command (py "all") None st = (Ret all, st)
    /\ map id all = [2; 3; 1]%Z.
Proof.
  intros ts st.
  destruct (list_command_shows_everything st ts eq_refl eq_refl
              (or_intror eq_refl))
    as (all & done & todo & A & _ & _ & P & S & _).
  exists all. split; [exact A|].
  assert (E : all = py_sort sort_key tuple_leb ts).
  { apply (sorted_perm_unique listed_before).
    - exact S.
    - apply py_sort_listed.
    - eapply Permutation_trans; [exact P | apply Permutation_sym, py_sort_perm].
    - intros a b Ia Ib Rab Rba.
      apply (NoDup_id_inj ts a b);
        [repeat constructor; simpl; intuition discriminate
        | apply (Permutation_in _ P Ia) | apply (Permutation_in _ P Ib)|].
      unfold listed_before in *. lia. }
  rewrite E. reflexivity.
Defined.

(** X18: for the tasks of every state reachable from an empty collection,
    [priority_color] is red for high, yellow for medium and green for low,
    and never the fallback white. *)
Theorem priority_color_of_reachable (m : TaskManager) :
  reachable m ->
  Forall (fun t =>
            (priority t = py "high" /\ priority_color (priority t) = py "red")
            \/ (priority t = py "medium"
                /\ priority_color (priority t) = py "yellow")
            \/ (priority t = py "low"
                /\ priority_color (priority t) = py "green"))
         (collection m).
Proof.
  intros R.
  assert (V : Forall valid_priority (collection m)).
  { revert m R. apply reachable_invariant; [constructor|].
    apply effect_valid_priority. }
  eapply Forall_impl; [|exact V].
  intros t [E|[E|E]]; rewrite E; [left | right; left | right; right];
    split; reflexivity.
Qed.

Lemma priority_color_of_reachable_witness :
  let m0 := new_manager (empty_storage true true) in
  let m1 := snd (invoke (AddTask (py "a") (py "Shiny") [] (py "t0")) m0) in
  reachable m1
  /\ Forall (fun t =>
               (priority t = py "high"
                /\ priority_color (priority t) = py "red")
               \/ (priority t = py "medium"
                   /\ priority_color (priority t) = py "yellow")
               \/ (priority t = py "low"
                   /\ priority_color (priority t) = py "green"))
            (collection m1).
Proof.
  intros m0 m1.
  assert (R : reachable m1) by apply (reach_call _ (reach_new true true)).
  split; [exact R | exact (priority_color_of_reachable m1 R)].
Defined.

Lemma invoke_storage_irrelevant (c : call) (st st' : TaskStorage)
  (ts : list Task) :
  writable st = writable st' ->
  fst (invoke c (loaded st ts)) = fst (invoke c (loaded st' ts)).
Proof.
  intros W.
  destruct c; methods; unfold tasks; cbn [loaded _tasks storage option_map];
    try destruct (find _ ts); try destruct (pop_first _ ts);
    try destruct (Z.ltb _ _);
    cbn [loaded _tasks storage option_map]; saves_cases; rewrite <- ?W;
    destruct (writable st); reflexivity.
Qed.

(** X19: the last writer wins.  A manager that has loaded never reads the
    file again: what a call returns does not depend on what the file holds
    now, and a call that saves replaces the file by the document of the
    manager's own collection, whatever another process wrote meanwhile. *)
Theorem last_writer_wins (c : call) (st st' : TaskStorage) (ts : list Task) :
  writable st = true -> writable st' = true ->
  fst (invoke c (loaded st ts)) = fst (invoke c (loaded st' ts))
  /\ (saves c ts = true ->
      data_file (storage (snd (invoke c (loaded st ts))))
      = Some (document (effect c ts))
      /\ data_file (storage (snd (invoke c (loaded st' ts))))
         = Some (document (effect c ts)))
  /\ (saves c ts = false ->
      storage (snd (invoke c (loaded st ts))) = st).
Proof.
  intros W W'. split; [apply invoke_storage_irrelevant; congruence|].
  destruct (invoke_loaded c st ts) as (r & E).
  destruct (invoke_loaded c st' ts) as (r' & E').
  rewrite W in E. rewrite W' in E'.
  split; intros S; rewrite S in E, E'; rewrite E, ?E'; [split|]; reflexivity.
Qed.

Lemma last_writer_wins_witness :
  let ts := [mk_task 1 "high" false] in
  let st := written (tasks_value ts) (empty_storage true true) in
  let st' := written (tasks_value (ts ++ [mk_task 2 "low" false])) st in
  data_file (storage (snd (invoke (CompleteTask 1 (py "n")) (loaded st' ts))))
  = Some (document [set_completion true (Some (py "n"))
                      (mk_task 1 "high" false)]).
Proof.
  intros ts st st'.
  destruct (last_writer_wins (CompleteTask 1 (py "n")) st st' ts
              eq_refl eq_refl) as (_ & S & _).
  apply (proj2 (S eq_refl)).
Defined.
